(** * GenExport: the [gen-exports.js] manifest export generator

    A shallow embedding of the generator script (the version with the
    [-e/--exclude-placeholder] option and the grouping of [.js] and
    [.d.ts] artifacts) and the proofs of the properties its
    specification states, followed by further properties of its
    helpers.  [JsOnly] embeds [buildExportsMap] as the two earlier
    versions have it, which list the [.js] files only.

    Conventions of the embedding.

    - A JavaScript string is a [string]: a sequence of code units, of
      which Rocq's [ascii] gives those below 256.  Every character the
      script inspects (['.'], ['/'], ['\'], [','] and the white space
      removed by [String.prototype.trim] in that range) lives there.
    - A JavaScript object used as a dictionary is an [Obj]: the list of
      its own enumerable properties in creation order.  Enumeration
      ([for ... in], [Object.keys], [JSON.stringify]) lists the keys that
      are array indices first, in ascending order, then the others in
      creation order, as the language prescribes.
    - The object [grouped] of [buildExportsMap] is a [Grouping]: its own
      properties together with the enumerable properties that the
      script creates on [Object.prototype].  The key [__proto__] is the
      accessor of the prototype: [acc[base][ext] = file] with that key
      writes [Object.prototype.js] or [Object.prototype.dts], which every
      object then inherits; [acc[base] || {}] reads the inherited string
      for the keys [js] and [dts], and [for ... in] visits the inherited
      keys after the own ones.  For a key that names a builtin member of
      [Object.prototype] ([constructor], [toString], ...) the script's
      [acc[base] || {}] yields that builtin function instead of a fresh
      object, and its [js]/[dts] properties are then written and read
      exactly as on a fresh object.  The other objects of the script
      (the export map, its entries, the manifest) get keys that start
      with [./] or are fixed names, and are printed by their own
      properties only.
    - The file system, the console and the process exit are the state of
      a small state-and-error monad [M].
    - Node's [path] module, [JSON] and the [fast-glob] package are not
      code of the repository: the generator is parameterised by them
      ([PathModule], [Runtime]); [posix] models the POSIX flavour of
      [path] on path segments. *)

From Stdlib Require Import String Ascii List Bool Arith PeanoNat NArith ZArith
  DecimalString Lia.
Import ListNotations.
Open Scope list_scope.
Open Scope string_scope.



(* ================================================================== *)
(** * JavaScript strings *)

Module JsString.

(** [In c s]: the code unit [c] occurs in [s]. *)
Fixpoint occurs (c : ascii) (s : string) : Prop :=
  match s with
  | EmptyString => False
  | String x s' => x = c \/ occurs c s'
  end.

(** ** [String.prototype.endsWith] and [slice(0, -n)] *)

(** [s.endsWith(suf)]: some suffix of [s] is [suf]. *)
Fixpoint endsWith (s suf : string) : bool :=
  (s =? suf) ||
  match s with
  | EmptyString => false
  | String _ s' => endsWith s' suf
  end.

(** The first [n] code units of [s]. *)
Fixpoint take (n : nat) (s : string) : string :=
  match n, s with
  | S n', String c s' => String c (take n' s')
  | _, _ => EmptyString
  end.

(** [s.slice(0, -n)] for [n > 0]: [s] without its last [n] code units
    (empty when [s] is shorter than [n]). *)
Definition sliceEnd (s : string) (n : nat) : string :=
  take (String.length s - n) s.

(** [s] without its prefix [pre], when it starts with it. *)
Fixpoint stripPrefix (pre s : string) : option string :=
  match pre, s with
  | EmptyString, _ => Some s
  | String a pre', String b s' => if Ascii.eqb a b then stripPrefix pre' s' else None
  | _, EmptyString => None
  end.

(** ** [String.prototype.includes] *)

(** [s.includes(sub)]: [sub] is a prefix of some suffix of [s]. *)
Fixpoint includes (s sub : string) : bool :=
  String.prefix sub s ||
  match s with
  | EmptyString => false
  | String _ s' => includes s' sub
  end.

(** ** [split(',')], [trim] and [replace(/\\/g, '/')] *)

(** [s.split(c)] for a separator of one code unit. *)
Fixpoint split (c : ascii) (s : string) : list string :=
  match s with
  | EmptyString => [EmptyString]
  | String a s' =>
      if Ascii.eqb a c then EmptyString :: split c s'
      else match split c s' with
           | h :: t => String a h :: t
           | [] => [String a EmptyString]
           end
  end.

(** White space and line terminators of the language, below 256:
    TAB, LF, VT, FF, CR, SPACE and NBSP. *)
Definition isWhiteSpace (a : ascii) : bool :=
  let n := nat_of_ascii a in
  (((9 <=? n) && (n <=? 13)) || (n =? 32) || (n =? 160))%nat.

Fixpoint trimStart (s : string) : string :=
  match s with
  | EmptyString => EmptyString
  | String a s' => if isWhiteSpace a then trimStart s' else s
  end.

Fixpoint trimEnd (s : string) : string :=
  match s with
  | EmptyString => EmptyString
  | String a s' =>
      match trimEnd s' with
      | EmptyString => if isWhiteSpace a then EmptyString else String a EmptyString
      | r => String a r
      end
  end.

(** [s.trim()]. *)
Definition trim (s : string) : string := trimEnd (trimStart s).

(** Every code unit of [s] satisfies [f]. *)
Fixpoint all (f : ascii -> bool) (s : string) : bool :=
  match s with
  | EmptyString => true
  | String a s' => f a && all f s'
  end.

Definition firstChar (s : string) : option ascii :=
  match s with String a _ => Some a | EmptyString => None end.

Fixpoint lastChar (s : string) : option ascii :=
  match s with
  | EmptyString => None
  | String a EmptyString => Some a
  | String _ s' => lastChar s'
  end.

(** [Boolean(s)] for a string: false only for the empty string. *)
Definition truthy (s : string) : bool :=
  match s with EmptyString => false | _ => true end.

(** [s.replace(/\\/g, '/')]. *)
Fixpoint replaceBackslash (s : string) : string :=
  match s with
  | EmptyString => EmptyString
  | String a s' =>
      String (if Ascii.eqb a "\" then "/"%char else a) (replaceBackslash s')
  end.

End JsString.

(* ================================================================== *)
(** * JavaScript objects used as dictionaries *)

Module JsObject.

(** The own enumerable properties of an object, in creation order. *)
Definition Obj (A : Type) : Type := list (string * A).

(** [o[k]] on an own property; [None] is [undefined]. *)
Fixpoint get {A} (k : string) (o : Obj A) : option A :=
  match o with
  | [] => None
  | (k', v) :: o' => if k' =? k then Some v else get k o'
  end.

(** [o[k] = v]: an existing property keeps its place, a new one is
    created last. *)
Fixpoint set {A} (k : string) (v : A) (o : Obj A) : Obj A :=
  match o with
  | [] => [(k, v)]
  | (k', v') :: o' =>
      if k' =? k then (k, v) :: o' else (k', v') :: set k v o'
  end.

Definition keys {A} (o : Obj A) : list string := map fst o.

(** ** The order of property enumeration *)

Definition isDigit (a : ascii) : bool :=
  let n := nat_of_ascii a in ((48 <=? n) && (n <=? 57))%nat.

(** The number a string of decimal digits denotes, if it is one. *)
Fixpoint digitsValue (acc : N) (s : string) : option N :=
  match s with
  | EmptyString => Some acc
  | String c s' =>
      if isDigit c
      then digitsValue (acc * 10 + N.of_nat (nat_of_ascii c - 48))%N s'
      else None
  end.

(** A property key is an array index when it is the canonical decimal
    form of an integer from 0 to 2^32 - 2. *)
Definition arrayIndex (k : string) : option N :=
  match k with
  | EmptyString => None
  | String c rest =>
      if Ascii.eqb c "0" then
        match rest with EmptyString => Some 0%N | _ => None end
      else
        match digitsValue 0 k with
        | Some n => if (n <=? 4294967294)%N then Some n else None
        | None => None
        end
  end.

Fixpoint insertIndex (x : N * string) (l : list (N * string)) : list (N * string) :=
  match l with
  | [] => [x]
  | y :: l' => if (fst x <=? fst y)%N then x :: l else y :: insertIndex x l'
  end.

Fixpoint sortIndex (l : list (N * string)) : list (N * string) :=
  match l with
  | [] => []
  | x :: l' => insertIndex x (sortIndex l')
  end.

Fixpoint indexKeys (ks : list string) : list (N * string) :=
  match ks with
  | [] => []
  | k :: ks' =>
      match arrayIndex k with
      | Some n => (n, k) :: indexKeys ks'
      | None => indexKeys ks'
      end
  end.

Fixpoint nameKeys (ks : list string) : list string :=
  match ks with
  | [] => []
  | k :: ks' =>
      match arrayIndex k with
      | Some _ => nameKeys ks'
      | None => k :: nameKeys ks'
      end
  end.

(** Array indices in ascending order, then the other keys in creation
    order. *)
Definition enumOrder (ks : list string) : list string :=
  (map snd (sortIndex (indexKeys ks)) ++ nameKeys ks)%list.

(** The keys visited by [for (const k in o)], [Object.keys(o)] and
    [JSON.stringify(o)]. *)
Definition ownKeys {A} (o : Obj A) : list string := enumOrder (keys o).

End JsObject.

(* ================================================================== *)
(** * The Node.js process: file system, console, exit and exceptions *)

Module Node.

Inductive FsEntry : Type :=
| File (content : string)
| Dir.

(** The file system: what is found at each absolute path. *)
Definition FS : Type := JsObject.Obj FsEntry.

Definition lookup (fs : FS) (p : string) : option FsEntry := JsObject.get p fs.

Definition existsSync (fs : FS) (p : string) : bool :=
  match lookup fs p with Some _ => true | None => false end.

Definition isDirectory (fs : FS) (p : string) : bool :=
  match lookup fs p with Some Dir => true | _ => false end.

Definition readFile (fs : FS) (p : string) : option string :=
  match lookup fs p with Some (File c) => Some c | _ => None end.

Definition writeFile (fs : FS) (p data : string) : FS :=
  JsObject.set p (File data) fs.

(** Two file systems with the same files and directories, whatever the
    files contain. *)
Definition sameShape (a b : FS) : Prop :=
  forall p,
    match lookup a p, lookup b p with
    | Some (File _), Some (File _) | Some Dir, Some Dir | None, None => True
    | _, _ => False
    end.

Inductive Exn : Type :=
| ENOENT (path : string)
| EISDIR (path : string)
| SyntaxError (text : string)
| TypeError (what : string)
| GlobError.

Inductive Line : Type :=
| Log (text : string)
| Warn (text : string)
| Err (text : string).

Record World : Type := mkWorld {
  w_fs : FS;
  w_console : list Line;     (* oldest line first *)
  w_writes : nat             (* number of files written so far *)
}.

Inductive Outcome (A : Type) : Type :=
| Ret (a : A)
| Exit (code : nat)          (* process.exit(code) *)
| Throw (e : Exn)
| Diverge.                   (* a loop that does not end *)
Arguments Ret {A} a.
Arguments Exit {A} code.
Arguments Throw {A} e.
Arguments Diverge {A}.

Definition M (A : Type) : Type := World -> Outcome A * World.

Definition ret {A} (a : A) : M A := fun w => (Ret a, w).

Definition bind {A B} (m : M A) (k : A -> M B) : M B :=
  fun w =>
    match m w with
    | (Ret a, w') => k a w'
    | (Exit c, w') => (Exit c, w')
    | (Throw e, w') => (Throw e, w')
    | (Diverge, w') => (Diverge, w')
    end.

Declare Scope js_scope.
Delimit Scope js_scope with js.
Notation "x <- m ;; k" := (bind m (fun x => k))
  (at level 61, m at next level, right associativity) : js_scope.
Notation "m ;; k" := (bind m (fun _ => k))
  (at level 61, right associativity) : js_scope.
Open Scope js_scope.

Definition process_exit {A} (code : nat) : M A := fun w => (Exit code, w).
Definition throw {A} (e : Exn) : M A := fun w => (Throw e, w).
Definition diverge {A} : M A := fun w => (Diverge, w).

Definition addLine (w : World) (l : Line) : World :=
  mkWorld (w_fs w) (w_console w ++ [l])%list (w_writes w).

(** The world after the console got the lines [ls]. *)
Definition addLines (w : World) (ls : list Line) : World :=
  mkWorld (w_fs w) (w_console w ++ ls)%list (w_writes w).

Definition console (l : Line) : M unit := fun w => (Ret tt, addLine w l).
Definition console_log (s : string) : M unit := console (Log s).
Definition console_warn (s : string) : M unit := console (Warn s).
Definition console_error (s : string) : M unit := console (Err s).

Definition fs_existsSync (p : string) : M bool :=
  fun w => (Ret (existsSync (w_fs w) p), w).

(** [fs.statSync(p).isDirectory()]. *)
Definition fs_statSync_isDirectory (p : string) : M bool :=
  fun w =>
    match lookup (w_fs w) p with
    | Some Dir => (Ret true, w)
    | Some (File _) => (Ret false, w)
    | None => (Throw (ENOENT p), w)
    end.

(** [fs.readFileSync(p, 'utf8')]. *)
Definition fs_readFileSync (p : string) : M string :=
  fun w =>
    match lookup (w_fs w) p with
    | Some (File c) => (Ret c, w)
    | Some Dir => (Throw (EISDIR p), w)
    | None => (Throw (ENOENT p), w)
    end.

(** [fs.writeFileSync(p, data)]. *)
Definition fs_writeFileSync (p data : string) : M unit :=
  fun w =>
    match lookup (w_fs w) p with
    | Some Dir => (Throw (EISDIR p), w)
    | _ => (Ret tt,
            mkWorld (writeFile (w_fs w) p data) (w_console w)
                    (S (w_writes w)))
    end.

(** ** The [path] module, as far as the script uses it *)
Record PathModule : Type := mkPath {
  basename : string -> string;
  dirname : string -> string;
  join : string -> string -> string;
  resolve : list string -> string;
  relative : string -> string -> string
}.

(** ** JSON values *)
#[warnings="-register-all"]
Inductive Json : Type :=
| JNull
| JBool (b : bool)
| JNum (literal : string)
| JStr (s : string)
| JArr (items : list Json)
| JObj (props : JsObject.Obj Json).

(** The runtime the script runs on: the working directory of the
    process, [require('path')], the global [JSON] ([stringify] with the
    two-space indentation the script asks for) and
    [require('fast-glob')]. *)
Record Runtime : Type := mkRuntime {
  cwd : string;
  path : PathModule;
  JSON_parse : string -> option Json;
  JSON_stringify2 : Json -> string;
  fg : FS -> list string -> string -> option (list string)
}.

End Node.

(* ================================================================== *)
(** * The POSIX flavour of [path] *)

Module Posix.
Import JsString.

Definition slash : ascii := "/"%char.

Definition isSlash (a : ascii) : bool := Ascii.eqb a slash.

Definition startsWithSlash (p : string) : bool :=
  match p with String c _ => isSlash c | EmptyString => false end.

Fixpoint endsWithSlash (p : string) : bool :=
  match p with
  | EmptyString => false
  | String c EmptyString => isSlash c
  | String _ p' => endsWithSlash p'
  end.

(** One step of [normalizeString]: [acc] holds the segments kept so
    far, the last one first. *)
Definition normStep (allowAboveRoot : bool) (acc : list string) (seg : string)
  : list string :=
  if (seg =? "") || (seg =? ".") then acc
  else if seg =? ".." then
    match acc with
    | [] => if allowAboveRoot then [".."] else []
    | last :: acc' =>
        if last =? ".." then (if allowAboveRoot then ".." :: acc else acc)
        else acc'
    end
  else seg :: acc.

Definition normSegments (allowAboveRoot : bool) (segs : list string) : list string :=
  rev (fold_left (normStep allowAboveRoot) segs []).

Definition joinSegments (segs : list string) : string := String.concat "/" segs.

(** [normalizeString(path, allowAboveRoot, '/', isPosixPathSeparator)]. *)
Definition normalizeString (p : string) (allowAboveRoot : bool) : string :=
  joinSegments (normSegments allowAboveRoot (split slash p)).

(** [path.posix.normalize]. *)
Definition normalize (p : string) : string :=
  if p =? "" then "."
  else
    let isAbsolute := startsWithSlash p in
    let trailingSeparator := endsWithSlash p in
    let n := normalizeString p (negb isAbsolute) in
    if n =? "" then
      (if isAbsolute then "/" else if trailingSeparator then "./" else ".")
    else
      let n' := if trailingSeparator then n ++ "/" else n in
      if isAbsolute then "/" ++ n' else n'.

(** [path.posix.join(a, b)]. *)
Definition join (a b : string) : string :=
  match truthy a, truthy b with
  | false, false => "."
  | true, false => normalize a
  | false, true => normalize b
  | true, true => normalize (a ++ "/" ++ b)
  end.

(** The loop of [path.posix.resolve], from the last argument to the
    first and then the working directory. *)
Fixpoint resolveLoop (revArgs : list string) (resolvedPath : string)
  : string * bool :=
  match revArgs with
  | [] => (resolvedPath, false)
  | p :: rest =>
      if p =? "" then resolveLoop rest resolvedPath
      else
        let resolvedPath' := p ++ "/" ++ resolvedPath in
        if startsWithSlash p then (resolvedPath', true)
        else resolveLoop rest resolvedPath'
  end.

(** [path.posix.resolve(...args)] in a process whose working directory
    is [cwd]. *)
Definition resolve (cwd : string) (args : list string) : string :=
  let '(resolvedPath, resolvedAbsolute) :=
    resolveLoop (rev args ++ [cwd])%list "" in
  let n := normalizeString resolvedPath (negb resolvedAbsolute) in
  if resolvedAbsolute then "/" ++ n
  else if truthy n then n else ".".

Fixpoint dropSlashes (l : list ascii) : list ascii :=
  match l with
  | c :: l' => if isSlash c then dropSlashes l' else l
  | [] => []
  end.

Fixpoint takeSegment (l : list ascii) : list ascii :=
  match l with
  | c :: l' => if isSlash c then [] else c :: takeSegment l'
  | [] => []
  end.

Fixpoint dropSegment (l : list ascii) : list ascii :=
  match l with
  | c :: l' => if isSlash c then l else dropSegment l'
  | [] => []
  end.

(** [path.posix.basename(p)]: the last run of code units other than
    ['/'], trailing separators apart. *)
Definition basename (p : string) : string :=
  string_of_list_ascii
    (rev (takeSegment (dropSlashes (rev (list_ascii_of_string p))))).

(** [path.posix.dirname(p)]: the scan from the end looks at every code
    unit but the first. *)
Definition dirname (p : string) : string :=
  match p with
  | EmptyString => "."
  | String c body =>
      let hasRoot := isSlash c in
      match dropSegment (dropSlashes (rev (list_ascii_of_string body))) with
      | [] => if hasRoot then "/" else "."
      | _ :: before =>
          match before with
          | [] => if hasRoot then "//" else String c EmptyString
          | _ => String c (string_of_list_ascii (rev before))
          end
      end
  end.

(** The segments of an absolute normalized path, as [resolve] returns
    it. *)
Definition absSegments (p : string) : list string :=
  match p with
  | String _ EmptyString => []
  | String _ body => split slash body
  | EmptyString => []
  end.

Fixpoint stripCommon (a b : list string) : list string * list string :=
  match a, b with
  | x :: a', y :: b' => if x =? y then stripCommon a' b' else (a, b)
  | _, _ => (a, b)
  end.

(** [path.posix.relative(from, to)]: one [..] for each segment of
    [from] below the common ancestor, then the rest of [to]. *)
Definition relative (cwd from to : string) : string :=
  if from =? to then ""
  else
    let from' := resolve cwd [from] in
    let to' := resolve cwd [to] in
    if from' =? to' then ""
    else
      let '(up, down) := stripCommon (absSegments from') (absSegments to') in
      joinSegments (map (fun _ => "..") up ++ down)%list.

(** A segment of a normalized path: not empty, not [.] or [..], no
    separator in it. *)
Definition clean (seg : string) : Prop :=
  seg <> "" /\ seg <> "." /\ seg <> ".." /\ ~ JsString.occurs slash seg.

(** The absolute normalized path with the given segments. *)
Definition absPath (segs : list string) : string := "/" ++ joinSegments segs.

(** The module in a process whose working directory is [cwd]. *)
Definition posix (cwd : string) : Node.PathModule :=
  Node.mkPath basename dirname join (resolve cwd) (relative cwd).

End Posix.

(* ================================================================== *)
(** * A runtime to run the script on

    [JSON] and [fast-glob] belong to the platform, not to the
    repository; the theorems hold for every [Runtime].  The instance
    below serves to run the script on concrete worlds.  It prints JSON
    as [JSON.stringify(v, null, 2)] does and reads it as [JSON.parse]
    does; a number is the double nearest to its literal, kept as the
    text that [JSON.stringify] writes for it.  A string escape for a
    code unit above 255 has no place in the strings of the embedding,
    and the instance does not read it. *)

Module JsonText.
Import JsString JsObject Node.

Definition dq : string := String "034"%char EmptyString.
Definition bs : string := String "092"%char EmptyString.
Definition nl : string := String "010"%char EmptyString.

Definition hexDigit (n : nat) : string :=
  String.substring n 1 "0123456789abcdef".

(** The escape of one code unit inside a JSON string. *)
Definition escapeChar (a : ascii) : string :=
  let n := nat_of_ascii a in
  if (n =? 34)%nat then bs ++ dq
  else if (n =? 92)%nat then bs ++ bs
  else if (n =? 8)%nat then bs ++ "b"
  else if (n =? 9)%nat then bs ++ "t"
  else if (n =? 10)%nat then bs ++ "n"
  else if (n =? 12)%nat then bs ++ "f"
  else if (n =? 13)%nat then bs ++ "r"
  else if (n <? 32)%nat then bs ++ "u00" ++ hexDigit (n / 16) ++ hexDigit (n mod 16)
  else String a EmptyString.

Fixpoint escape (s : string) : string :=
  match s with
  | EmptyString => EmptyString
  | String a s' => escapeChar a ++ escape s'
  end.

Definition quote (s : string) : string := dq ++ escape s ++ dq.

(** ** Numbers

    [JSON.parse] reads a number literal as the double nearest to it
    (ties to even), and [JSON.stringify] writes a double as
    [Number.prototype.toString] does, with the fewest digits that
    denote it, and an infinity as [null].  [JNum] holds that text, and
    [Infinity] or [-Infinity] for a literal beyond the range. *)

(** [num / den / 2^e] as a fraction. *)
Definition scaled (num den : N) (e : Z) : N * N :=
  if (0 <=? e)%Z then (num, (den * 2 ^ Z.to_N e)%N)
  else ((num * 2 ^ Z.to_N (- e))%N, den).

(** The integer nearest to [num / den], the even one of two. *)
Definition roundHalfEven (num den : N) : N :=
  let q := (num / den)%N in
  match (2 * (num mod den) ?= den)%N with
  | Lt => q
  | Gt => (q + 1)%N
  | Eq => if N.even q then q else (q + 1)%N
  end.

(** The double nearest to [num / den], for positive [num] and [den]:
    [m * 2^e] with [2^52 <= m < 2^53], or with [e = -1074] and
    [m < 2^52]; [None] is the infinity. *)
Definition toDouble (num den : N) : option (N * Z) :=
  let e0 := (Z.of_N (N.log2 num) - Z.of_N (N.log2 den) - 52)%Z in
  let '(n0, d0) := scaled num den e0 in
  let e1 := if (2 ^ 52 <=? n0 / d0)%N then e0 else (e0 - 1)%Z in
  let e2 := Z.max e1 (-1074) in
  let '(n2, d2) := scaled num den e2 in
  let m := roundHalfEven n2 d2 in
  let '(m', e') :=
    if (m =? 2 ^ 53)%N then ((2 ^ 52)%N, (e2 + 1)%Z) else (m, e2) in
  if (971 <? e')%Z then None else Some (m', e').

(** [s * 10^t] as a fraction. *)
Definition decimalFraction (s : N) (t : Z) : N * N :=
  if (0 <=? t)%Z then ((s * 10 ^ Z.to_N t)%N, 1%N)
  else (s, (10 ^ Z.to_N (- t))%N).

Definition decimalToDouble (s : N) (t : Z) : option (N * Z) :=
  let '(num, den) := decimalFraction s t in toDouble num den.

(** [10^n <= num / den]. *)
Definition atLeastPow10 (num den : N) (n : Z) : bool :=
  if (0 <=? n)%Z then (den * 10 ^ Z.to_N n <=? num)%N
  else (den <=? num * 10 ^ Z.to_N (- n))%N.

(** The least [n] from [n0] on with [num / den < 10^n]. *)
Fixpoint digitsBefore (fuel : nat) (num den : N) (n0 : Z) : Z :=
  match fuel with
  | O => n0
  | S fuel' =>
      if atLeastPow10 num den n0 then digitsBefore fuel' num den (n0 + 1)
      else n0
  end.

(** The digits [s] and the exponent [n] of [Number::toString]: the
    least number [k] of digits such that [s * 10^(n - k)] reads as the
    double [m * 2^e], and of the [s] with [k] digits the nearest one;
    [k] goes from [k0] up. *)
Fixpoint shortest (fuel : nat) (k0 : Z) (m : N) (e : Z) (num den : N) (n : Z)
  : N * Z :=
  let t := (n - k0)%Z in
  let '(a, b) :=
    if (0 <=? t)%Z then (num, (den * 10 ^ Z.to_N t)%N)
    else ((num * 10 ^ Z.to_N (- t))%N, den) in
  let lo := (a / b)%N in
  let hi := (lo + 1)%N in
  let reads (s : N) :=
    match decimalToDouble s t with
    | Some (m', e') => (m' =? m)%N && (e' =? e)%Z
    | None => false
    end in
  let normal (s : N) := if (s =? 10 ^ Z.to_N k0)%N then (1%N, (n + 1)%Z) else (s, n) in
  match fuel with
  | O => (lo, n)
  | S fuel' =>
      match reads lo, reads hi with
      | true, true =>
          match (2 * (a mod b) ?= b)%N with
          | Lt => (lo, n)
          | Gt => normal hi
          | Eq => if N.even lo then (lo, n) else normal hi
          end
      | true, false => (lo, n)
      | false, true => normal hi
      | false, false => shortest fuel' (k0 + 1) m e num den n
      end
  end.

Definition decimal (n : N) : string :=
  DecimalString.NilZero.string_of_uint (N.to_uint n).

Fixpoint zeros (n : nat) : string :=
  match n with
  | O => EmptyString
  | S n' => String "0" (zeros n')
  end.

(** [Number::toString] from the digits and the exponent. *)
Definition numberFormat (digits : string) (n : Z) : string :=
  let k := Z.of_nat (String.length digits) in
  if ((k <=? n) && (n <=? 21))%Z then
    digits ++ zeros (Z.to_nat (n - k))
  else if ((0 <? n) && (n <=? 21))%Z then
    String.substring 0 (Z.to_nat n) digits ++ "."
    ++ String.substring (Z.to_nat n) (String.length digits) digits
  else if ((-6 <? n) && (n <=? 0))%Z then
    "0." ++ zeros (Z.to_nat (- n)) ++ digits
  else
    let x := (n - 1)%Z in
    let expo :=
      "e" ++ (if (x <? 0)%Z then "-" else "+") ++ decimal (Z.to_N (Z.abs x)) in
    match digits with
    | String d EmptyString => digits ++ expo
    | String d rest => String d ("." ++ rest) ++ expo
    | EmptyString => expo
    end.

(** The text of the double [m * 2^e], for positive [m]. *)
Definition doubleText (m : N) (e : Z) : string :=
  let '(num, den) := scaled m 1 (- e) in
  let estimate :=
    ((Z.of_N (N.log2 num) - Z.of_N (N.log2 den) - 1) * 30103 / 100000 - 1)%Z in
  let n := digitsBefore 8 num den estimate in
  let '(s, n') := shortest 17 1 m e num den n in
  numberFormat (decimal s) n'.

Fixpoint dropZeros (s : string) : string :=
  match s with
  | String "0"%char s' => dropZeros s'
  | _ => s
  end.

(** The text of the number that the literal with the given sign,
    digits before and after the point and exponent denotes. *)
Definition numberText (negative : bool) (int frac : string)
    (expNegative : bool) (expDigits : string) : string :=
  let digits := dropZeros (int ++ frac) in
  let x :=
    match digitsValue 0 expDigits with
    | Some v => if expNegative then (- Z.of_N v)%Z else Z.of_N v
    | None => 0%Z
    end in
  let t := (x - Z.of_nat (String.length frac))%Z in
  let sign := if negative then "-" else EmptyString in
  match digitsValue 0 digits with
  | Some 0%N | None => "0"
  | Some s =>
      let top := (Z.of_nat (String.length digits) + t)%Z in
      if (309 <? top)%Z then sign ++ "Infinity"
      else if (top <? -324)%Z then "0"
      else
        match decimalToDouble s t with
        | None => sign ++ "Infinity"
        | Some (0%N, _) => "0"
        | Some (m, e) => sign ++ doubleText m e
        end
  end.

Fixpoint depth (j : Json) : nat :=
  match j with
  | JArr items => S (fold_right (fun x n => Nat.max (depth x) n) 0 items)
  | JObj props => S (fold_right (fun kv n => Nat.max (depth (snd kv)) n) 0 props)
  | _ => 1
  end.

(** [fuel] bounds the nesting; [indent] is the current indentation. *)
Fixpoint stringifyAt (fuel : nat) (indent : string) (j : Json) : string :=
  match fuel with
  | O => EmptyString
  | S fuel' =>
      let inner := indent ++ "  " in
      match j with
      | JNull => "null"
      | JBool true => "true"
      | JBool false => "false"
      | JNum text =>
          if (text =? "Infinity") || (text =? "-Infinity") || (text =? "NaN")
          then "null" else text
      | JStr s => quote s
      | JArr [] => "[]"
      | JArr items =>
          "[" ++ nl
          ++ String.concat ("," ++ nl)
               (map (fun x => inner ++ stringifyAt fuel' inner x) items)
          ++ nl ++ indent ++ "]"
      | JObj props =>
          match ownKeys props with
          | [] => "{}"
          | ks =>
              "{" ++ nl
              ++ String.concat ("," ++ nl)
                   (map (fun k =>
                           inner ++ quote k ++ ": "
                           ++ match get k props with
                              | Some v => stringifyAt fuel' inner v
                              | None => EmptyString
                              end) ks)
              ++ nl ++ indent ++ "}"
          end
      end
  end.

(** [JSON.stringify(j, null, 2)]. *)
Definition stringify2 (j : Json) : string := stringifyAt (depth j) "" j.

(** ** Reading JSON text *)

Definition isJsonSpace (a : ascii) : bool :=
  let n := nat_of_ascii a in
  ((n =? 32) || (n =? 9) || (n =? 10) || (n =? 13))%nat.

Fixpoint skipSpace (s : string) : string :=
  match s with
  | String a s' => if isJsonSpace a then skipSpace s' else s
  | EmptyString => EmptyString
  end.

Fixpoint spanDigits (s : string) : string * string :=
  match s with
  | String a s' =>
      if isDigit a then let '(d, r) := spanDigits s' in (String a d, r)
      else (EmptyString, s)
  | EmptyString => (EmptyString, EmptyString)
  end.

Definition isQuote (a : ascii) : bool := Ascii.eqb a "034"%char.

Definition hexValue (a : ascii) : option nat :=
  let n := nat_of_ascii a in
  if ((48 <=? n) && (n <=? 57))%nat then Some (n - 48)
  else if ((97 <=? n) && (n <=? 102))%nat then Some (n - 87)
  else if ((65 <=? n) && (n <=? 70))%nat then Some (n - 55)
  else None.

(** The characters of a string literal after its opening quote, and
    what follows the closing quote.  An escape [\uXXXX] is read when it
    denotes a code unit below 256. *)
Fixpoint parseChars (fuel : nat) (s : string) : option (string * string) :=
  match fuel with
  | O => None
  | S fuel' =>
      match s with
      | EmptyString => None
      | String a s' =>
          let n := nat_of_ascii a in
          if (n =? 34)%nat then Some (EmptyString, s')
          else if (n <? 32)%nat then None
          else if (n =? 92)%nat then
            match s' with
            | String e s'' =>
                let plain (c : ascii) :=
                  match parseChars fuel' s'' with
                  | Some (t, r) => Some (String c t, r)
                  | None => None
                  end in
                let m := nat_of_ascii e in
                if (m =? 34)%nat then plain e
                else if (m =? 92)%nat then plain e
                else if (m =? 47)%nat then plain e
                else if (m =? 98)%nat then plain "008"%char
                else if (m =? 102)%nat then plain "012"%char
                else if (m =? 110)%nat then plain "010"%char
                else if (m =? 114)%nat then plain "013"%char
                else if (m =? 116)%nat then plain "009"%char
                else if (m =? 117)%nat then
                  match s'' with
                  | String h1 (String h2 (String h3 (String h4 s3))) =>
                      match hexValue h1, hexValue h2, hexValue h3, hexValue h4 with
                      | Some 0, Some 0, Some x, Some y =>
                          match parseChars fuel' s3 with
                          | Some (t, r) => Some (String (ascii_of_nat (16 * x + y)) t, r)
                          | None => None
                          end
                      | _, _, _, _ => None
                      end
                  | _ => None
                  end
                else None
            | EmptyString => None
            end
          else
            match parseChars fuel' s' with
            | Some (t, r) => Some (String a t, r)
            | None => None
            end
      end
  end.

(** A number literal at the head of [s]: the text of the number it
    denotes, and what follows the literal. *)
Definition parseNumber (s : string) : option (string * string) :=
  let '(negative, s1) :=
    match s with
    | String "-"%char s' => (true, s')
    | _ => (false, s)
    end in
  let '(int, s2) := spanDigits s1 in
  let intOk :=
    match int with
    | EmptyString => false
    | String "0"%char (String _ _) => false
    | _ => true
    end in
  if negb intOk then None
  else
    let frac :=
      match s2 with
      | String "."%char s' =>
          let '(d, r) := spanDigits s' in
          if truthy d then Some (d, r) else None
      | _ => Some (EmptyString, s2)
      end in
    match frac with
    | None => None
    | Some (f, s3) =>
        let expo :=
          match s3 with
          | String e s' =>
              if Ascii.eqb e "e" || Ascii.eqb e "E" then
                let '(expNegative, s'') :=
                  match s' with
                  | String "+"%char t => (false, t)
                  | String "-"%char t => (true, t)
                  | _ => (false, s')
                  end in
                let '(d, r) := spanDigits s'' in
                if truthy d then Some (expNegative, d, r) else None
              else Some (false, EmptyString, s3)
          | EmptyString => Some (false, EmptyString, s3)
          end in
        match expo with
        | None => None
        | Some (expNegative, x, s4) =>
            Some (numberText negative int f expNegative x, s4)
        end
    end.

Fixpoint parseValue (fuel : nat) (s : string) : option (Json * string) :=
  match fuel with
  | O => None
  | S fuel' =>
      let elements :=
        (* the items of an array after the first, up to the bracket *)
        fix elements (n : nat) (acc : list Json) (s : string)
          : option (Json * string) :=
          match n with
          | O => None
          | S n' =>
              match skipSpace s with
              | String "]"%char r => Some (JArr (rev acc), r)
              | String ","%char r =>
                  match parseValue fuel' r with
                  | Some (v, r') => elements n' (v :: acc) r'
                  | None => None
                  end
              | _ => None
              end
          end in
      let member (s : string) : option (string * Json * string) :=
        match skipSpace s with
        | String c r =>
            if isQuote c then
              match parseChars (String.length r) r with
              | Some (k, r1) =>
                  match skipSpace r1 with
                  | String ":"%char r2 =>
                      match parseValue fuel' r2 with
                      | Some (v, r3) => Some (k, v, r3)
                      | None => None
                      end
                  | _ => None
                  end
              | None => None
              end
            else None
        | EmptyString => None
        end in
      let members :=
        fix members (n : nat) (acc : Obj Json) (s : string)
          : option (Json * string) :=
          match n with
          | O => None
          | S n' =>
              match skipSpace s with
              | String "}"%char r => Some (JObj acc, r)
              | String ","%char r =>
                  match member r with
                  | Some (k, v, r') => members n' (set k v acc) r'
                  | None => None
                  end
              | _ => None
              end
          end in
      match skipSpace s with
      | String "n"%char _ as t =>
          match stripPrefix "null" t with Some r => Some (JNull, r) | None => None end
      | String "t"%char _ as t =>
          match stripPrefix "true" t with Some r => Some (JBool true, r) | None => None end
      | String "f"%char _ as t =>
          match stripPrefix "false" t with Some r => Some (JBool false, r) | None => None end
      | String "034"%char r =>
          match parseChars (String.length r) r with
          | Some (str, r') => Some (JStr str, r')
          | None => None
          end
      | String "["%char r =>
          match skipSpace r with
          | String "]"%char r' => Some (JArr [], r')
          | _ =>
              match parseValue fuel' r with
              | Some (v, r') => elements (String.length r') [v] r'
              | None => None
              end
          end
      | String "{"%char r =>
          match skipSpace r with
          | String "}"%char r' => Some (JObj [], r')
          | _ =>
              match member r with
              | Some (k, v, r') => members (String.length r') [(k, v)] r'
              | None => None
              end
          end
      | t =>
          match parseNumber t with
          | Some (text, r) => Some (JNum text, r)
          | None => None
          end
      end
  end.

(** [JSON.parse(text)]; [None] is the [SyntaxError]. *)
Definition parse (text : string) : option Json :=
  match parseValue (S (String.length text)) text with
  | Some (v, r) => if all isJsonSpace r then Some v else None
  | None => None
  end.

End JsonText.

(** The files below [cwd] that the patterns ['**/*.js'] and
    ['**/*.d.ts'] select with the default options of [fast-glob]: files
    only, no path segment that starts with a dot, paths relative to
    [cwd] with forward slashes.  [fast-glob] fixes no order of the
    result; this instance lists the files in the order of the file
    system. *)
Module Glob.
Import JsString JsObject Node.

Definition hidden (seg : string) : bool :=
  match seg with
  | String "."%char _ => true
  | EmptyString => true
  | _ => false
  end.

(** [p] below the directory [dir]: the path relative to it. *)
Definition below (dir p : string) : option string :=
  stripPrefix (if Posix.endsWithSlash dir then dir else dir ++ "/") p.

Definition selected (rel : string) : bool :=
  (endsWith rel ".js" || endsWith rel ".d.ts")
  && negb (existsb hidden (split "/" rel)).

Fixpoint scan (fs : FS) (cwd : string) : list string :=
  match fs with
  | [] => []
  | (p, File _) :: fs' =>
      match below cwd p with
      | Some rel => if selected rel then rel :: scan fs' cwd else scan fs' cwd
      | None => scan fs' cwd
      end
  | (_, Dir) :: fs' => scan fs' cwd
  end.

Definition fg (fs : FS) (patterns : list string) (cwd : string)
  : option (list string) :=
  Some (scan fs cwd).

End Glob.

(** Node on a POSIX host, in a process started in [cwd]. *)
Definition nodePosix (cwd : string) : Node.Runtime :=
  Node.mkRuntime cwd (Posix.posix cwd) JsonText.parse JsonText.stringify2 Glob.fg.

(* ================================================================== *)
(** * The generator script *)

Module GenExports.
Import JsString JsObject Node.

(** The code unit of the double quote. *)
Definition dquote : string := String "034"%char EmptyString.

Record CliArgs : Type := mkCliArgs {
  buildDirArg : string;
  excludeNames : list string;
  pkgPathArg : option string;
  placeholder : string
}.

Record Paths : Type := mkPaths {
  pkgPath : string;
  pkgDir : string;
  distDir : string
}.

(** The options object handed to [buildExportsMap]. *)
Record Options : Type := mkOptions {
  o_distDir : string;
  o_pkgDir : string;
  o_excludeNames : list string;
  o_placeholder : string
}.

Inductive Ext : Type := ExtJs | ExtDts.

(** A value of [grouped]: [{ js?: file, dts?: file }]. *)
Record Group : Type := mkGroup {
  g_js : option string;
  g_dts : option string
}.

(** A value of the export map: [{ import?, require?, types? }]. *)
Record Entry : Type := mkEntry {
  e_import : option string;
  e_require : option string;
  e_types : option string
}.

Definition emptyGroup : Group := mkGroup None None.
Definition emptyEntry : Entry := mkEntry None None None.

(** [group[ext] = file]. *)
Definition setExt (ext : Ext) (file : string) (g : Group) : Group :=
  match ext with
  | ExtJs => mkGroup (Some file) (g_dts g)
  | ExtDts => mkGroup (g_js g) (Some file)
  end.

Definition getExt (ext : Ext) (g : Group) : option string :=
  match ext with ExtJs => g_js g | ExtDts => g_dts g end.

(** The name of the property that holds the artifact of a kind. *)
Definition extName (ext : Ext) : string :=
  match ext with ExtJs => "js" | ExtDts => "dts" end.

(** What [grouped[base]] holds: an object with the properties [js] and
    [dts], or a string that [acc[base] = acc[base] || {}] has read from
    [Object.prototype]. *)
Inductive Slot : Type :=
| SObj (g : Group)
| SStr (s : string).

(** [grouped]: its own properties, and the enumerable properties that
    the grouping has created on [Object.prototype], in creation order;
    every object inherits them. *)
Record Grouping : Type := mkGrouping {
  own :> Obj Slot;
  proto : Obj string
}.

Definition emptyGrouping : Grouping := mkGrouping [] [].

(** [value || {}]. *)
Definition orFresh (value : Slot) : Slot :=
  match value with
  | SObj g => SObj g
  | SStr s => if truthy s then SStr s else SObj emptyGroup
  end.

(** [grouped[base] || {}] for a key other than [__proto__]: the own
    property, else the one inherited from [Object.prototype], else a
    fresh object. *)
Definition valueOf (grouped : Grouping) (base : string) : Slot :=
  match get base (own grouped) with
  | Some value => orFresh value
  | None =>
      match get base (proto grouped) with
      | Some s => orFresh (SStr s)
      | None => SObj emptyGroup
      end
  end.

(** [value[ext] = file]: an object gets or replaces its own property,
    and the assignment to a string is dropped. *)
Definition assignExt (ext : Ext) (file : string) (value : Slot) : Slot :=
  match value with
  | SObj g => SObj (setExt ext file g)
  | SStr s => SStr s
  end.

(** [value[ext]]: the own property of an object, else the property of
    [Object.prototype]; a string has no own property of that name. *)
Definition readExt (grouped : Grouping) (ext : Ext) (value : Slot)
  : option string :=
  match value with
  | SObj g =>
      match getExt ext g with
      | Some file => Some file
      | None => get (extName ext) (proto grouped)
      end
  | SStr _ => get (extName ext) (proto grouped)
  end.

(** [excludeNames.includes(name)]. *)
Definition includesName (names : list string) (name : string) : bool :=
  existsb (String.eqb name) names.

(** [v.split(',').map(s => s.trim()).filter(Boolean)]. *)
Definition parseExcludeNames (v : string) : list string :=
  filter truthy (map trim (split "," v)).

(** The extension test of the grouping: the module path and the kind
    of artifact, or nothing for a file that is neither. *)
Definition classify (file : string) : option (string * Ext) :=
  if endsWith file ".js" then Some (sliceEnd file 3, ExtJs)
  else if endsWith file ".d.ts" then Some (sliceEnd file 5, ExtDts)
  else None.

(** The body of the [reduce] that groups the files. *)
Definition groupStep (acc : Grouping) (file : string) : Grouping :=
  match classify file with
  | None => acc
  | Some (base, ext) =>
      if base =? "__proto__" then
        (* acc.__proto__ is Object.prototype, and assigning it to
           itself changes nothing; acc[base][ext] = file then creates
           or replaces Object.prototype[ext] *)
        mkGrouping (own acc) (set (extName ext) file (proto acc))
      else
        (* acc[base] = acc[base] || {} *)
        let value := valueOf acc base in
        (* acc[base][ext] = file *)
        mkGrouping (set base (assignExt ext file value) (own acc)) (proto acc)
  end.

Definition groupFiles (files : list string) : Grouping :=
  fold_left groupStep files emptyGrouping.

(** The keys that [for (const base in grouped)] visits: the own keys,
    then the enumerable keys of [Object.prototype] that no own key
    hides. *)
Definition forIn (grouped : Grouping) : list string :=
  (ownKeys (own grouped)
   ++ filter (fun k => negb (includesName (keys (own grouped)) k))
        (ownKeys (proto grouped)))%list.

(** A loop over a list that threads an accumulator through [M]. *)
Fixpoint forEachM {S A} (body : S -> A -> M S) (l : list A) (s : S) : M S :=
  match l with
  | [] => ret s
  | x :: l' => s' <- body s x ;; forEachM body l' s'
  end.

(** An entry as the JSON object [JSON.stringify] sees: the properties
    that were assigned, in the order of assignment. *)
Definition optProp (k : string) (v : option string) : Obj Json :=
  match v with Some s => [(k, JStr s)] | None => [] end.

Definition entryJson (e : Entry) : Json :=
  JObj (optProp "import" (e_import e) ++ optProp "require" (e_require e)
        ++ optProp "types" (e_types e))%list.

Definition exportsJson (m : Obj Entry) : Json :=
  JObj (map (fun kv => (fst kv, entryJson (snd kv))) m).

(** The text of the warning of [checkReserved]. *)
Definition skipping (fileToCheck placeholder : string) : string :=
  "⚠️  Skipping " ++ fileToCheck ++ " (found placeholder "
  ++ dquote ++ placeholder ++ dquote ++ ")".

Section Script.
Variable R : Runtime.

Definition usage : string :=
  "Usage: gen-exports.js <buildDir> [-i e1,name2,...] [-p path/to/package.json] [-e placeholder]".

Definition printUsage {A} : M A :=
  console_error usage ;; process_exit 1.

Definition unknownArgument {A} (arg : string) : M A :=
  console_error ("Unknown argument: " ++ arg) ;; printUsage.

(** The loop of [parseCliArgs] over [argv[1..]]: [arg] is [argv[i]] and
    the head of [rest], when there is one, is [argv[i + 1]]. *)
Fixpoint parseFlags (args : list string) (st : CliArgs) : M CliArgs :=
  match args with
  | [] => ret st
  | arg :: rest =>
      match rest with
      | next :: rest' =>
          if ((arg =? "-i") || (arg =? "--exclude")) && truthy next then
            parseFlags rest'
              (mkCliArgs (buildDirArg st) (parseExcludeNames next)
                         (pkgPathArg st) (placeholder st))
          else if ((arg =? "-p") || (arg =? "--pkg")) && truthy next then
            parseFlags rest'
              (mkCliArgs (buildDirArg st) (excludeNames st)
                         (Some next) (placeholder st))
          else if ((arg =? "-e") || (arg =? "--exclude-placeholder"))
                  && truthy next then
            parseFlags rest'
              (mkCliArgs (buildDirArg st) (excludeNames st)
                         (pkgPathArg st) next)
          else unknownArgument arg
      | [] => unknownArgument arg
      end
  end.

Definition parseCliArgs (argv : list string) : M CliArgs :=
  match argv with
  | [] => printUsage
  | dir :: args => parseFlags args (mkCliArgs dir [] None "$RESERVED$")
  end.

(** The loop of [findNearestPackageJson]; [fuel] bounds the number of
    directories visited. *)
Fixpoint findNearestLoop (fuel : nat) (dir rootDir : string) : M (option string) :=
  match fuel with
  | O => diverge
  | S fuel' =>
      let candidate := join (path R) dir "package.json" in
      found <- fs_existsSync candidate ;;
      if found then ret (Some candidate)
      else if (dir =? rootDir) || (dirname (path R) dir =? dir) then ret None
      else findNearestLoop fuel' (dirname (path R) dir) rootDir
  end.

Definition findNearestPackageJson (startDir rootDir : string) : M (option string) :=
  findNearestLoop (String.length startDir + 2) startDir rootDir.

Definition resolvePaths (buildDirArg : string) (pkgPathArg : option string) : M Paths :=
  let cwd := cwd R in
  let buildPath := resolve (path R) [cwd; buildDirArg] in
  let rootPkgPath := join (path R) cwd "package.json" in
  present <- fs_existsSync buildPath ;;
  isDir <- (if present then fs_statSync_isDirectory buildPath else ret false) ;;
  if negb present || negb isDir then
    console_error
      ("Error: build directory not found or not a directory: " ++ buildPath) ;;
    process_exit 1
  else
    pkgPath <-
      match pkgPathArg with
      | Some (String _ _ as arg) =>
          (* explicit override *)
          let pkgPath := resolve (path R) [cwd; arg] in
          found <- fs_existsSync pkgPath ;;
          if found then ret pkgPath
          else
            console_error
              ("Error: package.json not found at override path: " ++ pkgPath) ;;
            process_exit 1
      | _ =>
          (* auto-detect the nearest package.json above the build folder *)
          nearest <- findNearestPackageJson buildPath cwd ;;
          let pkgPath := match nearest with Some p => p | None => rootPkgPath end in
          found <- fs_existsSync pkgPath ;;
          if found then ret pkgPath
          else
            console_error
              ("Error: could not locate any package.json (tried " ++ buildPath
               ++ " → " ++ cwd ++ ")") ;;
            process_exit 1
      end ;;
    ret (mkPaths pkgPath (dirname (path R) pkgPath) buildPath).

Definition readJson (filePath : string) : M Json :=
  text <- fs_readFileSync filePath ;;
  match JSON_parse R text with
  | Some v => ret v
  | None => throw (SyntaxError text)
  end.

Definition newline : string := String "010"%char EmptyString.

Definition writeJson (filePath : string) (obj : Json) : M unit :=
  fs_writeFileSync filePath (JSON_stringify2 R obj ++ newline).

Definition getDistFiles (distDir : string) : M (list string) :=
  fun w =>
    match fg R (w_fs w) ["**/*.js"; "**/*.d.ts"] distDir with
    | Some files => (Ret files, w)
    | None => (Throw GlobError, w)
    end.

Definition makeRelativePath (pkgDir absolutePath : string) : string :=
  replaceBackslash (relative (path R) pkgDir absolutePath).

Definition checkReserved (fileToCheck distDir placeholder : string) : M bool :=
  let absToCheck := join (path R) distDir fileToCheck in
  content <- fs_readFileSync absToCheck ;;
  if includes content placeholder then
    console_warn (skipping fileToCheck placeholder) ;;
    ret true
  else ret false.

(** [file !== undefined && checkReserved(file, distDir, placeholder)]. *)
Definition checkDefined (file : option string) (distDir placeholder : string)
  : M bool :=
  match file with
  | Some f => checkReserved f distDir placeholder
  | None => ret false
  end.

(** The reference [`./${makeRelativePath(pkgDir, path.join(distDir, file))}`]. *)
Definition reference (opts : Options) (file : string) : string :=
  "./" ++ makeRelativePath (o_pkgDir opts) (join (path R) (o_distDir opts) file).

(** [if (jsFile) { entry.import = ...; entry.require = ... }]. *)
Definition withRuntime (opts : Options) (jsFile : option string) (entry : Entry)
  : Entry :=
  match jsFile with
  | Some f =>
      if truthy f
      then mkEntry (Some (reference opts f)) (Some (reference opts f))
                   (e_types entry)
      else entry
  | None => entry
  end.

(** [if (dtsFile) { entry.types = ... }]. *)
Definition withTypes (opts : Options) (dtsFile : option string) (entry : Entry)
  : Entry :=
  match dtsFile with
  | Some f =>
      if truthy f
      then mkEntry (e_import entry) (e_require entry) (Some (reference opts f))
      else entry
  | None => entry
  end.

(** The body of the loop [for (const base in grouped)]; returning the
    map unchanged is [continue]. *)
Definition exportStep (opts : Options) (grouped : Grouping)
    (exportsMap : Obj Entry) (base : string) : M (Obj Entry) :=
  let name := basename (path R) base in
  if includesName (o_excludeNames opts) name then ret exportsMap
  else
    let value := valueOf grouped base in
    let jsFile := readExt grouped ExtJs value in
    let dtsFile := readExt grouped ExtDts value in
    skipJs <- checkDefined jsFile (o_distDir opts) (o_placeholder opts) ;;
    if skipJs then ret exportsMap
    else
      skipDts <- checkDefined dtsFile (o_distDir opts) (o_placeholder opts) ;;
      if skipDts then ret exportsMap
      else
        let key := "./" ++ base in
        let entry := emptyEntry in
        let entry := withRuntime opts jsFile entry in
        let entry := withTypes opts dtsFile entry in
        ret (set key entry exportsMap).

Definition buildExportsMap (files : list string) (opts : Options) : M (Obj Entry) :=
  let grouped := groupFiles files in
  forEachM (exportStep opts grouped) (forIn grouped) [].

(** [pkg.exports = exportsMap] in sloppy mode: an object gets or
    replaces its own property, an array gets a property that
    [JSON.stringify] does not print, [null] throws, and the assignment
    to a boolean, a number or a string is dropped. *)
Definition assignExports (pkg : Json) (exportsMap : Obj Entry) : M Json :=
  match pkg with
  | JObj props => ret (JObj (set "exports" (exportsJson exportsMap) props))
  | JNull => throw (TypeError "Cannot set properties of null")
  | _ => ret pkg
  end.

(** [Object.keys(pkg.exports)] after the assignment. *)
Definition exportKeys (pkg : Json) (exportsMap : Obj Entry) : M (list string) :=
  match pkg with
  | JObj _ | JArr _ => ret (ownKeys exportsMap)
  | _ => throw (TypeError "Cannot convert undefined or null to object")
  end.

Definition main (argv : list string) : M unit :=
  args <- parseCliArgs argv ;;
  paths <- resolvePaths (buildDirArg args) (pkgPathArg args) ;;
  pkg <- readJson (pkgPath paths) ;;
  files <- getDistFiles (distDir paths) ;;
  exportsMap <- buildExportsMap files
                  (mkOptions (distDir paths) (pkgDir paths)
                             (excludeNames args) (placeholder args)) ;;
  pkg' <- assignExports pkg exportsMap ;;
  writeJson (pkgPath paths) pkg' ;;
  keys <- exportKeys pkg' exportsMap ;;
  console_log ("✅ Updated exports in " ++ pkgPath paths ++ newline
               ++ "Keys: " ++ String.concat ", " keys).

(** [main().catch(err => { console.error(...); process.exit(1) })]:
    the exit code of the process and the world it leaves, or [None]
    when the run does not end. *)
Definition run (argv : list string) (w : World) : option nat * World :=
  match main argv w with
  | (Ret _, w') => (Some 0, w')
  | (Exit c, w') => (Some c, w')
  | (Throw e, w') =>
      (Some 1, addLine w' (Err "Unexpected error:"))
  | (Diverge, w') => (None, w')
  end.

(** What [main] has computed when it comes to write the manifest. *)
Record Plan : Type := mkPlan {
  p_paths : Paths;
  p_pkg : Json;              (* the manifest that was read *)
  p_files : list string;     (* the artifacts that were found *)
  p_exports : Obj Entry;     (* the export map *)
  p_updated : Json           (* the manifest to write *)
}.

(** [main] up to the call of [writeJson]. *)
Definition plan (argv : list string) : M Plan :=
  args <- parseCliArgs argv ;;
  paths <- resolvePaths (buildDirArg args) (pkgPathArg args) ;;
  pkg <- readJson (pkgPath paths) ;;
  files <- getDistFiles (distDir paths) ;;
  exportsMap <- buildExportsMap files
                  (mkOptions (distDir paths) (pkgDir paths)
                             (excludeNames args) (placeholder args)) ;;
  pkg' <- assignExports pkg exportsMap ;;
  ret (mkPlan paths pkg files exportsMap pkg').

(** [main] from the call of [writeJson] on. *)
Definition commit (pl : Plan) : M unit :=
  writeJson (pkgPath (p_paths pl)) (p_updated pl) ;;
  keys <- exportKeys (p_updated pl) (p_exports pl) ;;
  console_log ("✅ Updated exports in " ++ pkgPath (p_paths pl) ++ newline
               ++ "Keys: " ++ String.concat ", " keys).


End Script.

(** ** Notions used to state the properties *)

(** The entries of an object other than [k], in order. *)
Definition others {A} (k : string) (o : Obj A) : Obj A :=
  filter (fun kv => negb (fst kv =? k)) o.

(** A manifest that [Object.keys(pkg.exports)] accepts after the
    assignment: an object or an array. *)
Definition holdsExports (j : Json) : Prop :=
  match j with JObj _ | JArr _ => True | _ => False end.

Definition extSuffix (e : Ext) : string :=
  match e with ExtJs => ".js" | ExtDts => ".d.ts" end.

(** The artifact of kind [e] of the module path [base]. *)
Definition artifact (base : string) (e : Ext) : string := base ++ extSuffix e.

(** No artifact of the module path [__proto__] is among the files:
    neither [__proto__.js] nor [__proto__.d.ts], directly in the build
    directory. *)
Definition ordinary (files : list string) : Prop :=
  ~ In "__proto__.js" files /\ ~ In "__proto__.d.ts" files.

(** What the check of one file of a group finds. *)
Inductive Probe : Type :=
| Clean                      (* no such file in the group, or no marker in it *)
| Marked (file : string)     (* the file contains the marker *)
| Unreadable (e : Exn).      (* reading the file throws *)

(** What one turn of the loop over the groups does. *)
Inductive StepResult : Type :=
| ExcludedByName
| SkippedFor (file : string)
| Failed (e : Exn)
| Kept (entry : Entry).

Section Steps.
Variable R : Runtime.

Definition probe (fs : FS) (opts : Options) (file : option string) : Probe :=
  match file with
  | None => Clean
  | Some f =>
      let p := join (path R) (o_distDir opts) f in
      match lookup fs p with
      | Some (File content) =>
          if includes content (o_placeholder opts) then Marked f else Clean
      | Some Dir => Unreadable (EISDIR p)
      | None => Unreadable (ENOENT p)
      end
  end.

(** The check of the artifact [file] finds the marker in it. *)
Definition marked (opts : Options) (fs : FS) (file : string) : Prop :=
  exists content,
    readFile fs (join (path R) (o_distDir opts) file) = Some content /\
    includes content (o_placeholder opts) = true.

(** The descriptor of a group. *)
Definition entryOf (opts : Options) (g : Group) : Entry :=
  withTypes R opts (g_dts g) (withRuntime R opts (g_js g) emptyEntry).

(** The two files that the loop finds for a key: [jsFile] and
    [dtsFile]. *)
Definition fieldsOf (grouped : Grouping) (base : string) : Group :=
  let value := valueOf grouped base in
  mkGroup (readExt grouped ExtJs value) (readExt grouped ExtDts value).

Definition stepResult (fs : FS) (opts : Options) (grouped : Grouping)
    (base : string) : StepResult :=
  if includesName (o_excludeNames opts) (basename (path R) base)
  then ExcludedByName
  else
    let g := fieldsOf grouped base in
    match probe fs opts (g_js g) with
    | Marked f => SkippedFor f
    | Unreadable e => Failed e
    | Clean =>
        match probe fs opts (g_dts g) with
        | Marked f => SkippedFor f
        | Unreadable e => Failed e
        | Clean => Kept (entryOf opts g)
        end
    end.

End Steps.

End GenExports.

(* ================================================================== *)
(** * A package to run the generator on *)

Module Demo.
Import JsObject Node GenExports.

(** The manifest [/w/package.json] before the run. *)
Definition manifest0 : Json :=
  JObj [("name", JStr "demo");
        ("exports", JObj [("./old", JObj [("import", JStr "./dist/old.js")])]);
        ("version", JStr "1.0.0")].

Definition manifestText (j : Json) : string :=
  JsonText.stringify2 j ++ JsonText.nl.

(** The build directory [/w/dist] holds a module with both artifacts, a
    module with a declaration only and a module flagged by the default
    marker. *)
Definition fs0 : FS :=
  [("/w", Dir);
   ("/w/package.json", File (manifestText manifest0));
   ("/w/dist", Dir);
   ("/w/dist/index.js", File "exports.answer = 42;");
   ("/w/dist/index.d.ts", File "export declare const answer: number;");
   ("/w/dist/lib", Dir);
   ("/w/dist/lib/types.d.ts", File "export type Id = string;");
   ("/w/dist/internal", Dir);
   ("/w/dist/internal/helper.js", File "// $RESERVED$ not part of the API");
   ("/w/dist/internal/helper.d.ts", File "export declare function help(): void;")].

Definition world0 : World := mkWorld fs0 [] 0.

Definition node : Runtime := nodePosix "/w".

Definition files0 : list string :=
  ["index.js"; "index.d.ts"; "lib/types.d.ts"; "internal/helper.js";
   "internal/helper.d.ts"].

Definition opts0 : Options := mkOptions "/w/dist" "/w" [] "$RESERVED$".




(** A build directory with artifacts of the module path [__proto__]
    and of the module path [js]; [js.d.ts] contains the default
    marker. *)
Definition fsProto : FS :=
  [("/w", Dir);
   ("/w/package.json", File (manifestText (JObj [("name", JStr "demo")])));
   ("/w/dist", Dir);
   ("/w/dist/__proto__.js", File "exports.answer = 42;");
   ("/w/dist/b.d.ts", File "export declare const b: number;");
   ("/w/dist/js.js", File "exports.js = true;");
   ("/w/dist/js.d.ts", File "// $RESERVED$ not part of the API")].

Definition worldProto : World := mkWorld fsProto [] 0.

Definition filesProto : list string :=
  ["__proto__.js"; "b.d.ts"; "js.js"; "js.d.ts"].

(** The export map that the generator builds from them. *)
Definition mapProto : Obj Entry :=
  [("./b",
    mkEntry (Some "./dist/__proto__.js") (Some "./dist/__proto__.js")
            (Some "./dist/b.d.ts"));
   ("./js",
    mkEntry (Some "./dist/__proto__.js") (Some "./dist/__proto__.js") None)].


(** A manifest with a number beyond the range of the doubles:
    [{ name: demo, limit: 1e400 }], on one line. *)
Definition manifestLimitText : string :=
  "{" ++ JsonText.quote "name" ++ ":" ++ JsonText.quote "demo" ++ ","
  ++ JsonText.quote "limit" ++ ":1e400}".

Definition fsLimit : FS :=
  [("/w", Dir);
   ("/w/package.json", File manifestLimitText);
   ("/w/dist", Dir);
   ("/w/dist/index.js", File "exports.answer = 42;")].

Definition worldLimit : World := mkWorld fsLimit [] 0.


End Demo.
(* ================================================================== *)
(** * Notions for the behaviour of the helpers *)

Module Notions.
Import JsString JsObject Node GenExports.

(** One of the six option names that [parseCliArgs] knows. *)
Definition isFlag (arg : string) : bool :=
  (arg =? "-i") || (arg =? "--exclude") || (arg =? "-p") || (arg =? "--pkg")
  || (arg =? "-e") || (arg =? "--exclude-placeholder").

(** The words after the build directory are options, each one followed
    by a non-empty value. *)
Fixpoint accepted (args : list string) : bool :=
  match args with
  | [] => true
  | arg :: rest =>
      match rest with
      | next :: rest' => isFlag arg && truthy next && accepted rest'
      | [] => false
      end
  end.

(** What an accepted option stores. *)
Definition store (arg next : string) (st : CliArgs) : CliArgs :=
  if (arg =? "-i") || (arg =? "--exclude") then
    mkCliArgs (buildDirArg st) (parseExcludeNames next) (pkgPathArg st)
              (placeholder st)
  else if (arg =? "-p") || (arg =? "--pkg") then
    mkCliArgs (buildDirArg st) (excludeNames st) (Some next) (placeholder st)
  else
    mkCliArgs (buildDirArg st) (excludeNames st) (pkgPathArg st) next.

(** The state after the accepted options [args]. *)
Fixpoint stored (args : list string) (st : CliArgs) : CliArgs :=
  match args with
  | arg :: next :: rest => stored rest (store arg next st)
  | _ => st
  end.

(** The [n]-th directory above [dir]: [path.dirname] applied [n]
    times. *)
Fixpoint above (P : PathModule) (n : nat) (dir : string) : string :=
  match n with
  | O => dir
  | S n' => above P n' (dirname P dir)
  end.

(** The place where the upward search looks in its [n]-th turn. *)
Definition candidate (P : PathModule) (n : nat) (startDir : string) : string :=
  join P (above P n startDir) "package.json".

(** The module paths of the files that the grouping recognises, one
    for each such file, in the order of the files. *)
Definition bases (files : list string) : list string :=
  flat_map (fun f => match classify f with
                     | Some (b, _) => [b]
                     | None => []
                     end) files.

(** The module paths that get a group: all but [__proto__]. *)
Definition ownBases (files : list string) : list string :=
  filter (fun b => negb (b =? "__proto__")) (bases files).

(** The members of a list in the order of their first occurrence. *)
Fixpoint distinct (l : list string) : list string :=
  match l with
  | [] => []
  | x :: l' => x :: filter (fun y => negb (y =? x)) (distinct l')
  end.

(** The keys of the groups after one more module path. *)
Definition seen (ks : list string) (b : string) : list string :=
  if includesName ks b then ks else (ks ++ [b])%list.

(** The artifact can be read. *)
Definition readable (R : Runtime) (opts : Options) (fs : FS) (file : string)
  : Prop :=
  exists content,
    readFile fs (join (path R) (o_distDir opts) file) = Some content.

(** The turn of the loop over the groups keeps the module. *)
Definition isKept (r : StepResult) : bool :=
  match r with Kept _ => true | _ => false end.

(** The turn of the loop drops the module for the marker. *)
Definition isSkipped (r : StepResult) : bool :=
  match r with SkippedFor _ => true | _ => false end.

(** The warning that the turn of the loop prints, if any. *)
Definition warningOf (placeholder : string) (r : StepResult) : list Line :=
  match r with
  | SkippedFor f => [Warn (skipping f placeholder)]
  | _ => []
  end.

(** The text of the confirmation that [main] prints last. *)
Definition confirmation (pkgPath : string) (keys : list string) : string :=
  "✅ Updated exports in " ++ pkgPath ++ newline
  ++ "Keys: " ++ String.concat ", " keys.

End Notions.
(* ================================================================== *)
(** * The versions of the generator that list the [.js] files only

    [buildExportsMap] as it is in the version without marker (a
    [reduce] over the [.js] files that looks for the declaration next
    to each of them with [fs.existsSync]) and in the version that added
    the marker (the same, with the test of the content of the [.js]
    file). *)

Module JsOnly.
Import JsString JsObject Node GenExports.

(** [s.replace(/\.js$/, repl)]: the pattern matches at the end of the
    string only. *)
Definition replaceJsSuffix (s repl : string) : string :=
  if endsWith s ".js" then sliceEnd s 3 ++ repl else s.

Section Versions.
Variable R : Runtime.

(** The object that is spread into the entry: [{ types: ... }] when
    the declaration exists, [{}] otherwise. *)
Definition typesOf (distDir pkgDir jsFile : string) : M (option string) :=
  let dtsFile := replaceJsSuffix jsFile ".d.ts" in
  let absDts := join (path R) distDir dtsFile in
  found <- fs_existsSync absDts ;;
  ret (if found then Some ("./" ++ makeRelativePath R pkgDir absDts) else None).

(** The body of the [reduce] in the version without marker. *)
Definition exportStepPlain (distDir pkgDir : string) (excludeNames : list string)
    (out : Obj Entry) (jsFile : string) : M (Obj Entry) :=
  let subpath := replaceJsSuffix jsFile "" in
  let name := basename (path R) subpath in
  if includesName excludeNames name then ret out
  else
    let key := "./" ++ subpath in
    let absJs := join (path R) distDir jsFile in
    let relJs := makeRelativePath R pkgDir absJs in
    let jsPath := "./" ++ relJs in
    types <- typesOf distDir pkgDir jsFile ;;
    ret (set key (mkEntry (Some jsPath) (Some jsPath) types) out).

(** [buildExportsMap(jsFiles, { distDir, pkgDir, excludeNames })]. *)
Definition buildExportsMapPlain (jsFiles : list string)
    (distDir pkgDir : string) (excludeNames : list string) : M (Obj Entry) :=
  forEachM (exportStepPlain distDir pkgDir excludeNames) jsFiles [].

(** The body of the [reduce] in the version with the marker. *)
Definition exportStepMarker (opts : Options) (out : Obj Entry) (jsFile : string)
  : M (Obj Entry) :=
  let subpath := replaceJsSuffix jsFile "" in
  let name := basename (path R) subpath in
  if includesName (o_excludeNames opts) name then ret out
  else
    let absJs := join (path R) (o_distDir opts) jsFile in
    content <- fs_readFileSync absJs ;;
    if includes content (o_placeholder opts) then
      console_warn (skipping jsFile (o_placeholder opts)) ;;
      ret out
    else
      let key := "./" ++ subpath in
      let relJs := makeRelativePath R (o_pkgDir opts) absJs in
      let jsPath := "./" ++ relJs in
      types <- typesOf (o_distDir opts) (o_pkgDir opts) jsFile ;;
      ret (set key (mkEntry (Some jsPath) (Some jsPath) types) out).

(** [buildExportsMap(jsFiles, { distDir, pkgDir, excludeNames,
    placeholder })]. *)
Definition buildExportsMapMarker (jsFiles : list string) (opts : Options)
  : M (Obj Entry) :=
  forEachM (exportStepMarker opts) jsFiles [].

(** The entry that both versions give to a [.js] file they keep. *)
Definition entryFor (fs : FS) (distDir pkgDir jsFile : string) : Entry :=
  let jsPath :=
    "./" ++ makeRelativePath R pkgDir (join (path R) distDir jsFile) in
  let absDts := join (path R) distDir (replaceJsSuffix jsFile ".d.ts") in
  mkEntry (Some jsPath) (Some jsPath)
          (if existsSync fs absDts
           then Some ("./" ++ makeRelativePath R pkgDir absDts)
           else None).

End Versions.

End JsOnly.
(* ================================================================== *)
(** * More packages to run the generator on *)

Module Samples.
Import JsObject Node GenExports.

(** A build directory with module paths that are array indices. *)
Definition fsOrder : FS :=
  [("/w", Dir);
   ("/w/dist", Dir);
   ("/w/dist/b.js", File "exports.b = 1;");
   ("/w/dist/10.d.ts", File "export {};");
   ("/w/dist/a.js", File "exports.a = 1;");
   ("/w/dist/b.d.ts", File "export declare const b: number;");
   ("/w/dist/2.js", File "exports.two = 2;")].

Definition worldOrder : World := mkWorld fsOrder [] 0.

Definition filesOrder : list string :=
  ["b.js"; "10.d.ts"; "a.js"; "b.d.ts"; "2.js"].

Definition mapOrder : Obj Entry :=
  Eval vm_compute in
    match fst (buildExportsMap Demo.node filesOrder Demo.opts0 worldOrder) with
    | Ret m => m
    | _ => []
    end.

(** The files of [/w/dist] in another order, one of them twice. *)
Definition files0' : list string :=
  ["lib/types.d.ts"; "index.d.ts"; "internal/helper.d.ts"; "index.js";
   "internal/helper.js"; "index.d.ts"].

Definition map0 : Obj Entry :=
  [("./index",
    mkEntry (Some "./dist/index.js") (Some "./dist/index.js")
            (Some "./dist/index.d.ts"));
   ("./lib/types", mkEntry None None (Some "./dist/lib/types.d.ts"))].

(** The run of [buildExportsMap] on [/w/dist] with the empty marker. *)
Definition optsEmptyMarker : Options := mkOptions "/w/dist" "/w" [] "".

Definition mapEmptyMarker : Obj Entry :=
  Eval vm_compute in
    match fst (buildExportsMap Demo.node Demo.files0 optsEmptyMarker
                 Demo.world0) with
    | Ret m => m
    | _ => [("?", emptyEntry)]
    end.

Definition worldEmptyMarker : World :=
  Eval vm_compute in
    snd (buildExportsMap Demo.node Demo.files0 optsEmptyMarker Demo.world0).




(** The [.js] files of [/w/dist] and the map that the version with the
    marker builds from them. *)
Definition jsFiles0 : list string := ["index.js"; "internal/helper.js"].

Definition mapMarker0 : Obj Entry :=
  [("./index",
    mkEntry (Some "./dist/index.js") (Some "./dist/index.js")
            (Some "./dist/index.d.ts"))].

Definition worldWarned0 : World :=
  Eval vm_compute in
    snd (buildExportsMap Demo.node Demo.files0 Demo.opts0 Demo.world0).

End Samples.
(* ================================================================== *)
(** * Facts about strings *)

Module JsStringFacts.
Import JsString.

Lemma append_nil_r (s : string) : s ++ "" = s.
Proof. induction s as [|c s IH]; simpl; [reflexivity | now rewrite IH]. Qed.

Lemma append_assoc (a b c : string) : (a ++ b) ++ c = a ++ (b ++ c).
Proof. induction a as [|x a IH]; simpl; [reflexivity | now rewrite IH]. Qed.

Lemma length_append (a b : string) :
  String.length (a ++ b) = String.length a + String.length b.
Proof. induction a as [|x a IH]; simpl; [reflexivity | now rewrite IH]. Qed.

Lemma append_inv_head (a b c : string) : a ++ b = a ++ c -> b = c.
Proof. induction a as [|x a IH]; simpl; intros H; [exact H | injection H; auto]. Qed.

Lemma append_inv_tail (a b c : string) : a ++ c = b ++ c -> a = b.
Proof.
  revert b; induction a as [|x a IH]; intros [|y b] H; simpl in H.
  - reflexivity.
  - exfalso. apply (f_equal String.length) in H. simpl in H.
    rewrite length_append in H. lia.
  - exfalso. apply (f_equal String.length) in H. simpl in H.
    rewrite length_append in H. lia.
  - injection H as -> H. f_equal. now apply IH.
Qed.

Lemma occurs_append c a b : occurs c (a ++ b) <-> occurs c a \/ occurs c b.
Proof. induction a as [|x a IH]; simpl; [tauto | rewrite IH; tauto]. Qed.

Lemma endsWith_spec s suf :
  endsWith s suf = true <-> exists pre, s = pre ++ suf.
Proof.
  induction s as [|c s IH].
  - cbn [endsWith]. rewrite orb_false_r. split.
    + intros H%String.eqb_eq. subst suf. now exists "".
    + intros [[|x pre] H]; simpl in H; [|discriminate].
      subst suf. reflexivity.
  - cbn [endsWith]. rewrite orb_true_iff, IH. split.
    + intros [H%String.eqb_eq | [pre ->]];
        [subst suf; now exists "" | now exists (String c pre)].
    + intros [[|x pre] H]; simpl in H.
      * left. subst suf. apply String.eqb_refl.
      * injection H as <- ->. right. now exists pre.
Qed.

Lemma endsWith_append pre suf : endsWith (pre ++ suf) suf = true.
Proof. apply endsWith_spec. now exists pre. Qed.

Lemma take_append (a b : string) : take (String.length a) (a ++ b) = a.
Proof. induction a as [|x a IH]; simpl; [now destruct b | now rewrite IH]. Qed.

Lemma sliceEnd_append pre suf :
  sliceEnd (pre ++ suf) (String.length suf) = pre.
Proof.
  unfold sliceEnd. rewrite length_append.
  replace (String.length pre + String.length suf - String.length suf)
    with (String.length pre) by lia.
  apply take_append.
Qed.

Lemma endsWith_sliceEnd s suf :
  endsWith s suf = true -> s = sliceEnd s (String.length suf) ++ suf.
Proof.
  intros [pre ->]%endsWith_spec. now rewrite sliceEnd_append.
Qed.

Lemma prefix_spec p s : String.prefix p s = true <-> exists r, s = p ++ r.
Proof.
  revert s; induction p as [|c p IH]; intros s; simpl.
  - destruct s; simpl; split; eauto.
  - destruct s as [|d s]; simpl.
    + split; [discriminate | intros [r H]; discriminate].
    + destruct (Ascii.ascii_dec c d) as [->|Hne].
      * rewrite IH. split; intros [r H]; exists r; [now subst | now injection H].
      * split; [discriminate | intros [r H]; injection H; intros; congruence].
Qed.

Lemma includes_spec s sub :
  includes s sub = true <-> exists a b, s = a ++ sub ++ b.
Proof.
  induction s as [|c s IH]; cbn [includes].
  - rewrite orb_false_r, prefix_spec. split.
    + intros [r H]. now exists "", r.
    + intros [[|x a] [b H]]; simpl in H; [now exists b | discriminate].
  - rewrite orb_true_iff, IH, prefix_spec. split.
    + intros [[r H] | [a [b ->]]]; [exists "", r; exact H | now exists (String c a), b].
    + intros [[|x a] [b H]]; simpl in H.
      * left. now exists b.
      * injection H as <- ->. right. now exists a, b.
Qed.

(** ** [split] *)

Lemma split_nonempty c s : split c s <> [].
Proof.
  induction s as [|a s IH]; simpl; [discriminate|].
  destruct (Ascii.eqb a c); [discriminate|].
  destruct (split c s); [contradiction | discriminate].
Qed.


(** No piece contains the separator. *)
Lemma split_no_sep c s piece : In piece (split c s) -> ~ occurs c piece.
Proof.
  revert piece; induction s as [|a s IH]; intros piece; cbn [split].
  - intros [<-|[]]. simpl. tauto.
  - destruct (Ascii.eqb_spec a c) as [->|Hne].
    + intros [<-|H]; [simpl; tauto | now apply IH].
    + pose proof (split_nonempty c s) as Hn.
      destruct (split c s) as [|h t] eqn:E; [contradiction|].
      intros [<-|H].
      * simpl. intros [Heq|Hocc]; [contradiction|].
        apply (IH h); [now left | exact Hocc].
      * apply IH. now right.
Qed.

(** ** [trim] *)

Lemma trimStart_spec s :
  exists l, s = l ++ trimStart s /\ all isWhiteSpace l = true /\
            (forall a, firstChar (trimStart s) = Some a -> isWhiteSpace a = false).
Proof.
  induction s as [|a s (l & Hs & Hl & Hf)]; simpl.
  - exists "". repeat split; [discriminate].
  - destruct (isWhiteSpace a) eqn:Ea.
    + exists (String a l). simpl. rewrite Ea, Hl. repeat split; [congruence | exact Hf].
    + exists "". repeat split. simpl. now intros b [= <-].
Qed.

Lemma trimEnd_spec s :
  exists r, s = trimEnd s ++ r /\ all isWhiteSpace r = true /\
            (forall a, lastChar (trimEnd s) = Some a -> isWhiteSpace a = false).
Proof.
  induction s as [|a s (r & Hs & Hr & Hl)]; cbn [trimEnd].
  - exists "". repeat split; [discriminate].
  - destruct (trimEnd s) as [|b t] eqn:Et.
    + destruct (isWhiteSpace a) eqn:Ea.
      * exists (String a r). simpl in Hs. subst s. simpl. rewrite Ea, Hr.
        repeat split; [discriminate].
      * exists r. simpl in *. subst s. repeat split; [exact Hr|].
        now intros c [= <-].
    + exists r. rewrite Hs at 1. repeat split; [exact Hr|].
      intros c Hc. apply Hl. exact Hc.
Qed.

Lemma trimEnd_firstChar s a :
  firstChar s = Some a -> isWhiteSpace a = false -> firstChar (trimEnd s) = Some a.
Proof.
  destruct s as [|b s]; simpl; [discriminate|]. intros [= ->] Ha.
  destruct (trimEnd s); [now rewrite Ha | reflexivity].
Qed.

Lemma trimEnd_empty s : trimEnd s = "" <-> all isWhiteSpace s = true.
Proof.
  induction s as [|a s IH]; cbn [trimEnd all]; [tauto|].
  destruct (trimEnd s) as [|b t].
  - destruct (isWhiteSpace a); simpl.
    + split; [intros _; now apply IH | reflexivity].
    + split; discriminate.
  - split; [discriminate|].
    intros [_ H]%andb_true_iff. apply IH in H. discriminate.
Qed.

(** [trim] removes white space at both ends and nothing else. *)
Lemma trim_spec s :
  exists l r, s = l ++ trim s ++ r /\
    all isWhiteSpace l = true /\ all isWhiteSpace r = true /\
    (forall a, firstChar (trim s) = Some a -> isWhiteSpace a = false) /\
    (forall a, lastChar (trim s) = Some a -> isWhiteSpace a = false).
Proof.
  destruct (trimStart_spec s) as (l & Hs & Hl & Hf).
  destruct (trimEnd_spec (trimStart s)) as (r & Hs' & Hr & Hla).
  exists l, r. unfold trim. repeat split; try assumption.
  - now rewrite <- Hs'.
  - intros a Ha. destruct (trimStart s) as [|b t] eqn:Et; [discriminate|].
    specialize (Hf b eq_refl).
    rewrite (trimEnd_firstChar (String b t) b eq_refl Hf) in Ha.
    now injection Ha as <-.
Qed.




(** ** [replaceBackslash] *)



Lemma truthy_true s : truthy s = true <-> s <> "".
Proof. destruct s; simpl; split; congruence. Qed.

End JsStringFacts.
(* ================================================================== *)
(** * Facts about objects *)

Module JsObjectFacts.
Import JsObject.

Section Properties.
Context {A : Type}.
Implicit Types (o : Obj A) (v : A).

Lemma get_set_same k v o : get k (set k v o) = Some v.
Proof.
  induction o as [|[k' v'] o IH]; simpl.
  - now rewrite String.eqb_refl.
  - destruct (String.eqb_spec k' k); simpl.
    + now rewrite String.eqb_refl.
    + destruct (String.eqb_spec k' k); [contradiction | exact IH].
Qed.

Lemma get_set_other k k' v o : k' <> k -> get k' (set k v o) = get k' o.
Proof.
  intros Hne. induction o as [|[k1 v1] o IH]; simpl.
  - destruct (String.eqb_spec k k'); [congruence | reflexivity].
  - destruct (String.eqb_spec k1 k); simpl.
    + subst k1. destruct (String.eqb_spec k k'); [congruence | reflexivity].
    + destruct (String.eqb_spec k1 k'); [reflexivity | exact IH].
Qed.

Lemma get_Some_In k v o : get k o = Some v -> In (k, v) o.
Proof.
  induction o as [|[k' v'] o IH]; simpl; [discriminate|].
  destruct (String.eqb_spec k' k).
  - intros [= ->]. left. now subst.
  - intros H. right. auto.
Qed.

Lemma get_None_notin k o : get k o = None <-> ~ In k (keys o).
Proof.
  induction o as [|[k' v'] o IH]; simpl; [tauto|].
  destruct (String.eqb_spec k' k).
  - split; [discriminate | intros H; exfalso; apply H; now left].
  - rewrite IH. tauto.
Qed.

Lemma get_In_keys k v o : get k o = Some v -> In k (keys o).
Proof. intros H%get_Some_In. now apply (in_map fst) in H. Qed.

Lemma In_keys_get k o : In k (keys o) -> exists v, get k o = Some v.
Proof.
  intros H. destruct (get k o) as [v|] eqn:E; [now exists v|].
  now apply get_None_notin in E.
Qed.

Lemma keys_set k v o :
  keys (set k v o) =
    match get k o with Some _ => keys o | None => (keys o ++ [k])%list end.
Proof.
  induction o as [|[k' v'] o IH]; simpl; [reflexivity|].
  destruct (String.eqb_spec k' k); simpl.
  - now subst.
  - rewrite IH. now destruct (get k o).
Qed.

Lemma In_keys_set k k' v o :
  In k' (keys (set k v o)) <-> k' = k \/ In k' (keys o).
Proof.
  rewrite keys_set. destruct (get k o) as [x|] eqn:E.
  - apply get_In_keys in E. split; [tauto | intros [->|]; auto].
  - rewrite in_app_iff. simpl. intuition.
Qed.

Lemma NoDup_keys_set k v o : NoDup (keys o) -> NoDup (keys (set k v o)).
Proof.
  intros Hnd. rewrite keys_set. destruct (get k o) eqn:E; [exact Hnd|].
  apply get_None_notin in E.
  apply NoDup_rev in Hnd. rewrite <- (rev_involutive (keys o ++ [k])%list).
  apply NoDup_rev. rewrite rev_app_distr. simpl. constructor; [|exact Hnd].
  now rewrite <- in_rev.
Qed.

End Properties.

End JsObjectFacts.

(* ================================================================== *)
(** * Facts about the generator *)

Module GenExportsFacts.
Import JsString JsObject Node GenExports JsStringFacts JsObjectFacts.

(** ** The order of enumeration permutes the keys *)

Lemma In_insertIndex x y l : In x (insertIndex y l) <-> x = y \/ In x l.
Proof.
  induction l as [|z l IH]; simpl; [intuition|].
  destruct (fst y <=? fst z)%N; simpl; [intuition|].
  rewrite IH. intuition.
Qed.

Lemma In_sortIndex x l : In x (sortIndex l) <-> In x l.
Proof.
  induction l as [|y l IH]; simpl; [tauto|].
  rewrite In_insertIndex, IH. intuition.
Qed.

Lemma In_indexKeys n k ks :
  In (n, k) (indexKeys ks) <-> In k ks /\ arrayIndex k = Some n.
Proof.
  induction ks as [|k' ks IH]; simpl; [tauto|].
  destruct (arrayIndex k') as [m|] eqn:E; simpl; rewrite IH.
  - split.
    + intros [[= <- <-]|[H1 H2]]; auto.
    + intros [[<-|H1] H2]; [left; congruence | auto].
  - split; [intros [H1 H2]; auto|].
    intros [[<-|H1] H2]; [congruence | auto].
Qed.

Lemma In_nameKeys k ks :
  In k (nameKeys ks) <-> In k ks /\ arrayIndex k = None.
Proof.
  induction ks as [|k' ks IH]; simpl; [tauto|].
  destruct (arrayIndex k') as [m|] eqn:E; simpl; rewrite IH.
  - split; [intros [H1 H2]; auto|].
    intros [[<-|H1] H2]; [congruence | auto].
  - split.
    + intros [<-|[H1 H2]]; auto.
    + intros [[<-|H1] H2]; auto.
Qed.

(** Enumeration visits exactly the keys of the object. *)
Lemma In_enumOrder k ks : In k (enumOrder ks) <-> In k ks.
Proof.
  unfold enumOrder. rewrite in_app_iff, in_map_iff, In_nameKeys. split.
  - intros [[[n k'] [Hk Hin]]|[H _]]; [|exact H].
    simpl in Hk. subst k'. apply In_sortIndex, In_indexKeys in Hin. tauto.
  - intros H. destruct (arrayIndex k) as [n|] eqn:E; [left | right; auto].
    exists (n, k). split; [reflexivity|].
    apply In_sortIndex, In_indexKeys. auto.
Qed.

Lemma In_ownKeys {A} k (o : Obj A) : In k (ownKeys o) <-> In k (keys o).
Proof. apply In_enumOrder. Qed.

(** Keys that are not array indices are visited in creation order. *)
Lemma enumOrder_names ks :
  (forall k, In k ks -> arrayIndex k = None) -> enumOrder ks = ks.
Proof.
  intros H. unfold enumOrder.
  assert (indexKeys ks = [] /\ nameKeys ks = ks) as [-> ->]; [|reflexivity].
  induction ks as [|k ks IH]; simpl; [auto|].
  rewrite (H k (or_introl eq_refl)).
  destruct IH as [-> ->]; [intros; apply H; now right | auto].
Qed.

(** ** Parsing the command line *)


Lemma parseFlags_placeholder flag v rest st :
  flag = "-e" \/ flag = "--exclude-placeholder" -> v <> "" ->
  parseFlags (flag :: v :: rest) st =
  parseFlags rest
    (mkCliArgs (buildDirArg st) (excludeNames st) (pkgPathArg st) v).
Proof. intros [-> | ->] Hv; (destruct v; [contradiction | reflexivity]). Qed.

Lemma unknownArgument_exit {A} arg w :
  exists w', @unknownArgument A arg w = (Exit 1, w').
Proof. eexists. reflexivity. Qed.

(** Flags other than [-e] leave the marker as it is. *)
Lemma parseFlags_keeps_placeholder args :
  forall st w a w',
    ~ In "-e" args -> ~ In "--exclude-placeholder" args ->
    parseFlags args st w = (Ret a, w') ->
    placeholder a = placeholder st.
Proof.
  remember (List.length args) as n eqn:Hn.
  revert args Hn. induction n as [n IH] using lt_wf_ind.
  intros [|arg [|next rest]] Hn st w a w' He Hl H.
  - injection H as <- _. reflexivity.
  - destruct (@unknownArgument_exit CliArgs arg w) as [w1 E].
    simpl in H. rewrite E in H. discriminate.
  - cbn [parseFlags] in H.
    assert (Hrec : forall st', parseFlags rest st' w = (Ret a, w') ->
                               placeholder a = placeholder st').
    { intros st' H'. apply (IH (List.length rest)) with (args := rest) (w := w) (w' := w');
        [subst n; simpl; lia | reflexivity | | | exact H'];
        intros Hin; [apply He | apply Hl]; right; right; exact Hin. }
    destruct (((arg =? "-i") || (arg =? "--exclude")) && truthy next).
    { apply Hrec in H. exact H. }
    destruct (((arg =? "-p") || (arg =? "--pkg")) && truthy next).
    { apply Hrec in H. exact H. }
    destruct (((arg =? "-e") || (arg =? "--exclude-placeholder")) && truthy next) eqn:E.
    { exfalso. apply andb_true_iff in E as [E _].
      apply orb_true_iff in E as [E|E]; apply String.eqb_eq in E; subst arg;
        [apply He | apply Hl]; now left. }
    destruct (@unknownArgument_exit CliArgs arg w) as [w1 E1].
    rewrite E1 in H. discriminate.
Qed.

(** ** The exclusion list *)


Lemma In_parseExcludeNames v n :
  In n (parseExcludeNames v) <->
  n <> "" /\ exists piece, In piece (split "," v) /\ n = trim piece.
Proof.
  unfold parseExcludeNames. rewrite filter_In, in_map_iff, truthy_true.
  split.
  - intros [[piece [<- Hin]] Hne]. split; [exact Hne | now exists piece].
  - intros [Hne [piece [Hin ->]]]. split; [now exists piece | exact Hne].
Qed.


Lemma includesName_spec names n : includesName names n = true <-> In n names.
Proof.
  unfold includesName. rewrite existsb_exists. split.
  - intros [x [Hin Hx%String.eqb_eq]]. now subst.
  - intros H. exists n. split; [exact H | apply String.eqb_refl].
Qed.

(** ** Grouping the artifacts *)

Lemma append_suffix_inv (a b s t : string) :
  a ++ s = b ++ t -> String.length s = String.length t -> a = b /\ s = t.
Proof.
  revert b; induction a as [|x a IH]; intros [|y b] H Hlen; simpl in H.
  - auto.
  - exfalso. apply (f_equal String.length) in H. simpl in H.
    rewrite length_append in H. lia.
  - exfalso. apply (f_equal String.length) in H. simpl in H.
    rewrite length_append in H. lia.
  - injection H as -> H. destruct (IH b H Hlen) as [-> ->]. auto.
Qed.

Lemma endsWith_dts_not_js b : endsWith (b ++ ".d.ts") ".js" = false.
Proof.
  destruct (endsWith (b ++ ".d.ts") ".js") eqn:E; [|reflexivity].
  apply endsWith_spec in E as [pre E].
  change (b ++ ".d.ts") with (b ++ ".d" ++ ".ts") in E.
  rewrite <- append_assoc in E.
  apply append_suffix_inv in E as [_ E]; [discriminate | reflexivity].
Qed.

Lemma classify_artifact b e : classify (artifact b e) = Some (b, e).
Proof.
  unfold classify, artifact. destruct e; simpl extSuffix.
  - rewrite endsWith_append.
    change 3 with (String.length ".js"). now rewrite sliceEnd_append.
  - rewrite endsWith_dts_not_js, endsWith_append.
    change 5 with (String.length ".d.ts"). now rewrite sliceEnd_append.
Qed.

Lemma classify_inv f b e : classify f = Some (b, e) -> f = artifact b e.
Proof.
  unfold classify, artifact.
  destruct (endsWith f ".js") eqn:Ejs.
  - intros [= <- <-]. now apply endsWith_sliceEnd in Ejs.
  - destruct (endsWith f ".d.ts") eqn:Edts; [|discriminate].
    intros [= <- <-]. now apply endsWith_sliceEnd in Edts.
Qed.

(** The module path and the kind determine the artifact, and back. *)
Lemma artifact_inj b1 e1 b2 e2 :
  artifact b1 e1 = artifact b2 e2 -> b1 = b2 /\ e1 = e2.
Proof.
  intros H. pose proof (classify_artifact b1 e1) as H1.
  rewrite H, classify_artifact in H1. injection H1 as -> ->. auto.
Qed.

Lemma artifact_truthy b e : truthy (artifact b e) = true.
Proof.
  apply truthy_true. intros H. apply (f_equal String.length) in H.
  unfold artifact in H. rewrite length_append in H. destruct e; simpl in H; lia.
Qed.


Lemma getExt_setExt e e0 f g :
  getExt e (setExt e0 f g) =
  match e, e0 with
  | ExtJs, ExtJs | ExtDts, ExtDts => Some f
  | _, _ => getExt e g
  end.
Proof. now destruct e, e0. Qed.

Lemma ordinary_app files file :
  ordinary (files ++ [file])%list <->
  ordinary files /\ (forall e, file <> artifact "__proto__" e).
Proof.
  unfold ordinary. rewrite !in_app_iff. split.
  - intros [H1 H2]. split; [tauto|].
    intros [] E; [apply H1 | apply H2]; right; left; exact E.
  - intros [[H1 H2] H]. split; intros [Hin|[E|[]]]; auto.
    + exact (H ExtJs E).
    + exact (H ExtDts E).
Qed.

Lemma ordinary_artifact files b e :
  ordinary files -> In (artifact b e) files -> b <> "__proto__".
Proof. intros [H1 H2] Hin ->. destruct e; [apply H1 | apply H2]; exact Hin. Qed.

Lemma ordinary_In files :
  ordinary files <-> forall e, ~ In (artifact "__proto__" e) files.
Proof.
  split.
  - intros [H1 H2] []; assumption.
  - intros H. split; [exact (H ExtJs) | exact (H ExtDts)].
Qed.

(** ** The groups when nothing has reached [Object.prototype] *)

(** With nothing inherited, the value of a key is its own object. *)
Lemma valueOf_plain (G : Grouping) b :
  proto G = [] ->
  valueOf G b = match get b G with
                | Some value => orFresh value
                | None => SObj emptyGroup
                end.
Proof. intros HP. unfold valueOf. rewrite HP. now destruct (get b G). Qed.

Lemma readExt_plain (G : Grouping) e g :
  proto G = [] -> readExt G e (SObj g) = getExt e g.
Proof. intros HP. unfold readExt. rewrite HP. now destruct (getExt e g). Qed.

Lemma fieldsOf_plain (G : Grouping) b g :
  proto G = [] -> get b G = Some (SObj g) -> fieldsOf G b = g.
Proof.
  intros HP Hg. unfold fieldsOf. rewrite (valueOf_plain G b HP), Hg.
  cbn [orFresh]. rewrite !(readExt_plain G _ g HP). now destruct g.
Qed.

(** What [groupFiles] builds from files without an artifact of the
    module path [__proto__]: nothing on [Object.prototype], and one
    group for each module path that has an artifact, holding for each
    kind the artifact of that kind when it is among the files. *)
Definition Grouped (files : list string) (G : Grouping) : Prop :=
  proto G = [] /\ NoDup (keys G) /\
  forall b,
    match get b G with
    | Some (SObj g) =>
        (exists e, In (artifact b e) files) /\
        forall e f, getExt e g = Some f <-> f = artifact b e /\ In f files
    | Some (SStr _) => False
    | None => forall e, ~ In (artifact b e) files
    end.

Lemma Grouped_nil : Grouped [] emptyGrouping.
Proof. split; [reflexivity|]. split; [constructor | intros b e []]. Qed.

(** The two statements of the grouping amount to one update. *)
Lemma groupStep_eq files (G : Grouping) file :
  Grouped files G -> (forall e, file <> artifact "__proto__" e) ->
  groupStep G file =
  match classify file with
  | None => G
  | Some (base, ext) =>
      mkGrouping
        (set base
           (SObj (setExt ext file
                    match get base G with
                    | Some (SObj g) => g
                    | _ => emptyGroup
                    end)) G) []
  end.
Proof.
  intros (HP & _ & HG) Hfile. unfold groupStep.
  destruct (classify file) as [[base ext]|] eqn:Ec; [|reflexivity].
  apply classify_inv in Ec. destruct (String.eqb_spec base "__proto__") as [->|_].
  - now destruct (Hfile ext).
  - rewrite (valueOf_plain G base HP), HP. specialize (HG base).
    destruct (get base G) as [[g|s]|]; [reflexivity | destruct HG | reflexivity].
Qed.

Lemma Grouped_step files (G : Grouping) file :
  (forall e, file <> artifact "__proto__" e) ->
  Grouped files G -> Grouped (files ++ [file])%list (groupStep G file).
Proof.
  intros Hfile HGr. rewrite (groupStep_eq files G file HGr Hfile).
  destruct HGr as (HP & Hnd & HG).
  destruct (classify file) as [[b0 e0]|] eqn:Ec.
  - apply classify_inv in Ec as Hf. split; [reflexivity|].
    split; [now apply NoDup_keys_set|].
    intros b. cbn [own]. destruct (String.eqb_spec b0 b) as [<-|Hne].
    + rewrite get_set_same. split.
      * exists e0. rewrite in_app_iff. right. now left.
      * intros e f. rewrite getExt_setExt. specialize (HG b0).
        assert (Hold : forall e f,
                   getExt e match get b0 G with
                            | Some (SObj g) => g
                            | _ => emptyGroup
                            end = Some f <->
                   f = artifact b0 e /\ In f files).
        { destruct (get b0 G) as [[g|s]|]; [exact (proj2 HG) | destruct HG |].
          intros e' f'. simpl. split; [now destruct e'|].
          intros [-> Hin]. now apply HG in Hin. }
        rewrite in_app_iff. simpl.
        destruct e, e0; rewrite ?Hold; subst file.
        -- split; [intros [= <-]; auto | intros [-> _]; reflexivity].
        -- split; [intros [-> H]; auto|].
           intros [-> [H|[H|[]]]]; [auto|]. now apply artifact_inj in H as [_ H].
        -- split; [intros [-> H]; auto|].
           intros [-> [H|[H|[]]]]; [auto|]. now apply artifact_inj in H as [_ H].
        -- split; [intros [= <-]; auto | intros [-> _]; reflexivity].
    + rewrite get_set_other by congruence. specialize (HG b).
      assert (Hin : forall e, In (artifact b e) (files ++ [file])%list <->
                              In (artifact b e) files).
      { intros e. rewrite in_app_iff. simpl. split; [|auto].
        intros [H|[H|[]]]; [exact H|]. subst file.
        apply artifact_inj in H as [H _]. contradiction. }
      destruct (get b G) as [[g|s]|]; [| exact HG |].
      * destruct HG as [[e He] HG]. split; [exists e; now apply Hin|].
        intros e' f. rewrite HG. split; intros [-> H]; split; auto;
          now apply Hin.
      * intros e. rewrite Hin. apply HG.
  - split; [exact HP|]. split; [exact Hnd|]. intros b. specialize (HG b).
    assert (Hin : forall e, In (artifact b e) (files ++ [file])%list <->
                            In (artifact b e) files).
    { intros e. rewrite in_app_iff. simpl. split; [|auto].
      intros [H|[H|[]]]; [exact H|]. subst file.
      rewrite classify_artifact in Ec. discriminate. }
    destruct (get b G) as [[g|s]|]; [| exact HG |].
    + destruct HG as [[e He] HG]. split; [exists e; now apply Hin|].
      intros e' f. rewrite HG. split; intros [-> H]; split; auto; now apply Hin.
    + intros e. rewrite Hin. apply HG.
Qed.

Lemma Grouped_fold files : forall seen G,
  ordinary (seen ++ files)%list ->
  Grouped seen G -> Grouped (seen ++ files)%list (fold_left groupStep files G).
Proof.
  induction files as [|f files IH]; intros seen G Hord H; simpl.
  - now rewrite app_nil_r.
  - replace (seen ++ f :: files)%list with ((seen ++ [f]) ++ files)%list in *
      by (rewrite <- app_assoc; reflexivity).
    apply IH; [exact Hord|]. apply Grouped_step; [|exact H].
    intros e ->. apply (proj1 (ordinary_In _) Hord e).
    rewrite !in_app_iff. left. right. now left.
Qed.

Lemma groupFiles_Grouped files :
  ordinary files -> Grouped files (groupFiles files).
Proof. intros Hord. exact (Grouped_fold files [] _ Hord Grouped_nil). Qed.

Lemma groupFiles_proto files : ordinary files -> proto (groupFiles files) = [].
Proof. intros Hord. exact (proj1 (groupFiles_Grouped files Hord)). Qed.

(** Every key holds an object. *)
Lemma groupFiles_slot files b :
  ordinary files -> In b (keys (groupFiles files)) ->
  exists g, get b (groupFiles files) = Some (SObj g).
Proof.
  intros Hord [v Hv]%In_keys_get.
  pose proof (proj2 (proj2 (groupFiles_Grouped files Hord)) b) as H.
  rewrite Hv in H. destruct v as [g|s]; [now exists g | destruct H].
Qed.

Lemma groupFiles_fieldsOf files b g :
  ordinary files -> get b (groupFiles files) = Some (SObj g) ->
  fieldsOf (groupFiles files) b = g.
Proof. intros Hord. apply fieldsOf_plain. now apply groupFiles_proto. Qed.

(** The keys that the loop visits are the own keys. *)
Lemma forIn_plain (G : Grouping) : proto G = [] -> forIn G = ownKeys G.
Proof. intros HP. unfold forIn. rewrite HP. cbn. apply app_nil_r. Qed.

(** The group of a module path, read off the list of files. *)
Lemma groupFiles_get files b g :
  ordinary files ->
  get b (groupFiles files) = Some (SObj g) ->
  (forall f, g_js g = Some f <-> f = b ++ ".js" /\ In f files) /\
  (forall f, g_dts g = Some f <-> f = b ++ ".d.ts" /\ In f files).
Proof.
  intros Hord Hg.
  pose proof (proj2 (proj2 (groupFiles_Grouped files Hord)) b) as H.
  rewrite Hg in H. destruct H as [_ H].
  split; intros f; [apply (H ExtJs) | apply (H ExtDts)].
Qed.

Lemma groupFiles_In files b e :
  ordinary files ->
  In (artifact b e) files ->
  exists g, get b (groupFiles files) = Some (SObj g) /\
            getExt e g = Some (artifact b e).
Proof.
  intros Hord Hin.
  pose proof (proj2 (proj2 (groupFiles_Grouped files Hord)) b) as H.
  destruct (get b (groupFiles files)) as [[g|s]|].
  - exists g. split; [reflexivity|]. apply H. auto.
  - destruct H.
  - now apply H in Hin.
Qed.

(** ** The groups of any list of files *)

(** What [groupFiles] builds from any files: a group holds artifacts of
    its module path that are among the files, and at least one;
    [Object.prototype] gets the artifacts of the module path
    [__proto__], under [js] and [dts]; a key that holds a string was
    read from [Object.prototype]; and every key is the module path of
    one of the files. *)
Definition Stored (files : list string) (G : Grouping) : Prop :=
  (forall b g e f, get b G = Some (SObj g) -> getExt e g = Some f ->
     f = artifact b e /\ In f files)
  /\ (forall e f, get (extName e) (proto G) = Some f ->
        f = artifact "__proto__" e /\ In f files)
  /\ (forall k, In k (keys (proto G)) -> exists e, k = extName e)
  /\ (forall b g, get b G = Some (SObj g) -> exists e f, getExt e g = Some f)
  /\ (forall b s, get b G = Some (SStr s) -> proto G <> [])
  /\ (forall b, In b (keys G) -> exists e, In (artifact b e) files).

Lemma Stored_nil : Stored [] emptyGrouping.
Proof.
  repeat split; simpl; try discriminate; intros; contradiction.
Qed.

Lemma extName_inj e1 e2 : extName e1 = extName e2 -> e1 = e2.
Proof. now destruct e1, e2. Qed.

Lemma set_not_nil {A} k (v : A) o : set k v o <> [].
Proof. destruct o as [|[k' v'] o]; simpl; [|destruct (k' =? k)]; discriminate. Qed.

Lemma Stored_more files file (G : Grouping) :
  Stored files G -> Stored (files ++ [file])%list G.
Proof.
  intros (Ha & Hb & Hc & Hd & He & Hf).
  split; [|split; [|split; [|split; [|split]]]]; auto.
  - intros b g e f Hg Hx. destruct (Ha b g e f Hg Hx) as [-> Hin].
    split; [reflexivity|]. apply in_or_app. now left.
  - intros e f Hx. destruct (Hb e f Hx) as [-> Hin].
    split; [reflexivity|]. apply in_or_app. now left.
  - intros b Hin. destruct (Hf b Hin) as [e Hx]. exists e.
    apply in_or_app. now left.
Qed.

Lemma Stored_step files (G : Grouping) file :
  Stored files G -> Stored (files ++ [file])%list (groupStep G file).
Proof.
  intros HS. pose proof (Stored_more files file G HS) as HS'.
  unfold groupStep. destruct (classify file) as [[base ext]|] eqn:Ec; [|exact HS'].
  apply classify_inv in Ec.
  assert (Hlast : In file (files ++ [file])%list)
    by (apply in_or_app; right; now left).
  destruct HS' as (Ha & Hb & Hc & Hd & He & Hf).
  destruct (String.eqb_spec base "__proto__") as [->|Hbase].
  - (* the artifact goes to Object.prototype *)
    split; [|split; [|split; [|split; [|split]]]]; cbn [own proto]; auto.
    + intros e f. destruct (String.eqb_spec (extName ext) (extName e)) as [E|E].
      * rewrite <- E, get_set_same. intros [= <-].
        apply extName_inj in E. subst e. auto.
      * rewrite get_set_other by congruence. apply Hb.
    + intros k [->|Hin]%In_keys_set; [now exists ext | now apply Hc].
    + intros b s _. apply set_not_nil.
  - (* the artifact goes to the group of its module path *)
    assert (Hval : (exists g, valueOf G base = SObj g /\
                      forall e f, getExt e g = Some f ->
                                  f = artifact base e /\
                                  In f (files ++ [file])%list)
                   \/ (exists s, valueOf G base = SStr s /\ proto G <> [])).
    { unfold valueOf. destruct (get base G) as [[g|s]|] eqn:Eg.
      - left. exists g. split; [reflexivity|]. intros e f. now apply Ha.
      - cbn [orFresh]. destruct (truthy s).
        + right. exists s. split; [reflexivity|]. now apply (He base s).
        + left. exists emptyGroup. split; [reflexivity|]. now intros [].
      - destruct (get base (proto G)) as [s|] eqn:Ep.
        + cbn [orFresh]. destruct (truthy s).
          * right. exists s. split; [reflexivity|]. intros E.
            rewrite E in Ep. discriminate.
          * left. exists emptyGroup. split; [reflexivity|]. now intros [].
        + left. exists emptyGroup. split; [reflexivity|]. now intros []. }
    split; [|split; [|split; [|split; [|split]]]]; cbn [own proto]; auto.
    + intros b g e f. destruct (String.eqb_spec base b) as [<-|Hne].
      * rewrite get_set_same.
        destruct Hval as [(g0 & -> & Hg0)|(s & -> & _)]; [|discriminate].
        cbn [assignExt]. intros [= <-]. rewrite getExt_setExt.
        destruct e, ext; try apply Hg0; intros [= <-]; subst file; auto.
      * rewrite get_set_other by congruence. apply Ha.
    + intros b g. destruct (String.eqb_spec base b) as [<-|Hne].
      * rewrite get_set_same.
        destruct Hval as [(g0 & -> & _)|(s & -> & _)]; [|discriminate].
        cbn [assignExt]. intros [= <-]. exists ext, file.
        rewrite getExt_setExt. now destruct ext.
      * rewrite get_set_other by congruence. apply Hd.
    + intros b s. destruct (String.eqb_spec base b) as [<-|Hne].
      * rewrite get_set_same.
        destruct Hval as [(g0 & -> & _)|(s0 & -> & Hp)]; [discriminate|].
        intros _. exact Hp.
      * rewrite get_set_other by congruence. apply He.
    + intros b [->|Hin]%In_keys_set; [|now apply Hf].
      exists ext. now subst file.
Qed.

Lemma Stored_fold files : forall seen G,
  Stored seen G -> Stored (seen ++ files)%list (fold_left groupStep files G).
Proof.
  induction files as [|f files IH]; intros seen G H; simpl.
  - now rewrite app_nil_r.
  - replace (seen ++ f :: files)%list with ((seen ++ [f]) ++ files)%list
      by (rewrite <- app_assoc; reflexivity).
    apply IH. now apply Stored_step.
Qed.

Lemma groupFiles_Stored files : Stored files (groupFiles files).
Proof. exact (Stored_fold files [] _ Stored_nil). Qed.

(** A file that the loop finds for a key is among the files. *)
Lemma fieldsOf_In files k e f :
  getExt e (fieldsOf (groupFiles files) k) = Some f -> In f files.
Proof.
  destruct (groupFiles_Stored files) as (Ha & Hb & _).
  set (G := groupFiles files) in *.
  assert (Hread : forall v, readExt G e v = Some f ->
                    (forall g, v = SObj g -> forall f, getExt e g = Some f ->
                               In f files) -> In f files).
  { intros v Hr Hv. unfold readExt in Hr. destruct v as [g|s].
    - destruct (getExt e g) as [f'|] eqn:Eg.
      + injection Hr as <-. exact (Hv g eq_refl f' Eg).
      + now apply Hb in Hr.
    - now apply Hb in Hr. }
  intros Hf.
  assert (Hf' : readExt G e (valueOf G k) = Some f) by (now destruct e).
  apply (Hread _ Hf'). intros g Hv f' Hg. unfold valueOf in Hv.
  destruct (get k G) as [[g0|s]|] eqn:Ek.
  - injection Hv as <-. now apply (Ha k g0 e f').
  - cbn [orFresh] in Hv. destruct (truthy s); [discriminate|].
    injection Hv as <-. now destruct e.
  - destruct (get k (proto G)) as [s|].
    + cbn [orFresh] in Hv. destruct (truthy s); [discriminate|].
      injection Hv as <-. now destruct e.
    + injection Hv as <-. now destruct e.
Qed.

(** The loop finds a file for every key it visits. *)
Lemma forIn_field files k :
  In k (forIn (groupFiles files)) ->
  exists e f, getExt e (fieldsOf (groupFiles files) k) = Some f.
Proof.
  destruct (groupFiles_Stored files) as (_ & _ & Hc & Hd & He & _).
  set (G := groupFiles files) in *.
  assert (Hproto : proto G <> [] ->
            exists e f, get (extName e) (proto G) = Some f).
  { intros Hne. destruct (proto G) as [|[k0 v0] P] eqn:EP; [contradiction|].
    destruct (Hc k0 (or_introl eq_refl)) as [e ->]. exists e, v0.
    simpl. now rewrite String.eqb_refl. }
  assert (Hinh : forall v, (forall g, v <> SObj g) -> proto G <> [] ->
            exists e f, readExt G e v = Some f).
  { intros [g|s] Hv Hne; [now destruct (Hv g)|]. now apply Hproto. }
  assert (Hfields : (exists e f, readExt G e (valueOf G k) = Some f) ->
            exists e f, getExt e (fieldsOf G k) = Some f).
  { intros (e & f & H). exists e, f. now destruct e. }
  assert (Hempty : proto G <> [] ->
            exists e f, readExt G e (SObj emptyGroup) = Some f).
  { intros Hne. destruct (Hproto Hne) as (e & f & H). exists e, f.
    now destruct e. }
  intros Hin. apply Hfields. unfold forIn in Hin.
  apply in_app_or in Hin as [Hin|Hin].
  - apply In_ownKeys, In_keys_get in Hin as [v Hv].
    unfold valueOf. rewrite Hv. destruct v as [g|s]; cbn [orFresh].
    + destruct (Hd k g Hv) as (e & f & Hg). exists e, f.
      unfold readExt. now rewrite Hg.
    + pose proof (He k s Hv) as Hne. destruct (truthy s).
      * now apply Hproto.
      * now apply Hempty.
  - apply filter_In in Hin as [Hin Hown].
    apply In_ownKeys in Hin as Hk. apply In_keys_get in Hk as [s Hs].
    assert (Hne : proto G <> []) by (intros E; rewrite E in Hs; discriminate).
    unfold valueOf.
    destruct (get k G) as [v|] eqn:Ev.
    { apply get_In_keys, includesName_spec in Ev.
      fold (keys (own G)) in Hown. rewrite Ev in Hown. discriminate. }
    rewrite Hs. cbn [orFresh]. destruct (truthy s).
    + now apply Hproto.
    + now apply Hempty.
Qed.

(** ** The loop over the groups *)

Section Loop.
Variable R : Runtime.
Variable opts : Options.
Variable G : Grouping.

Lemma checkDefined_eq file w :
  checkDefined R file (o_distDir opts) (o_placeholder opts) w =
  match probe R (w_fs w) opts file with
  | Clean => (Ret false, w)
  | Marked f => (Ret true, addLine w (Warn (skipping f (o_placeholder opts))))
  | Unreadable e => (Throw e, w)
  end.
Proof.
  destruct file as [f|]; [|reflexivity].
  unfold checkDefined, checkReserved, probe, bind, fs_readFileSync.
  destruct (lookup (w_fs w) _) as [[c|]|]; try reflexivity.
  destruct (includes c (o_placeholder opts)); reflexivity.
Qed.

(** One turn of the loop does what [stepResult] says. *)
Lemma exportStep_eq m base w :
  exportStep R opts G m base w =
  match stepResult R (w_fs w) opts G base with
  | ExcludedByName => (Ret m, w)
  | SkippedFor f => (Ret m, addLine w (Warn (skipping f (o_placeholder opts))))
  | Failed e => (Throw e, w)
  | Kept entry => (Ret (set ("./" ++ base) entry m), w)
  end.
Proof.
  unfold exportStep, stepResult, fieldsOf. cbn [g_js g_dts].
  destruct (includesName _ _); [reflexivity|].
  unfold bind at 1. rewrite checkDefined_eq.
  destruct (probe R (w_fs w) opts (readExt G ExtJs _)); try reflexivity.
  unfold bind at 1. rewrite checkDefined_eq.
  destruct (probe R (w_fs w) opts (readExt G ExtDts _)); reflexivity.
Qed.

Let step (w : World) := stepResult R (w_fs w) opts G.
Let warning (f : string) := Warn (skipping f (o_placeholder opts)).

Lemma loop_ret ks : forall m w m' w',
  forEachM (exportStep R opts G) ks m w = (Ret m', w') ->
  w_fs w' = w_fs w /\ w_writes w' = w_writes w
  /\ (forall l, In l (w_console w') <->
        In l (w_console w) \/
        exists k f, In k ks /\ step w k = SkippedFor f /\ l = warning f)
  /\ (forall k e, In k ks -> step w k <> Failed e)
  /\ (forall key e, get key m' = Some e ->
        get key m = Some e \/
        exists k, In k ks /\ key = "./" ++ k /\ step w k = Kept e)
  /\ (forall key e, get key m = Some e ->
        exists e', get key m' = Some e' /\
          (e' = e \/ exists k, In k ks /\ key = "./" ++ k /\ step w k = Kept e'))
  /\ (forall k e, In k ks -> step w k = Kept e -> get ("./" ++ k) m' = Some e).
Proof.
  induction ks as [|k ks IH]; intros m w m' w' H.
  - injection H as <- <-.
    split; [reflexivity|]. split; [reflexivity|].
    split; [|split; [|split; [|split]]].
    + intros l. split; [auto | intros [H|(k & f & [] & _)]; exact H].
    + intros k e [].
    + auto.
    + intros key e He. exists e. auto.
    + intros k e [].
  - cbn [forEachM] in H. unfold bind in H. rewrite exportStep_eq in H.
    fold (step w k) in H.
    destruct (step w k) as [|f|e0|entry] eqn:Ek; [| | discriminate |].
    + (* excluded by name *)
      apply IH in H as (Hfs & Hwr & Hcon & Hfail & Hfrom & Hkeep & Hkept).
      split; [exact Hfs|]. split; [exact Hwr|].
      split; [|split; [|split; [|split]]].
      * intros l. rewrite Hcon. split; intros [Hl|(k' & f & Hin & Hs & ->)]; auto.
        -- right. exists k', f. simpl. auto.
        -- destruct Hin as [<-|Hin]; [unfold step in *; congruence|].
           right. exists k', f. auto.
      * intros k' e [<-|Hin]; [unfold step in *; congruence | now apply Hfail].
      * intros key e He. apply Hfrom in He as [He|(k' & Hin & -> & Hk)]; auto.
        right. exists k'. simpl. auto.
      * intros key e He. apply Hkeep in He as (e' & He' & [->|(k' & Hin & -> & Hk)]).
        -- exists e. auto.
        -- exists e'. split; [exact He'|]. right. exists k'. simpl. auto.
      * intros k' e [<-|Hin] Hk; [unfold step in *; congruence | now apply Hkept].
    + (* skipped for the marker *)
      apply IH in H as (Hfs & Hwr & Hcon & Hfail & Hfrom & Hkeep & Hkept).
      unfold step, warning in *. simpl w_fs in *. simpl w_writes in *.
      split; [exact Hfs|]. split; [exact Hwr|].
      split; [|split; [|split; [|split]]].
      * intros l. rewrite Hcon. simpl w_console. rewrite in_app_iff. simpl.
        split.
        -- intros [[Hl|[<-|[]]]|(k' & f' & Hin & Hs & ->)]; auto.
           ++ right. exists k, f. auto.
           ++ right. exists k', f'. auto.
        -- intros [Hl|(k' & f' & [<-|Hin] & Hs & ->)]; auto.
           ++ left. right. left. congruence.
           ++ right. exists k', f'. auto.
      * intros k' e [<-|Hin]; [congruence | now apply Hfail].
      * intros key e He. apply Hfrom in He as [He|(k' & Hin & -> & Hk)]; auto.
        right. exists k'. simpl. auto.
      * intros key e He. apply Hkeep in He as (e' & He' & [->|(k' & Hin & -> & Hk)]).
        -- exists e. auto.
        -- exists e'. split; [exact He'|]. right. exists k'. simpl. auto.
      * intros k' e [<-|Hin] Hk; [congruence | now apply Hkept].
    + (* kept *)
      apply IH in H as (Hfs & Hwr & Hcon & Hfail & Hfrom & Hkeep & Hkept).
      split; [exact Hfs|]. split; [exact Hwr|].
      split; [|split; [|split; [|split]]].
      * intros l. rewrite Hcon. split; intros [Hl|(k' & f & Hin & Hs & ->)]; auto.
        -- right. exists k', f. simpl. auto.
        -- destruct Hin as [<-|Hin]; [unfold step in *; congruence|].
           right. exists k', f. auto.
      * intros k' e [<-|Hin]; [unfold step in *; congruence | now apply Hfail].
      * intros key e He. apply Hfrom in He as [He|(k' & Hin & -> & Hk)].
        -- destruct (String.eqb_spec key ("./" ++ k)) as [->|Hne].
           ++ rewrite get_set_same in He. injection He as <-.
              right. exists k. simpl. auto.
           ++ rewrite get_set_other in He by congruence. auto.
        -- right. exists k'. simpl. auto.
      * intros key e He.
        destruct (String.eqb_spec key ("./" ++ k)) as [->|Hne].
        -- destruct (Hkeep ("./" ++ k) entry (get_set_same _ _ _))
             as (e' & He' & [->|(k' & Hin & Hk' & Hk)]).
           ++ exists entry. split; [exact He'|]. right. exists k. simpl. auto.
           ++ exists e'. split; [exact He'|]. right. exists k'. simpl. auto.
        -- destruct (Hkeep key e) as (e' & He' & [->|(k' & Hin & Hk' & Hk)]).
           ++ now rewrite get_set_other by congruence.
           ++ exists e. auto.
           ++ exists e'. split; [exact He'|]. right. exists k'. simpl. auto.
      * intros k' e [<-|Hin] Hk; [|now apply Hkept].
        assert (e = entry) as -> by (unfold step in *; congruence).
        destruct (Hkeep ("./" ++ k) entry (get_set_same _ _ _))
          as (e' & He' & [->|(k' & Hin & Hk' & Hk'')]); [exact He'|].
        apply append_inv_head in Hk'. subst k'.
        assert (e' = entry) as -> by (unfold step in *; congruence). exact He'.
Qed.

(** The loop ends normally unless some file cannot be read. *)
Lemma loop_total ks : forall m w,
  (forall k e, In k ks -> step w k <> Failed e) ->
  exists m' w', forEachM (exportStep R opts G) ks m w = (Ret m', w').
Proof.
  induction ks as [|k ks IH]; intros m w Hok.
  - now exists m, w.
  - cbn [forEachM]. unfold bind. rewrite exportStep_eq. fold (step w k).
    destruct (step w k) as [|f|e0|entry] eqn:Ek.
    + apply IH. intros k' e Hin. apply Hok. now right.
    + apply IH. intros k' e Hin. apply (Hok k' e). now right.
    + exfalso. apply (Hok k e0); [now left | exact Ek].
    + apply IH. intros k' e Hin. apply Hok. now right.
Qed.

End Loop.

(** ** The export map in terms of the files *)

Section Build.
Variable R : Runtime.
Variable opts : Options.

Lemma probe_Clean fs f :
  probe R fs opts (Some f) = Clean <->
  exists content,
    readFile fs (join (path R) (o_distDir opts) f) = Some content /\
    includes content (o_placeholder opts) = false.
Proof.
  unfold probe, readFile. destruct (lookup fs _) as [[c|]|].
  - destruct (includes c _) eqn:E; split; try discriminate.
    + intros (c' & [= <-] & H). congruence.
    + intros _. now exists c.
    + reflexivity.
  - split; [discriminate | intros (c & H & _); discriminate].
  - split; [discriminate | intros (c & H & _); discriminate].
Qed.

Lemma probe_Marked fs file f :
  probe R fs opts file = Marked f <-> file = Some f /\ marked R opts fs f.
Proof.
  unfold probe, marked, readFile. destruct file as [f'|].
  - destruct (lookup fs _) as [[c|]|] eqn:El.
    + destruct (includes c _) eqn:E; split.
      * intros [= <-]. split; [reflexivity|]. exists c. rewrite El. auto.
      * intros [[= <-] _]. reflexivity.
      * discriminate.
      * intros [[= <-] (c' & Hc & Hi)]. rewrite El in Hc. congruence.
    + split; [discriminate|]. intros [[= <-] (c' & Hc & _)].
      rewrite El in Hc. discriminate.
    + split; [discriminate|]. intros [[= <-] (c' & Hc & _)].
      rewrite El in Hc. discriminate.
  - split; [discriminate | intros [H _]; discriminate].
Qed.

Lemma probe_Unreadable fs file e :
  probe R fs opts file = Unreadable e ->
  exists f, file = Some f /\
            readFile fs (join (path R) (o_distDir opts) f) = None.
Proof.
  unfold probe, readFile. destruct file as [f|]; [|discriminate].
  destruct (lookup fs _) as [[c|]|] eqn:El.
  - destruct (includes c _); discriminate.
  - intros _. exists f. now rewrite El.
  - intros _. exists f. now rewrite El.
Qed.

(** The descriptor of a group that [groupFiles] built. *)
Lemma entryOf_group files b g :
  ordinary files ->
  get b (groupFiles files) = Some (SObj g) ->
  entryOf R opts g =
  mkEntry (option_map (reference R opts) (g_js g))
          (option_map (reference R opts) (g_js g))
          (option_map (reference R opts) (g_dts g)).
Proof.
  intros Hord Hg. apply groupFiles_get in Hg as [Hjs Hdts]; [|exact Hord].
  assert (Tjs : truthy (b ++ ".js") = true) by apply (artifact_truthy b ExtJs).
  assert (Tdts : truthy (b ++ ".d.ts") = true) by apply (artifact_truthy b ExtDts).
  unfold entryOf, withRuntime, withTypes.
  destruct (g_js g) as [f|] eqn:Ejs.
  - destruct (proj1 (Hjs f) eq_refl) as [-> _]. rewrite Tjs.
    destruct (g_dts g) as [f'|] eqn:Edts; [|reflexivity].
    destruct (proj1 (Hdts f') eq_refl) as [-> _]. now rewrite Tdts.
  - destruct (g_dts g) as [f'|] eqn:Edts; [|reflexivity].
    destruct (proj1 (Hdts f') eq_refl) as [-> _]. now rewrite Tdts.
Qed.

(** The fields of a group follow from the presence of its artifacts. *)
Lemma group_fields files b g :
  ordinary files ->
  get b (groupFiles files) = Some (SObj g) ->
  (In (b ++ ".js") files -> g_js g = Some (b ++ ".js")) /\
  (~ In (b ++ ".js") files -> g_js g = None) /\
  (In (b ++ ".d.ts") files -> g_dts g = Some (b ++ ".d.ts")) /\
  (~ In (b ++ ".d.ts") files -> g_dts g = None).
Proof.
  intros Hord Hg. apply groupFiles_get in Hg as [Hjs Hdts]; [|exact Hord].
  repeat split.
  - intros H. now apply Hjs.
  - intros H. destruct (g_js g) as [f|] eqn:E; [|reflexivity].
    destruct (proj1 (Hjs f) eq_refl) as [-> Hin]. contradiction.
  - intros H. now apply Hdts.
  - intros H. destruct (g_dts g) as [f|] eqn:E; [|reflexivity].
    destruct (proj1 (Hdts f) eq_refl) as [-> Hin]. contradiction.
Qed.

Lemma In_keys_groupFiles files b :
  ordinary files ->
  (In b (keys (groupFiles files)) <-> exists e, In (artifact b e) files).
Proof.
  intros Hord.
  pose proof (proj2 (proj2 (groupFiles_Grouped files Hord)) b) as H. split.
  - intros [g Hg]%(groupFiles_slot files b Hord). rewrite Hg in H. apply H.
  - intros [e He]. destruct (get b (groupFiles files)) as [g|] eqn:Hg.
    + now apply get_In_keys in Hg.
    + now apply H in He.
Qed.

(** The keys that the loop visits, for such files. *)
Lemma In_forIn_groupFiles files b :
  ordinary files ->
  (In b (forIn (groupFiles files)) <-> In b (keys (groupFiles files))).
Proof.
  intros Hord. rewrite (forIn_plain _ (groupFiles_proto files Hord)).
  apply In_ownKeys.
Qed.

Variable files : list string.
Hypothesis Hord : ordinary files.
Variable w w' : World.
Variable exportsMap : Obj Entry.
Hypothesis Hrun : buildExportsMap R files opts w = (Ret exportsMap, w').

Let G := groupFiles files.
Let step := stepResult R (w_fs w) opts G.

Lemma build_loop_forIn :
  w_fs w' = w_fs w /\ w_writes w' = w_writes w
  /\ (forall l, In l (w_console w') <->
        In l (w_console w) \/
        exists k f, In k (forIn G) /\ step k = SkippedFor f /\
                    l = Warn (skipping f (o_placeholder opts)))
  /\ (forall k e, In k (forIn G) -> step k <> Failed e)
  /\ (forall key e, get key exportsMap = Some e ->
        exists k, In k (forIn G) /\ key = "./" ++ k /\ step k = Kept e)
  /\ (forall k e, In k (forIn G) -> step k = Kept e ->
        get ("./" ++ k) exportsMap = Some e).
Proof.
  unfold buildExportsMap in Hrun. fold G in Hrun.
  apply loop_ret in Hrun as (Hfs & Hwr & Hcon & Hfail & Hfrom & _ & Hkept).
  fold step in Hcon, Hfail, Hfrom, Hkept.
  split; [exact Hfs|]. split; [exact Hwr|].
  split; [exact Hcon|]. split; [exact Hfail|]. split; [|exact Hkept].
  intros key e He. apply Hfrom in He as [He|H]; [discriminate | exact H].
Qed.

Lemma build_loop :
  w_fs w' = w_fs w /\ w_writes w' = w_writes w
  /\ (forall l, In l (w_console w') <->
        In l (w_console w) \/
        exists k f, In k (keys G) /\ step k = SkippedFor f /\
                    l = Warn (skipping f (o_placeholder opts)))
  /\ (forall k e, In k (keys G) -> step k <> Failed e)
  /\ (forall key e, get key exportsMap = Some e ->
        exists k, In k (keys G) /\ key = "./" ++ k /\ step k = Kept e)
  /\ (forall k e, In k (keys G) -> step k = Kept e ->
        get ("./" ++ k) exportsMap = Some e).
Proof.
  destruct build_loop_forIn as (Hfs & Hwr & Hcon & Hfail & Hfrom & Hkept).
  pose proof (fun k => In_forIn_groupFiles files k Hord) as Hk. fold G in Hk.
  split; [exact Hfs|]. split; [exact Hwr|].
  split; [|split; [|split]].
  - intros l. rewrite Hcon. split; (intros [H|(k & f & Hin & Hs)]; [now left|]);
      right; exists k, f; [now rewrite <- Hk | now rewrite Hk].
  - intros k e Hin. apply Hfail. now apply Hk.
  - intros key e He. apply Hfrom in He as (k & Hin & H).
    exists k. now rewrite <- Hk.
  - intros k e Hin. apply Hkept. now apply Hk.
Qed.

(** The turn of the loop for the key of a group. *)
Lemma step_group b g :
  get b G = Some (SObj g) ->
  step b =
  if includesName (o_excludeNames opts) (basename (path R) b)
  then ExcludedByName
  else
    match probe R (w_fs w) opts (g_js g) with
    | Marked f => SkippedFor f
    | Unreadable e => Failed e
    | Clean =>
        match probe R (w_fs w) opts (g_dts g) with
        | Marked f => SkippedFor f
        | Unreadable e => Failed e
        | Clean => Kept (entryOf R opts g)
        end
    end.
Proof.
  intros Hg. pose proof (groupFiles_fieldsOf files b g Hord Hg) as E.
  fold G in E. unfold step, stepResult. now rewrite E.
Qed.

(** An entry of the map comes from a group that passed every check. *)
Lemma export_entry_inv b entry :
  get ("./" ++ b) exportsMap = Some entry ->
  exists g,
    get b G = Some (SObj g) /\
    includesName (o_excludeNames opts) (basename (path R) b) = false /\
    probe R (w_fs w) opts (g_js g) = Clean /\
    probe R (w_fs w) opts (g_dts g) = Clean /\
    entry = entryOf R opts g.
Proof.
  intros He. destruct build_loop as (_ & _ & _ & _ & Hfrom & _).
  apply Hfrom in He as (k & Hin & Hk & Hs).
  apply append_inv_head in Hk. subst k.
  apply (groupFiles_slot files b Hord) in Hin as [g Hg]. fold G in Hg.
  exists g. split; [exact Hg|].
  rewrite (step_group b g Hg) in Hs.
  destruct (includesName _ _); [discriminate|].
  destruct (probe R (w_fs w) opts (g_js g)); try discriminate.
  destruct (probe R (w_fs w) opts (g_dts g)); try discriminate.
  injection Hs as <-. auto.
Qed.

(** A module path is exported exactly when it has an artifact, its
    basename is not excluded and none of its artifacts is marked. *)
Lemma export_key_iff b :
  (exists entry, get ("./" ++ b) exportsMap = Some entry) <->
  (exists e, In (artifact b e) files) /\
  includesName (o_excludeNames opts) (basename (path R) b) = false /\
  (forall e, In (artifact b e) files -> ~ marked R opts (w_fs w) (artifact b e)).
Proof.
  destruct build_loop as (_ & _ & _ & Hfail & _ & Hkept). split.
  - intros [entry (g & Hg & Hex & Hjs & Hdts & _)%export_entry_inv].
    split; [apply (In_keys_groupFiles files b Hord); eapply get_In_keys; exact Hg|].
    split; [exact Hex|].
    intros e Hin (c & Hc & Hi).
    assert (Hf : getExt e g = Some (artifact b e)).
    { pose proof (proj2 (proj2 (groupFiles_Grouped files Hord)) b) as H.
      fold G in H. rewrite Hg in H. apply H. auto. }
    destruct e; simpl in Hf; rewrite Hf in *.
    + apply probe_Clean in Hjs as (c' & Hc' & Hi'). congruence.
    + apply probe_Clean in Hdts as (c' & Hc' & Hi'). congruence.
  - intros (Hart & Hex & Hclean).
    apply (In_keys_groupFiles files b Hord) in Hart as Hin. fold G in Hin.
    destruct (groupFiles_slot files b Hord Hin) as [g Hg]. fold G in Hg.
    specialize (Hfail b). specialize (Hkept b).
    rewrite (step_group b g Hg), Hex in Hfail, Hkept.
    pose proof (proj2 (proj2 (groupFiles_Grouped files Hord)) b) as HG.
    fold G in HG. rewrite Hg in HG. destruct HG as [_ HG].
    assert (Hp : forall e, probe R (w_fs w) opts (getExt e g) <> Marked
                             (artifact b e)).
    { intros e [Hf Hm]%probe_Marked. apply (Hclean e); [|exact Hm].
      now apply HG in Hf. }
    assert (Hm : forall e f, probe R (w_fs w) opts (getExt e g) = Marked f -> False).
    { intros e f Hpm. apply probe_Marked in Hpm as Hpm'.
      destruct Hpm' as [Hf _]. apply HG in Hf as [-> _]. now apply (Hp e). }
    destruct (probe R (w_fs w) opts (g_js g)) as [|f|e0] eqn:Ejs.
    + destruct (probe R (w_fs w) opts (g_dts g)) as [|f|e0] eqn:Edts.
      * eexists. now apply Hkept.
      * exfalso. exact (Hm ExtDts f Edts).
      * exfalso. now apply (Hfail e0).
    + exfalso. exact (Hm ExtJs f Ejs).
    + exfalso. now apply (Hfail e0).
Qed.

(** A group dropped for the marker leaves a warning that names the
    artifact in which the marker was found. *)
Lemma marked_warns b e :
  In (artifact b e) files -> marked R opts (w_fs w) (artifact b e) ->
  includesName (o_excludeNames opts) (basename (path R) b) = false ->
  exists e',
    In (artifact b e') files /\ marked R opts (w_fs w) (artifact b e') /\
    In (Warn (skipping (artifact b e') (o_placeholder opts))) (w_console w').
Proof.
  intros Hin Hm Hex.
  destruct build_loop as (_ & _ & Hcon & Hfail & _ & _).
  destruct (groupFiles_In _ _ _ Hord Hin) as (g & Hg & Hge). fold G in Hg.
  assert (Hk : In b (keys G)) by (eapply get_In_keys; exact Hg).
  pose proof (proj2 (proj2 (groupFiles_Grouped files Hord)) b) as HG.
  fold G in HG. rewrite Hg in HG. destruct HG as [_ HG].
  pose proof (step_group b g Hg) as Hstep. rewrite Hex in Hstep.
  assert (Hskip : forall f, step b = SkippedFor f ->
            exists e', In (artifact b e') files /\
              marked R opts (w_fs w) (artifact b e') /\
              In (Warn (skipping (artifact b e') (o_placeholder opts)))
                 (w_console w')).
  { intros f Hs.
    assert (Hf : exists e', getExt e' g = Some f /\ marked R opts (w_fs w) f).
    { rewrite Hstep in Hs.
      destruct (probe R (w_fs w) opts (g_js g)) as [|f1|e1] eqn:Ejs;
        [|injection Hs as ->; apply probe_Marked in Ejs; now exists ExtJs
         |discriminate].
      destruct (probe R (w_fs w) opts (g_dts g)) as [|f1|e1] eqn:Edts;
        [discriminate
        |injection Hs as ->; apply probe_Marked in Edts; now exists ExtDts
        |discriminate]. }
    destruct Hf as (e' & Hf & Hmf). apply HG in Hf as [-> Hinf].
    exists e'. split; [exact Hinf|]. split; [exact Hmf|].
    apply Hcon. right. exists b, (artifact b e'). auto. }
  destruct (step b) as [|f|e0|entry] eqn:Es.
  - destruct (probe R (w_fs w) opts (g_js _)); [|discriminate..].
    destruct (probe R (w_fs w) opts (g_dts _)); discriminate.
  - now apply (Hskip f).
  - exfalso. now apply (Hfail b e0).
  - exfalso.
    assert (He : exists entry, get ("./" ++ b) exportsMap = Some entry).
    { exists entry. destruct build_loop as (_ & _ & _ & _ & _ & Hkept).
      now apply Hkept. }
    apply export_key_iff in He as (_ & _ & Hclean). exact (Hclean e Hin Hm).
Qed.

End Build.

(** Reading the artifacts is all that can fail in [buildExportsMap]. *)
Lemma build_total (R : Runtime) (opts : Options) files w :
  (forall f b e, In f files -> classify f = Some (b, e) ->
     exists content,
       readFile (w_fs w) (join (path R) (o_distDir opts) f) = Some content) ->
  exists exportsMap w', buildExportsMap R files opts w = (Ret exportsMap, w').
Proof.
  intros Hread. apply loop_total. intros k e Hin Hs.
  destruct (groupFiles_Stored files) as (Ha & Hb & _).
  assert (Hbad : forall x e0,
            probe R (w_fs w) opts (getExt x (fieldsOf (groupFiles files) k))
              = Unreadable e0 -> False).
  { intros x e0 (f & Hf & Hnone)%probe_Unreadable.
    assert (Hinf : In f files) by (exact (fieldsOf_In files k x f Hf)).
    assert (Hc : exists b e', classify f = Some (b, e')).
    { unfold fieldsOf in Hf.
      assert (Hr : readExt (groupFiles files) x (valueOf (groupFiles files) k)
                   = Some f) by (now destruct x).
      assert (Hp : forall f', get (extName x) (proto (groupFiles files)) = Some f' ->
                     exists b e', classify f' = Some (b, e')).
      { intros f' H'. apply Hb in H' as [-> _]. eexists. eexists.
        apply classify_artifact. }
      unfold readExt in Hr.
      destruct (valueOf (groupFiles files) k) as [g|s] eqn:Ev; [|now apply Hp].
      destruct (getExt x g) as [f'|] eqn:Eg; [|now apply Hp].
      injection Hr as ->. unfold valueOf in Ev.
      destruct (get k (groupFiles files)) as [[g0|s]|] eqn:Ek.
      - injection Ev as ->. apply (Ha k g x f Ek) in Eg as [-> _].
        eexists. eexists. apply classify_artifact.
      - cbn [orFresh] in Ev. destruct (truthy s); [discriminate|].
        injection Ev as <-. now destruct x.
      - destruct (get k (proto (groupFiles files))) as [s|].
        + cbn [orFresh] in Ev. destruct (truthy s); [discriminate|].
          injection Ev as <-. now destruct x.
        + injection Ev as <-. now destruct x. }
    destruct Hc as (b & e' & Hc).
    destruct (Hread _ _ _ Hinf Hc) as [c Hcontent]. congruence. }
  unfold stepResult in Hs.
  destruct (includesName _ _); [discriminate|].
  destruct (probe R (w_fs w) opts (g_js _)) as [|f1|e1] eqn:Ejs;
    [|discriminate|exact (Hbad ExtJs e1 Ejs)].
  destruct (probe R (w_fs w) opts (g_dts _)) as [|f1|e1] eqn:Edts;
    [discriminate|discriminate|exact (Hbad ExtDts e1 Edts)].
Qed.

Arguments build_loop_forIn {R opts files w w' exportsMap} Hrun.
Arguments build_loop {R opts files} Hord {w w' exportsMap} Hrun.
Arguments marked_warns {R opts files} Hord {w w' exportsMap} Hrun b e _ _ _.
Arguments export_entry_inv {R opts files} Hord {w w' exportsMap} Hrun b {entry} _.
Arguments export_key_iff {R opts files} Hord {w w' exportsMap} Hrun b.

End GenExportsFacts.

(* ================================================================== *)
(** * Facts about POSIX paths *)

Module PosixFacts.
Import JsString JsStringFacts Posix.

Lemma list_ascii_append a b :
  list_ascii_of_string (a ++ b) =
  (list_ascii_of_string a ++ list_ascii_of_string b)%list.
Proof. induction a as [|x a IH]; simpl; [reflexivity | now rewrite IH]. Qed.

Lemma Forall_noSlash s :
  ~ occurs slash s ->
  Forall (fun c => isSlash c = false) (list_ascii_of_string s).
Proof.
  induction s as [|c s IH]; simpl; intros H; constructor.
  - unfold isSlash. destruct (Ascii.eqb_spec c slash); [|reflexivity].
    exfalso. apply H. now left.
  - apply IH. tauto.
Qed.

Lemma takeSegment_app l r :
  Forall (fun c => isSlash c = false) l ->
  takeSegment (l ++ slash :: r)%list = l.
Proof.
  induction 1 as [|c l Hc Hl IH]; simpl.
  - reflexivity.
  - now rewrite Hc, IH.
Qed.

Lemma takeSegment_all l :
  Forall (fun c => isSlash c = false) l -> takeSegment l = l.
Proof.
  induction 1 as [|c l Hc Hl IH]; simpl; [reflexivity | now rewrite Hc, IH].
Qed.

Lemma dropSlashes_head c l : isSlash c = false -> dropSlashes (c :: l) = c :: l.
Proof. intros H. simpl. now rewrite H. Qed.

(** The basename of a path is its last segment. *)
Lemma basename_last dir name :
  name <> "" -> ~ occurs slash name ->
  basename (dir ++ "/" ++ name) = name /\ basename name = name.
Proof.
  intros Hne Hns. apply Forall_noSlash in Hns.
  unfold basename. rewrite !list_ascii_append.
  change (list_ascii_of_string "/") with [slash].
  rewrite !rev_app_distr. simpl rev at 2. rewrite <- app_assoc. simpl app at 2.
  apply Forall_rev in Hns.
  destruct (rev (list_ascii_of_string name)) as [|c l] eqn:E.
  - exfalso. apply Hne. apply (f_equal (@rev ascii)) in E.
    rewrite rev_involutive in E. simpl in E.
    rewrite <- (string_of_list_ascii_of_string name), E. reflexivity.
  - inversion Hns as [|? ? Hc Hl]; subst.
    simpl app. rewrite !dropSlashes_head by exact Hc.
    change (c :: (l ++ slash :: rev (list_ascii_of_string dir))%list)
      with ((c :: l) ++ slash :: rev (list_ascii_of_string dir))%list.
    rewrite takeSegment_app, takeSegment_all by exact Hns.
    rewrite <- E, rev_involutive, string_of_list_ascii_of_string. auto.
Qed.

(** ** Splitting and joining segments *)

Lemma split_app_sep c a b :
  split c (a ++ String c b) = (split c a ++ split c b)%list.
Proof.
  induction a as [|x a IH]; cbn [split append].
  - now rewrite Ascii.eqb_refl.
  - destruct (Ascii.eqb x c); [now rewrite IH|].
    rewrite IH. pose proof (split_nonempty c a) as Hn.
    destruct (split c a) as [|h t]; [contradiction | reflexivity].
Qed.

Lemma split_noSep c s : ~ occurs c s -> split c s = [s].
Proof.
  induction s as [|x s IH]; simpl; intros H; [reflexivity|].
  destruct (Ascii.eqb_spec x c) as [->|Hne]; [exfalso; apply H; now left|].
  rewrite IH by tauto. reflexivity.
Qed.

Lemma split_joinSegments segs :
  segs <> [] -> Forall (fun s => ~ occurs slash s) segs ->
  split slash (joinSegments segs) = segs.
Proof.
  induction segs as [|x segs IH]; intros Hne Hall; [contradiction|].
  inversion Hall as [|? ? Hx Hrest]; subst.
  destruct segs as [|y r].
  - simpl. now apply split_noSep.
  - change (joinSegments (x :: y :: r)) with (x ++ String slash (joinSegments (y :: r))).
    rewrite split_app_sep, split_noSep by exact Hx.
    rewrite IH by (discriminate || exact Hrest). reflexivity.
Qed.

Lemma clean_noSlash segs :
  Forall clean segs -> Forall (fun s => ~ occurs slash s) segs.
Proof. apply Forall_impl. intros s (_ & _ & _ & H). exact H. Qed.

(** ** Normalizing *)

Lemma normStep_clean f acc seg : clean seg -> normStep f acc seg = seg :: acc.
Proof.
  intros (H1 & H2 & H3 & _). unfold normStep.
  destruct (String.eqb_spec seg ""); [contradiction|].
  destruct (String.eqb_spec seg "."); [contradiction|].
  destruct (String.eqb_spec seg ".."); [contradiction|]. reflexivity.
Qed.

Lemma normStep_empty f acc : normStep f acc "" = acc.
Proof. reflexivity. Qed.

Lemma fold_clean f segs : forall acc,
  Forall clean segs ->
  fold_left (normStep f) segs acc = (rev segs ++ acc)%list.
Proof.
  induction segs as [|x segs IH]; intros acc Hall; [reflexivity|].
  inversion Hall; subst. simpl. rewrite normStep_clean, IH by assumption.
  now rewrite <- app_assoc.
Qed.

(** Each [..] removes the segment kept last. *)
Lemma fold_up f (l : list string) : forall rest,
  Forall clean l ->
  fold_left (normStep f) (map (fun _ => "..") l) (l ++ rest)%list = rest.
Proof.
  induction l as [|x l IH]; intros rest Hall; [reflexivity|].
  inversion Hall as [|? ? Hx Hl]; subst. simpl map. cbn [fold_left].
  replace (normStep f ((x :: l) ++ rest)%list "..") with (l ++ rest)%list.
  - exact (IH rest Hl).
  - destruct Hx as (_ & _ & Hx & _). unfold normStep. simpl.
    destruct (String.eqb_spec x ".."); [contradiction | reflexivity].
Qed.


(** ** The last code unit of a path *)

Lemma endsWithSlash_lastChar p :
  endsWithSlash p = match lastChar p with Some c => isSlash c | None => false end.
Proof.
  induction p as [|c p IH]; [reflexivity|].
  destruct p as [|d p]; [reflexivity|]. exact IH.
Qed.

Lemma lastChar_append a b : b <> "" -> lastChar (a ++ b) = lastChar b.
Proof.
  intros Hb. induction a as [|c a IH]; [reflexivity|].
  simpl append. cbn [lastChar]. rewrite IH.
  destruct (a ++ b) eqn:E; [|reflexivity].
  destruct a, b; simpl in E; congruence.
Qed.

Lemma lastChar_occurs s c : lastChar s = Some c -> occurs c s.
Proof.
  induction s as [|x s IH]; [discriminate|].
  destruct s as [|y s]; [intros [= ->]; now left|].
  intros H. right. exact (IH H).
Qed.

(** A segment that is not empty and holds no separator. *)
Definition plain (s : string) : Prop := s <> "" /\ ~ occurs slash s.

Lemma clean_plain s : clean s -> plain s.
Proof. intros (H & _ & _ & H'). now split. Qed.

Lemma plain_up : plain "..".
Proof. split; [discriminate|]. simpl. intuition discriminate. Qed.

Lemma joinSegments_cons x l : joinSegments (x :: l) <> "" \/ x = "".
Proof.
  destruct x; [now right|]. left. destruct l; discriminate.
Qed.

Lemma joinSegments_nonempty l :
  l <> [] -> Forall plain l -> joinSegments l <> "".
Proof.
  destruct l as [|x l]; [contradiction|]. intros _ Hall.
  inversion Hall as [|? ? [Hx _] _]; subst.
  destruct (joinSegments_cons x l); [assumption | contradiction].
Qed.

Lemma endsWithSlash_join pre l :
  l <> [] -> Forall plain l -> endsWithSlash (pre ++ joinSegments l) = false.
Proof.
  intros Hne Hall. rewrite endsWithSlash_lastChar.
  rewrite lastChar_append by now apply joinSegments_nonempty.
  clear pre. induction l as [|x l IH]; [contradiction|].
  inversion Hall as [|? ? [Hx Hs] Hl]; subst.
  destruct l as [|y r].
  - change (joinSegments [x]) with x.
    destruct (lastChar x) as [c|] eqn:E; [|reflexivity].
    apply lastChar_occurs in E. unfold isSlash.
    destruct (Ascii.eqb_spec c slash); [subst; contradiction | reflexivity].
  - change (joinSegments (x :: y :: r)) with (x ++ (String slash (joinSegments (y :: r)))).
    rewrite lastChar_append by discriminate.
    assert (Hj : joinSegments (y :: r) <> "")
      by (apply joinSegments_nonempty; [discriminate | exact Hl]).
    change (String slash (joinSegments (y :: r)))
      with ("/" ++ joinSegments (y :: r)).
    rewrite lastChar_append by exact Hj.
    apply IH; [discriminate | exact Hl].
Qed.

(** ** Absolute normalized paths *)

(** The segments of [absPath a] between the separators come to [a]
    when they are normalized. *)
Lemma split_absPath a :
  Forall clean a ->
  exists segs,
    split slash (absPath a) = "" :: segs /\
    forall f acc, fold_left (normStep f) segs acc = (rev a ++ acc)%list.
Proof.
  intros Ha. unfold absPath. change ("/" ++ joinSegments a)
    with ("" ++ String slash (joinSegments a)).
  rewrite split_app_sep. simpl app. destruct a as [|x a].
  - exists [""]. split; [reflexivity|]. reflexivity.
  - exists (x :: a). split.
    + rewrite split_joinSegments; [reflexivity | discriminate | now apply clean_noSlash].
    + intros f acc. now apply fold_clean.
Qed.

Lemma absSegments_absPath a : Forall clean a -> absSegments (absPath a) = a.
Proof.
  intros Ha. unfold absPath, absSegments. simpl append.
  destruct a as [|x a]; [reflexivity|].
  assert (Hne : joinSegments (x :: a) <> "").
  { apply joinSegments_nonempty; [discriminate|].
    eapply Forall_impl; [|exact Ha]. apply clean_plain. }
  destruct (joinSegments (x :: a)) eqn:E; [contradiction|].
  rewrite <- E. apply split_joinSegments; [discriminate | now apply clean_noSlash].
Qed.

Lemma absPath_inj a b : Forall clean a -> Forall clean b -> absPath a = absPath b -> a = b.
Proof.
  intros Ha Hb H. rewrite <- (absSegments_absPath a Ha), <- (absSegments_absPath b Hb).
  now rewrite H.
Qed.


Lemma map_up_rev (l : list string) :
  map (fun _ => "..") (rev l) = map (fun _ : string => "..") l.
Proof.
  induction l as [|x l IH]; [reflexivity|].
  simpl. rewrite map_app, IH. simpl.
  clear IH. induction l as [|y l IH]; [reflexivity|]. simpl. now rewrite IH.
Qed.

Lemma Forall_plain_ups (up down : list string) :
  Forall clean down -> Forall plain (map (fun _ => "..") up ++ down)%list.
Proof.
  intros Hd. apply Forall_app. split.
  - apply Forall_forall. intros s [x [<- _]]%in_map_iff. apply plain_up.
  - eapply Forall_impl; [|exact Hd]. apply clean_plain.
Qed.

(** Walking from [common/up] along one [..] for each segment of [up]
    and then down [down] leads to [common/down]. *)
Lemma normalize_walk common up down :
  Forall clean common -> Forall clean up -> Forall clean down ->
  (map (fun _ => "..") up ++ down)%list <> [] ->
  normalize (absPath (common ++ up)
             ++ "/" ++ joinSegments (map (fun _ => "..") up ++ down))
  = absPath (common ++ down).
Proof.
  intros Hc Hu Hd Hne.
  pose proof (Forall_plain_ups up down Hd) as Hplain.
  set (rel := joinSegments (map (fun _ => "..") up ++ down)).
  assert (Ha : Forall clean (common ++ up)) by (apply Forall_app; auto).
  unfold normalize.
  change (absPath (common ++ up) ++ "/" ++ rel =? "") with false. cbv iota.
  change (startsWithSlash (absPath (common ++ up) ++ "/" ++ rel)) with true.
  cbv iota. simpl negb.
  replace (endsWithSlash (absPath (common ++ up) ++ "/" ++ rel)) with false.
  2:{ symmetry. rewrite <- append_assoc. now apply endsWithSlash_join. }
  unfold normalizeString, normSegments.
  change (absPath (common ++ up) ++ "/" ++ rel)
    with (absPath (common ++ up) ++ String slash rel).
  rewrite split_app_sep.
  destruct (split_absPath (common ++ up) Ha) as (segs & -> & Hfold).
  unfold rel. rewrite split_joinSegments;
    [|exact Hne | eapply Forall_impl; [|exact Hplain]; now intros s [_ H]].
  simpl app. cbn [fold_left]. rewrite normStep_empty.
  rewrite !fold_left_app, Hfold, app_nil_r, rev_app_distr.
  rewrite <- map_up_rev, fold_up by now apply Forall_rev.
  rewrite fold_clean by exact Hd.
  rewrite rev_app_distr, !rev_involutive.
  unfold absPath.
  destruct (joinSegments (common ++ down) =? "") eqn:E; [|reflexivity].
  apply String.eqb_eq in E. now rewrite E.
Qed.

(** The path of an artifact joined to the build directory. *)
Lemma join_absPath d f :
  Forall clean d -> Forall clean f -> f <> [] ->
  join (absPath d) (joinSegments f) = absPath (d ++ f).
Proof.
  intros Hd Hf Hne. unfold join.
  change (truthy (absPath d)) with true.
  assert (Hj : truthy (joinSegments f) = true).
  { apply truthy_true, joinSegments_nonempty; [exact Hne|].
    eapply Forall_impl; [|exact Hf]. apply clean_plain. }
  rewrite Hj.
  pose proof (normalize_walk d [] f Hd (Forall_nil _) Hf) as H.
  simpl map in H. simpl app in H. rewrite app_nil_r in H. now apply H.
Qed.




(** ** Backslashes *)



(** ** [dirname] goes up *)

Lemma dropSlashes_length l : List.length (dropSlashes l) <= List.length l.
Proof.
  induction l as [|c l IH]; simpl; [lia|].
  destruct (isSlash c); simpl; lia.
Qed.

Lemma dropSegment_length l : List.length (dropSegment l) <= List.length l.
Proof.
  induction l as [|c l IH]; simpl; [lia|].
  destruct (isSlash c); simpl; lia.
Qed.

Lemma dropSlashes_head_not_slash l c r :
  dropSlashes l = c :: r -> isSlash c = false.
Proof.
  induction l as [|x l IH]; simpl; [discriminate|].
  destruct (isSlash x) eqn:E; [exact IH | now intros [= <- _]].
Qed.

(** After the trailing separators, the scan passes the last segment
    before it stops. *)
Lemma dropSegment_dropSlashes_length l x r :
  dropSegment (dropSlashes l) = x :: r -> S (S (List.length r)) <= List.length l.
Proof.
  intros H. pose proof (dropSlashes_length l) as Hl.
  destruct (dropSlashes l) as [|c t] eqn:E; [discriminate|].
  apply dropSlashes_head_not_slash in E. simpl in H. rewrite E in H.
  pose proof (dropSegment_length t) as Ht. rewrite H in Ht. simpl in *. lia.
Qed.

Lemma length_string_of_list l :
  String.length (string_of_list_ascii l) = List.length l.
Proof. induction l as [|c l IH]; simpl; [reflexivity | now rewrite IH]. Qed.

Lemma length_list_of_string s :
  List.length (list_ascii_of_string s) = String.length s.
Proof. induction s as [|c s IH]; simpl; [reflexivity | now rewrite IH]. Qed.

(** [dirname] is shorter than its argument, except on its fixed points
    and on a name of one code unit, which it sends to the fixed point
    [.]. *)
Lemma dirname_shrinks p :
  dirname p = p
  \/ String.length (dirname p) < String.length p
  \/ (dirname p = "." /\ dirname "." = ".").
Proof.
  destruct p as [|c body]; [right; right; auto|].
  unfold dirname.
  destruct (dropSegment (dropSlashes (rev (list_ascii_of_string body))))
    as [|x before] eqn:E.
  - destruct (isSlash c) eqn:Ec.
    + destruct body; [left|right; left; simpl; lia].
      unfold isSlash in Ec. apply Ascii.eqb_eq in Ec. now subst.
    + right. right. auto.
  - apply dropSegment_dropSlashes_length in E.
    rewrite length_rev, length_list_of_string in E.
    right. left. destruct before as [|y before].
    + destruct (isSlash c); simpl in *; lia.
    + cbn [String.length]. rewrite length_string_of_list, length_rev.
      simpl in *. lia.
Qed.

End PosixFacts.

(* ================================================================== *)
(** * Facts about a run *)

Module RunFacts.
Import JsString JsObject Node GenExports.
Import JsStringFacts JsObjectFacts GenExportsFacts.

(** ** Computations that only read the file system *)

Lemma addLines_nil w : addLines w [] = w.
Proof. destruct w. unfold addLines. simpl. now rewrite app_nil_r. Qed.

Lemma addLines_app w l1 l2 : addLines (addLines w l1) l2 = addLines w (l1 ++ l2).
Proof. unfold addLines. simpl. now rewrite app_assoc. Qed.

Lemma addLine_addLines w l : addLine w l = addLines w [l].
Proof. reflexivity. Qed.

(** [m] run in [w] and in [v] ends in the same way and prints the same
    lines, and changes nothing else. *)
Definition simAt {A} (m : M A) (w v : World) : Prop :=
  exists out lines, m w = (out, addLines w lines) /\ m v = (out, addLines v lines).

(** The same, in all worlds whose file systems are [a] and [b]. *)
Definition simFs (a b : FS) {A} (m : M A) : Prop :=
  forall w v, w_fs w = a -> w_fs v = b -> simAt m w v.

Section Sim.
Variables a b : FS.

Lemma simFs_ret {A} (x : A) : simFs a b (ret x).
Proof. intros w v _ _. exists (Ret x), []. now rewrite !addLines_nil. Qed.

Lemma simFs_exit {A} c : simFs a b (@process_exit A c).
Proof. intros w v _ _. exists (Exit c), []. now rewrite !addLines_nil. Qed.

Lemma simFs_throw {A} e : simFs a b (@throw A e).
Proof. intros w v _ _. exists (Throw e), []. now rewrite !addLines_nil. Qed.

Lemma simFs_diverge {A} : simFs a b (@diverge A).
Proof. intros w v _ _. exists Diverge, []. now rewrite !addLines_nil. Qed.

Lemma simFs_console l : simFs a b (console l).
Proof. intros w v _ _. now exists (Ret tt), [l]. Qed.

Lemma simFs_bind {A B} (m : M A) (k : A -> M B) :
  simFs a b m -> (forall x, simFs a b (k x)) -> simFs a b (bind m k).
Proof.
  intros Hm Hk w v Hw Hv. destruct (Hm w v Hw Hv) as (out & l1 & E1 & E2).
  unfold simAt, bind. rewrite E1, E2. destruct out as [x| | |].
  - destruct (Hk x (addLines w l1) (addLines v l1) Hw Hv) as (out & l2 & F1 & F2).
    exists out, (l1 ++ l2)%list. now rewrite F1, F2, !addLines_app.
  - now exists (Exit code), l1.
  - now exists (Throw e), l1.
  - now exists Diverge, l1.
Qed.

Lemma simFs_if {A} (c : bool) (m1 m2 : M A) :
  simFs a b m1 -> simFs a b m2 -> simFs a b (if c then m1 else m2).
Proof. now destruct c. Qed.

Hypothesis Hshape : sameShape a b.

Lemma simFs_existsSync p : simFs a b (fs_existsSync p).
Proof.
  intros w v Hw Hv. unfold simAt, fs_existsSync, existsSync. rewrite Hw, Hv.
  specialize (Hshape p).
  exists (Ret match lookup a p with Some _ => true | None => false end), [].
  rewrite !addLines_nil. split; [reflexivity|].
  destruct (lookup a p) as [[]|], (lookup b p) as [[]|];
    reflexivity || contradiction.
Qed.

Lemma simFs_isDirectory p : simFs a b (fs_statSync_isDirectory p).
Proof.
  intros w v Hw Hv. unfold simAt, fs_statSync_isDirectory. rewrite Hw, Hv.
  specialize (Hshape p).
  destruct (lookup a p) as [[]|], (lookup b p) as [[]|]; try contradiction;
    eexists; exists []; rewrite !addLines_nil; split; reflexivity.
Qed.

End Sim.

Create HintDb sim discriminated.
#[local] Hint Resolve simFs_ret simFs_exit simFs_throw simFs_diverge
  simFs_console simFs_existsSync simFs_isDirectory : sim.

Ltac sim_step :=
  first
    [ apply simFs_bind; [|intro]
    | apply simFs_if
    | progress (unfold console_error, console_warn, console_log)
    | solve [auto with sim] ].

Section Stages.
Variable R : Runtime.
Variables a b : FS.

Lemma simFs_printUsage {A} : simFs a b (@printUsage A).
Proof. unfold printUsage. repeat sim_step. Qed.

Lemma simFs_unknownArgument {A} arg : simFs a b (@unknownArgument A arg).
Proof. unfold unknownArgument. sim_step; [repeat sim_step|]. apply simFs_printUsage. Qed.

Lemma simFs_parseFlags args : forall st, simFs a b (parseFlags args st).
Proof.
  remember (List.length args) as n eqn:Hn. revert args Hn.
  induction n as [n IH] using lt_wf_ind. intros [|arg [|next rest]] Hn st.
  - apply simFs_ret.
  - apply simFs_unknownArgument.
  - cbn [parseFlags].
    assert (Hrec : forall st', simFs a b (parseFlags rest st')).
    { intros st'. apply (IH (List.length rest)); [subst n; simpl; lia | reflexivity]. }
    repeat (apply simFs_if; [apply Hrec|]). apply simFs_unknownArgument.
Qed.

Lemma simFs_parseCliArgs argv : simFs a b (parseCliArgs argv).
Proof.
  destruct argv as [|dir args]; [apply simFs_printUsage | apply simFs_parseFlags].
Qed.

Lemma simFs_readJson p : lookup a p = lookup b p -> simFs a b (readJson R p).
Proof.
  intros Hp w v Hw Hv. unfold simAt, readJson, bind, fs_readFileSync.
  rewrite Hw, Hv, <- Hp. destruct (lookup a p) as [[text|]|].
  - destruct (JSON_parse R text); eexists; exists [];
      rewrite !addLines_nil; split; reflexivity.
  - eexists; exists []; rewrite !addLines_nil; split; reflexivity.
  - eexists; exists []; rewrite !addLines_nil; split; reflexivity.
Qed.

Lemma simFs_getDistFiles d :
  fg R a ["**/*.js"; "**/*.d.ts"] d = fg R b ["**/*.js"; "**/*.d.ts"] d ->
  simFs a b (getDistFiles R d).
Proof.
  intros Hfg w v Hw Hv. unfold simAt, getDistFiles. rewrite Hw, Hv, <- Hfg.
  destruct (fg R a _ d); eexists; exists []; rewrite !addLines_nil;
    split; reflexivity.
Qed.

Lemma simFs_assignExports pkg m : simFs a b (assignExports pkg m).
Proof. destruct pkg; simpl; auto with sim. Qed.

Lemma simFs_exportKeys pkg m : simFs a b (exportKeys pkg m).
Proof. destruct pkg; simpl; auto with sim. Qed.

(** The loop over the groups, when every turn finds the same. *)
Lemma simFs_loop opts G ks : forall m,
  (forall k, In k ks -> stepResult R a opts G k = stepResult R b opts G k) ->
  simFs a b (forEachM (exportStep R opts G) ks m).
Proof.
  induction ks as [|k ks IH]; intros m Hstep; [apply simFs_ret|].
  intros w v Hw Hv.
  - cbn [forEachM]. unfold simAt, bind. rewrite !exportStep_eq, Hw, Hv.
    rewrite <- (Hstep k (or_introl eq_refl)).
    assert (Hrest : forall m', simFs a b (forEachM (exportStep R opts G) ks m')).
    { intros m'. apply IH. intros k' Hin. apply Hstep. now right. }
    destruct (stepResult R a opts G k) as [|f|e|entry].
    + exact (Hrest m w v Hw Hv).
    + destruct (Hrest m (addLine w (Warn (skipping f (o_placeholder opts))))
                  (addLine v (Warn (skipping f (o_placeholder opts)))) Hw Hv)
        as (out & lines & E1 & E2).
      exists out, (Warn (skipping f (o_placeholder opts)) :: lines).
      rewrite E1, E2, !addLine_addLines, !addLines_app. auto.
    + exists (Throw e), []. now rewrite !addLines_nil.
    + exact (Hrest _ w v Hw Hv).
Qed.

Lemma probe_ext opts file :
  (forall f, file = Some f ->
     lookup a (join (path R) (o_distDir opts) f) =
     lookup b (join (path R) (o_distDir opts) f)) ->
  probe R a opts file = probe R b opts file.
Proof.
  intros H. destruct file as [f|]; [|reflexivity].
  unfold probe. now rewrite (H f eq_refl).
Qed.

Lemma simFs_buildExportsMap files opts :
  (forall f, In f files ->
     lookup a (join (path R) (o_distDir opts) f) =
     lookup b (join (path R) (o_distDir opts) f)) ->
  simFs a b (buildExportsMap R files opts).
Proof.
  intros Hsame. unfold buildExportsMap. apply simFs_loop.
  intros k Hin. unfold stepResult.
  rewrite (probe_ext opts (g_js (fieldsOf (groupFiles files) k))),
          (probe_ext opts (g_dts (fieldsOf (groupFiles files) k)));
    [reflexivity | |].
  - intros f Hf. apply Hsame. exact (fieldsOf_In files k ExtDts f Hf).
  - intros f Hf. apply Hsame. exact (fieldsOf_In files k ExtJs f Hf).
Qed.

Hypothesis Hshape : sameShape a b.

Lemma simFs_findNearestLoop fuel : forall dir rootDir,
  simFs a b (findNearestLoop R fuel dir rootDir).
Proof.
  induction fuel as [|fuel IH]; intros dir rootDir; cbn [findNearestLoop].
  - apply simFs_diverge.
  - apply simFs_bind; [now apply simFs_existsSync|].
    intros found. repeat (apply simFs_if; [apply simFs_ret|]). apply IH.
Qed.

Lemma simFs_resolvePaths buildDirArg pkgPathArg :
  simFs a b (resolvePaths R buildDirArg pkgPathArg).
Proof.
  unfold resolvePaths.
  apply simFs_bind; [now apply simFs_existsSync|]. intros present.
  apply simFs_bind.
  { apply simFs_if; [now apply simFs_isDirectory | apply simFs_ret]. }
  intros isDir. apply simFs_if.
  { apply simFs_bind; [apply simFs_console | intros _; apply simFs_exit]. }
  apply simFs_bind; [|intros p; apply simFs_ret].
  assert (Hauto : forall X : M string,
            X = (nearest <- findNearestPackageJson R
                              (resolve (path R) [cwd R; buildDirArg]) (cwd R) ;;
                 let pkgPath := match nearest with
                                | Some p => p
                                | None => join (path R) (cwd R) "package.json"
                                end in
                 found <- fs_existsSync pkgPath ;;
                 if found then ret pkgPath
                 else
                   console_error
                     ("Error: could not locate any package.json (tried "
                      ++ resolve (path R) [cwd R; buildDirArg]
                      ++ " → " ++ cwd R ++ ")") ;;
                   process_exit 1) ->
            simFs a b X).
  { intros X ->. apply simFs_bind; [apply simFs_findNearestLoop|].
    intros nearest. apply simFs_bind; [now apply simFs_existsSync|].
    intros found. apply simFs_if; [apply simFs_ret|].
    apply simFs_bind; [apply simFs_console | intros _; apply simFs_exit]. }
  destruct pkgPathArg as [[|c arg]|]; try (apply Hauto; reflexivity).
  apply simFs_bind; [now apply simFs_existsSync|].
  intros found. apply simFs_if; [apply simFs_ret|].
  apply simFs_bind; [apply simFs_console | intros _; apply simFs_exit].
Qed.

End Stages.

(** ** The two parts of [main] *)

Lemma sameShape_refl a : sameShape a a.
Proof. intros p. now destruct (lookup a p) as [[]|]. Qed.

Lemma simFs_keeps {A} a (m : M A) :
  simFs a a m ->
  forall w out w', w_fs w = a -> m w = (out, w') ->
    w_fs w' = w_fs w /\ w_writes w' = w_writes w /\
    exists lines, w' = addLines w lines.
Proof.
  intros Hm w out w' Hw E. destruct (Hm w w Hw Hw) as (out' & lines & E' & _).
  rewrite E in E'. injection E' as -> ->. repeat split. now exists lines.
Qed.


Section Main.
Variable R : Runtime.

Lemma main_plan argv w : main R argv w = bind (plan R argv) (commit R) w.
Proof.
  unfold main, plan, commit, bind.
  destruct (parseCliArgs argv w) as [[args| | |] w1]; try reflexivity.
  destruct (resolvePaths R _ _ w1) as [[paths| | |] w2]; try reflexivity.
  destruct (readJson R _ w2) as [[pkg| | |] w3]; try reflexivity.
  destruct (getDistFiles R _ w3) as [[files| | |] w4]; try reflexivity.
  destruct (buildExportsMap R _ _ w4) as [[m| | |] w5]; try reflexivity.
  destruct (assignExports pkg m w5) as [[pkg'| | |] w6]; reflexivity.
Qed.

(** Up to [writeJson], [main] only reads the file system. *)
Lemma plan_self a argv : simFs a a (plan R argv).
Proof.
  pose proof (sameShape_refl a) as Hrefl. unfold plan.
  apply simFs_bind; [apply simFs_parseCliArgs|]. intros args.
  apply simFs_bind; [now apply simFs_resolvePaths|]. intros paths.
  apply simFs_bind; [now apply simFs_readJson|]. intros pkg.
  apply simFs_bind; [now apply simFs_getDistFiles|]. intros files.
  apply simFs_bind; [now apply simFs_buildExportsMap|]. intros m.
  apply simFs_bind; [apply simFs_assignExports | intros pkg'; apply simFs_ret].
Qed.

Lemma plan_keeps argv w out wp :
  plan R argv w = (out, wp) ->
  w_fs wp = w_fs w /\ w_writes wp = w_writes w.
Proof.
  intros H.
  destruct (simFs_keeps (w_fs w) (plan R argv) (plan_self _ argv) w out wp eq_refl H)
    as (H1 & H2 & _).
  auto.
Qed.

Lemma readJson_Ret p w pkg w' :
  readJson R p w = (Ret pkg, w') ->
  w' = w /\ exists text, readFile (w_fs w) p = Some text /\
                         JSON_parse R text = Some pkg.
Proof.
  unfold readJson, bind, fs_readFileSync, readFile.
  destruct (lookup (w_fs w) p) as [[text|]|]; try discriminate.
  destruct (JSON_parse R text) as [j|] eqn:E; [|discriminate].
  intros [= <- <-]. split; [reflexivity | now exists text].
Qed.

Lemma getDistFiles_Ret d w files w' :
  getDistFiles R d w = (Ret files, w') ->
  w' = w /\ fg R (w_fs w) ["**/*.js"; "**/*.d.ts"] d = Some files.
Proof.
  unfold getDistFiles. destruct (fg R (w_fs w) _ d); [|discriminate].
  now intros [= <- <-].
Qed.

Lemma assignExports_Ret pkg m w upd w' :
  assignExports pkg m w = (Ret upd, w') ->
  w' = w /\ pkg <> JNull /\
  upd = match pkg with
        | JObj props => JObj (set "exports" (exportsJson m) props)
        | _ => pkg
        end.
Proof.
  destruct pkg; simpl; unfold ret, throw; try discriminate;
    intros [= <- <-]; repeat split; discriminate.
Qed.

(** The stages of a plan that came to its end. *)
Lemma plan_inv argv w pl wp :
  plan R argv w = (Ret pl, wp) ->
  exists args w1 w2,
    parseCliArgs argv w = (Ret args, w1) /\ w_fs w1 = w_fs w
    /\ resolvePaths R (buildDirArg args) (pkgPathArg args) w1
       = (Ret (p_paths pl), w2) /\ w_fs w2 = w_fs w
    /\ (exists text,
          readFile (w_fs w) (pkgPath (p_paths pl)) = Some text /\
          JSON_parse R text = Some (p_pkg pl))
    /\ fg R (w_fs w) ["**/*.js"; "**/*.d.ts"] (distDir (p_paths pl))
       = Some (p_files pl)
    /\ buildExportsMap R (p_files pl)
         (mkOptions (distDir (p_paths pl)) (pkgDir (p_paths pl))
                    (excludeNames args) (placeholder args)) w2
       = (Ret (p_exports pl), wp)
    /\ p_pkg pl <> JNull
    /\ p_updated pl =
       match p_pkg pl with
       | JObj props => JObj (set "exports" (exportsJson (p_exports pl)) props)
       | _ => p_pkg pl
       end.
Proof.
  intros H. unfold plan, bind in H.
  destruct (parseCliArgs argv w) as [[args| | |] w1] eqn:E1; try discriminate.
  destruct (resolvePaths R _ _ w1) as [[paths| | |] w2] eqn:E2; try discriminate.
  destruct (readJson R _ w2) as [[pkg| | |] w3] eqn:E3; try discriminate.
  destruct (getDistFiles R _ w3) as [[files| | |] w4] eqn:E4; try discriminate.
  destruct (buildExportsMap R _ _ w4) as [[m| | |] w5] eqn:E5; try discriminate.
  destruct (assignExports pkg m w5) as [[pkg'| | |] w6] eqn:E6; try discriminate.
  injection H as <- <-. simpl.
  destruct (simFs_keeps (w_fs w) _ (simFs_parseCliArgs _ _ argv) w _ _ eq_refl E1)
    as (F1 & _ & _).
  destruct (simFs_keeps (w_fs w) _
              (simFs_resolvePaths R _ _ (sameShape_refl _) _ _) w1 _ _ F1 E2)
    as (F2 & _ & _).
  rewrite F1 in F2.
  apply readJson_Ret in E3 as [-> (text & Ht & Hp)].
  apply getDistFiles_Ret in E4 as [-> Hfg].
  apply assignExports_Ret in E6 as (-> & Hnull & Hupd).
  rewrite F2 in Ht, Hfg.
  exists args, w1, w2.
  split; [reflexivity|]. split; [exact F1|]. split; [exact E2|].
  split; [exact F2|]. split; [now exists text|]. split; [exact Hfg|].
  split; [exact E5|]. split; [exact Hnull | exact Hupd].
Qed.

End Main.

(** ** Writing the manifest *)

Lemma lookup_writeFile_same fs p data : lookup (writeFile fs p data) p = Some (File data).
Proof. apply get_set_same. Qed.

Lemma lookup_writeFile_other fs p q data :
  q <> p -> lookup (writeFile fs p data) q = lookup fs q.
Proof. intros H. now apply get_set_other. Qed.



Lemma others_set {A} k (v : A) o : others k (set k v o) = others k o.
Proof.
  induction o as [|[k' v'] o IH]; simpl.
  - now rewrite String.eqb_refl.
  - destruct (String.eqb_spec k' k) as [->|Hne]; simpl.
    + now rewrite String.eqb_refl.
    + destruct (String.eqb_spec k' k); [contradiction | now rewrite IH].
Qed.

(** ** The exit code of a failure is 1 *)

Definition exits1 {A} (m : M A) : Prop :=
  forall w c w', m w = (Exit c, w') -> c = 1.

Lemma exits1_ret {A} (x : A) : exits1 (ret x).
Proof. intros w c w'. discriminate. Qed.

Lemma exits1_exit {A} : exits1 (@process_exit A 1).
Proof. now intros w c w' [= <- _]. Qed.

Lemma exits1_throw {A} e : exits1 (@throw A e).
Proof. intros w c w'. discriminate. Qed.

Lemma exits1_diverge {A} : exits1 (@diverge A).
Proof. intros w c w'. discriminate. Qed.

Lemma exits1_console l : exits1 (console l).
Proof. intros w c w'. discriminate. Qed.

Lemma exits1_existsSync p : exits1 (fs_existsSync p).
Proof. intros w c w'. discriminate. Qed.

Lemma exits1_isDirectory p : exits1 (fs_statSync_isDirectory p).
Proof.
  intros w c w'. unfold fs_statSync_isDirectory.
  destruct (lookup (w_fs w) p) as [[]|]; discriminate.
Qed.

Lemma exits1_bind {A B} (m : M A) (k : A -> M B) :
  exits1 m -> (forall x, exits1 (k x)) -> exits1 (bind m k).
Proof.
  intros Hm Hk w c w'. unfold bind.
  destruct (m w) as [[x| | |] w1] eqn:E; try discriminate.
  - apply Hk.
  - intros [= <- <-]. exact (Hm w _ _ E).
Qed.

Lemma exits1_if {A} (c : bool) (m1 m2 : M A) :
  exits1 m1 -> exits1 m2 -> exits1 (if c then m1 else m2).
Proof. now destruct c. Qed.

Section Exits.
Variable R : Runtime.

Lemma exits1_printUsage {A} : exits1 (@printUsage A).
Proof.
  apply exits1_bind; [apply exits1_console | intros _; apply exits1_exit].
Qed.

Lemma exits1_unknownArgument {A} arg : exits1 (@unknownArgument A arg).
Proof.
  apply exits1_bind; [apply exits1_console | intros _; apply exits1_printUsage].
Qed.

Lemma exits1_parseFlags args : forall st, exits1 (parseFlags args st).
Proof.
  remember (List.length args) as n eqn:Hn. revert args Hn.
  induction n as [n IH] using lt_wf_ind. intros [|arg [|next rest]] Hn st.
  - apply exits1_ret.
  - apply exits1_unknownArgument.
  - cbn [parseFlags].
    assert (Hrec : forall st', exits1 (parseFlags rest st')).
    { intros st'. apply (IH (List.length rest)); [subst n; simpl; lia | reflexivity]. }
    repeat (apply exits1_if; [apply Hrec|]). apply exits1_unknownArgument.
Qed.

Lemma exits1_parseCliArgs argv : exits1 (parseCliArgs argv).
Proof.
  destruct argv as [|dir args]; [apply exits1_printUsage | apply exits1_parseFlags].
Qed.

Lemma exits1_findNearestLoop fuel : forall dir rootDir,
  exits1 (findNearestLoop R fuel dir rootDir).
Proof.
  induction fuel as [|fuel IH]; intros dir rootDir; cbn [findNearestLoop].
  - apply exits1_diverge.
  - apply exits1_bind; [apply exits1_existsSync|].
    intros found. repeat (apply exits1_if; [apply exits1_ret|]). apply IH.
Qed.

Lemma exits1_resolvePaths buildDirArg pkgPathArg :
  exits1 (resolvePaths R buildDirArg pkgPathArg).
Proof.
  unfold resolvePaths.
  apply exits1_bind; [apply exits1_existsSync|]. intros present.
  apply exits1_bind.
  { apply exits1_if; [apply exits1_isDirectory | apply exits1_ret]. }
  intros isDir. apply exits1_if.
  { apply exits1_bind; [apply exits1_console | intros _; apply exits1_exit]. }
  apply exits1_bind; [|intros p; apply exits1_ret].
  destruct pkgPathArg as [[|c arg]|].
  2:{ apply exits1_bind; [apply exits1_existsSync|].
      intros found. apply exits1_if; [apply exits1_ret|].
      apply exits1_bind; [apply exits1_console | intros _; apply exits1_exit]. }
  all: apply exits1_bind; [apply exits1_findNearestLoop|]; intros nearest;
    apply exits1_bind; [apply exits1_existsSync|]; intros found;
    apply exits1_if; [apply exits1_ret|];
    apply exits1_bind; [apply exits1_console | intros _; apply exits1_exit].
Qed.

Lemma exits1_readJson p : exits1 (readJson R p).
Proof.
  intros w c w'. unfold readJson, bind, fs_readFileSync.
  destruct (lookup (w_fs w) p) as [[text|]|]; try discriminate.
  destruct (JSON_parse R text); discriminate.
Qed.

Lemma exits1_getDistFiles d : exits1 (getDistFiles R d).
Proof.
  intros w c w'. unfold getDistFiles. destruct (fg R _ _ d); discriminate.
Qed.

Lemma exits1_buildExportsMap files opts : exits1 (buildExportsMap R files opts).
Proof.
  unfold buildExportsMap. generalize (@nil (string * Entry)).
  induction (forIn (groupFiles files)) as [|k ks IH]; intros m.
  - apply exits1_ret.
  - cbn [forEachM]. apply exits1_bind; [|intros m'; apply IH].
    intros w c w'. rewrite exportStep_eq.
    destruct (stepResult R (w_fs w) opts (groupFiles files) k); discriminate.
Qed.

Lemma exits1_assignExports pkg m : exits1 (assignExports pkg m).
Proof. destruct pkg; simpl; (apply exits1_ret || apply exits1_throw). Qed.

Lemma plan_exits1 argv w c wp : plan R argv w = (Exit c, wp) -> c = 1.
Proof.
  revert w c wp. change (exits1 (plan R argv)). unfold plan.
  apply exits1_bind; [apply exits1_parseCliArgs|]. intros args.
  apply exits1_bind; [apply exits1_resolvePaths|]. intros paths.
  apply exits1_bind; [apply exits1_readJson|]. intros pkg.
  apply exits1_bind; [apply exits1_getDistFiles|]. intros files.
  apply exits1_bind; [apply exits1_buildExportsMap|]. intros m.
  apply exits1_bind; [apply exits1_assignExports | intros pkg'; apply exits1_ret].
Qed.

End Exits.

Section Commit.
Variable R : Runtime.

(** The second part of [main] in a world where the manifest is a file. *)
Lemma commit_file pl wp text :
  lookup (w_fs wp) (pkgPath (p_paths pl)) = Some (File text) ->
  exists out w',
    commit R pl wp = (out, w')
    /\ w_fs w' = writeFile (w_fs wp) (pkgPath (p_paths pl))
                   (JSON_stringify2 R (p_updated pl) ++ newline)
    /\ w_writes w' = S (w_writes wp)
    /\ (holdsExports (p_updated pl) -> out = Ret tt)
    /\ (~ holdsExports (p_updated pl) -> exists e, out = Throw e).
Proof.
  intros Hp. unfold commit, writeJson, bind, fs_writeFileSync. rewrite Hp.
  destruct (p_updated pl); simpl; eexists; eexists;
    (split; [reflexivity|]); repeat split; simpl; try tauto;
    intros _; eexists; reflexivity.
Qed.

(** A run either leaves the files alone and fails, or carries out its
    plan with one write. *)
Lemma run_cases argv w code w' :
  run R argv w = (code, w') ->
  ((forall pl wp, plan R argv w <> (Ret pl, wp)) /\
   w_fs w' = w_fs w /\ w_writes w' = w_writes w /\ code <> Some 0)
  \/
  (exists pl wp,
     plan R argv w = (Ret pl, wp)
     /\ w_fs w' = writeFile (w_fs w) (pkgPath (p_paths pl))
                    (JSON_stringify2 R (p_updated pl) ++ newline)
     /\ w_writes w' = S (w_writes w)
     /\ (code = Some 0 /\ holdsExports (p_updated pl) \/
         code = Some 1 /\ ~ holdsExports (p_updated pl))).
Proof.
  unfold run. rewrite main_plan. unfold bind.
  destruct (plan R argv w) as [[pl| | |] wp] eqn:Hplan.
  - intros H. right. exists pl, wp. split; [reflexivity|].
    destruct (plan_keeps R argv w _ _ Hplan) as [Hfs Hwr].
    destruct (plan_inv R argv w pl wp Hplan)
      as (args & w1 & w2 & _ & _ & _ & _ & (text & Ht & _) & _).
    assert (Hfile : lookup (w_fs wp) (pkgPath (p_paths pl)) = Some (File text)).
    { rewrite Hfs. unfold readFile in Ht.
      destruct (lookup (w_fs w) _) as [[c|]|]; congruence. }
    destruct (commit_file pl wp text Hfile)
      as (out & w3 & Hc & Hw3 & Hwr3 & Hok & Hbad).
    rewrite Hc in H. rewrite Hfs in Hw3. rewrite Hwr in Hwr3.
    assert (Hdec : holdsExports (p_updated pl) \/ ~ holdsExports (p_updated pl)).
    { destruct (p_updated pl); simpl; tauto. }
    destruct Hdec as [Hh|Hh].
    + rewrite (Hok Hh) in H. injection H as <- <-. auto.
    + destruct (Hbad Hh) as [e ->]. injection H as <- <-. simpl. auto.
  - intros [= <- <-]. left.
    destruct (plan_keeps R argv w _ _ Hplan) as [Hfs Hwr].
    rewrite (plan_exits1 R argv w _ _ Hplan).
    repeat split; auto; discriminate.
  - intros [= <- <-]. left.
    destruct (plan_keeps R argv w _ _ Hplan) as [Hfs Hwr].
    repeat split; auto; discriminate.
  - intros [= <- <-]. left.
    destruct (plan_keeps R argv w _ _ Hplan) as [Hfs Hwr].
    repeat split; auto; discriminate.
Qed.

End Commit.

(** ** A second run *)

Section Again.
Variable R : Runtime.




End Again.

(** ** On a POSIX host every run ends *)

Definition halts {A} (m : M A) : Prop := forall w w', m w <> (Diverge, w').

Lemma halts_ret {A} (x : A) : halts (ret x).
Proof. intros w w'. discriminate. Qed.

Lemma halts_exit {A} c : halts (@process_exit A c).
Proof. intros w w'. discriminate. Qed.


Lemma halts_console l : halts (console l).
Proof. intros w w'. discriminate. Qed.

Lemma halts_existsSync p : halts (fs_existsSync p).
Proof. intros w w'. discriminate. Qed.

Lemma halts_isDirectory p : halts (fs_statSync_isDirectory p).
Proof.
  intros w w'. unfold fs_statSync_isDirectory.
  destruct (lookup (w_fs w) p) as [[]|]; discriminate.
Qed.



Lemma halts_bind {A B} (m : M A) (k : A -> M B) :
  halts m -> (forall x, halts (k x)) -> halts (bind m k).
Proof.
  intros Hm Hk w w'. unfold bind.
  destruct (m w) as [[x| | |] w1] eqn:E; try discriminate.
  - apply Hk.
  - exfalso. exact (Hm w w1 E).
Qed.

Lemma halts_if {A} (c : bool) (m1 m2 : M A) :
  halts m1 -> halts m2 -> halts (if c then m1 else m2).
Proof. now destruct c. Qed.

Section Halts.
Variable R : Runtime.
Variable host : string.
Hypothesis Hposix : path R = Posix.posix host.



(** The walk towards the root ends within the fuel it is given. *)
Lemma halts_findNearestLoop fuel : forall dir rootDir,
  String.length dir + 2 <= fuel -> halts (findNearestLoop R fuel dir rootDir).
Proof.
  induction fuel as [|fuel IH]; intros dir rootDir Hfuel; [lia|].
  cbn [findNearestLoop]. apply halts_bind; [apply halts_existsSync|].
  intros found. apply halts_if; [apply halts_ret|].
  destruct ((dir =? rootDir) || (dirname (path R) dir =? dir))%bool eqn:E;
    [apply halts_ret|].
  apply orb_false_iff in E as [_ E]. apply String.eqb_neq in E.
  rewrite Hposix in *. simpl dirname in *.
  destruct (PosixFacts.dirname_shrinks dir) as [H|[H|[H Hfix]]].
  - contradiction.
  - apply IH. lia.
  - rewrite H. destruct fuel as [|fuel]; [lia|].
    cbn [findNearestLoop]. apply halts_bind; [apply halts_existsSync|].
    intros found'. apply halts_if; [apply halts_ret|].
    replace (dirname (path R) ".") with "." by (now rewrite Hposix).
    rewrite String.eqb_refl, orb_true_r. apply halts_ret.
Qed.

Lemma halts_resolvePaths buildDirArg pkgPathArg :
  halts (resolvePaths R buildDirArg pkgPathArg).
Proof.
  unfold resolvePaths.
  apply halts_bind; [apply halts_existsSync|]. intros present.
  apply halts_bind.
  { apply halts_if; [apply halts_isDirectory | apply halts_ret]. }
  intros isDir. apply halts_if.
  { apply halts_bind; [apply halts_console | intros _; apply halts_exit]. }
  apply halts_bind; [|intros p; apply halts_ret].
  destruct pkgPathArg as [[|c arg]|].
  2:{ apply halts_bind; [apply halts_existsSync|].
      intros found. apply halts_if; [apply halts_ret|].
      apply halts_bind; [apply halts_console | intros _; apply halts_exit]. }
  all: apply halts_bind;
    [unfold findNearestPackageJson; apply halts_findNearestLoop; lia|];
    intros nearest; apply halts_bind; [apply halts_existsSync|]; intros found;
    apply halts_if; [apply halts_ret|];
    apply halts_bind; [apply halts_console | intros _; apply halts_exit].
Qed.




End Halts.

End RunFacts.
(* ================================================================== *)
(** * Facts about the helpers of the script *)

Module MoreFacts.
Import JsString JsObject Node GenExports Notions.
Import JsStringFacts JsObjectFacts GenExportsFacts RunFacts.

(** ** The command line *)

Lemma printUsage_eq {A} w :
  @printUsage A w = (Exit 1, addLines w [Err usage]).
Proof. reflexivity. Qed.

Lemma unknownArgument_eq {A} arg w :
  @unknownArgument A arg w =
  (Exit 1, addLines w [Err ("Unknown argument: " ++ arg); Err usage]).
Proof.
  unfold unknownArgument, printUsage, bind, console_error, console,
    process_exit, addLine, addLines. simpl.
  now rewrite <- app_assoc.
Qed.

Lemma parseFlags_last arg st w :
  parseFlags [arg] st w = unknownArgument arg w.
Proof. reflexivity. Qed.

Lemma parseFlags_good arg next rest st :
  isFlag arg = true -> truthy next = true ->
  parseFlags (arg :: next :: rest) st = parseFlags rest (store arg next st).
Proof.
  intros Hf Hn. cbn [parseFlags]. unfold store, isFlag in *. rewrite Hn.
  rewrite !andb_true_r.
  destruct (arg =? "-i"); [reflexivity|].
  destruct (arg =? "--exclude"); [reflexivity|].
  destruct (arg =? "-p"); [reflexivity|].
  destruct (arg =? "--pkg"); [reflexivity|].
  simpl in Hf. simpl. now rewrite Hf.
Qed.

Lemma parseFlags_bad arg next rest st :
  isFlag arg && truthy next = false ->
  parseFlags (arg :: next :: rest) st = unknownArgument arg.
Proof.
  intros H. cbn [parseFlags]. unfold isFlag in H.
  destruct (truthy next).
  - rewrite andb_true_r in H. rewrite !andb_true_r.
    apply orb_false_iff in H as [H He2].
    apply orb_false_iff in H as [H He1].
    apply orb_false_iff in H as [H Hp2].
    apply orb_false_iff in H as [H Hp1].
    apply orb_false_iff in H as [Hi1 Hi2].
    now rewrite Hi1, Hi2, Hp1, Hp2, He1, He2.
  - now rewrite !andb_false_r.
Qed.

(** An induction over the words two by two. *)
Lemma pairs_ind (P : list string -> Prop) :
  P [] -> (forall a, P [a]) ->
  (forall a b l, P l -> P (a :: b :: l)) ->
  forall l, P l.
Proof.
  intros H0 H1 H2.
  assert (H : forall l, P l /\ forall a, P (a :: l)).
  { induction l as [|b l [IH IH']]; [auto|]. split; [apply IH' | intros a; now apply H2]. }
  intros l. apply H.
Qed.

Lemma accepted_even args : accepted args = true -> Nat.even (length args) = true.
Proof.
  induction args as [| a | a b l IH] using pairs_ind; [reflexivity | discriminate |].
  cbn [accepted]. intros H. apply andb_true_iff in H as [_ H]. now apply IH.
Qed.

Lemma parseFlags_accepted args : forall st w,
  accepted args = true -> parseFlags args st w = (Ret (stored args st), w).
Proof.
  induction args as [| a | a b l IH] using pairs_ind; intros st w H.
  - reflexivity.
  - discriminate.
  - cbn [accepted] in H. apply andb_true_iff in H as [H Hl].
    apply andb_true_iff in H as [Ha Hb].
    rewrite parseFlags_good by assumption. cbn [stored]. now apply IH.
Qed.

Lemma parseFlags_app a : forall b st w,
  Nat.even (length a) = true ->
  parseFlags (a ++ b) st w = bind (parseFlags a st) (parseFlags b) w.
Proof.
  induction a as [| x | x y l IH] using pairs_ind; intros b st w H.
  - reflexivity.
  - discriminate.
  - change ((x :: y :: l) ++ b)%list with (x :: y :: (l ++ b))%list.
    destruct (isFlag x && truthy y) eqn:E.
    + apply andb_true_iff in E as [Hx Hy].
      rewrite !parseFlags_good by assumption. now apply IH.
    + rewrite !parseFlags_bad by assumption.
      unfold bind. now rewrite unknownArgument_eq.
Qed.

Lemma stored_buildDirArg args : forall st,
  buildDirArg (stored args st) = buildDirArg st.
Proof.
  induction args as [| a | a b l IH] using pairs_ind; intros st; try reflexivity.
  cbn [stored]. rewrite IH. unfold store.
  destruct ((a =? "-i") || (a =? "--exclude")); [reflexivity|].
  destruct ((a =? "-p") || (a =? "--pkg")); reflexivity.
Qed.

(** The first word that [parseCliArgs] does not accept. *)
Lemma rejected_split args :
  accepted args = false ->
  exists good bad tail,
    args = (good ++ bad :: tail)%list /\ accepted good = true /\
    (isFlag bad = false \/ tail = [] \/ exists t, tail = "" :: t).
Proof.
  induction args as [| a | a b l IH] using pairs_ind; intros H.
  - discriminate.
  - exists [], a, []. auto.
  - cbn [accepted] in H.
    destruct (isFlag a) eqn:Ea.
    + destruct b as [|c b'] eqn:Eb.
      * exists [], a, ("" :: l). split; [reflexivity|]. split; [reflexivity|].
        right. right. now exists l.
      * simpl in H. destruct (IH H) as (good & bad & tail & -> & Hg & Hb).
        exists (a :: String c b' :: good), bad, tail.
        split; [reflexivity|]. split; [|exact Hb].
        cbn [accepted]. now rewrite Ea, Hg.
    + exists [], a, (b :: l). auto.
Qed.

Lemma parseFlags_rejected good bad tail st w :
  accepted good = true ->
  (isFlag bad = false \/ tail = [] \/ exists t, tail = "" :: t) ->
  parseFlags (good ++ bad :: tail) st w =
  (Exit 1, addLines w [Err ("Unknown argument: " ++ bad); Err usage]).
Proof.
  intros Hg Hb. rewrite parseFlags_app by now apply accepted_even.
  unfold bind. rewrite parseFlags_accepted by exact Hg.
  rewrite <- unknownArgument_eq.
  destruct tail as [|next t].
  - reflexivity.
  - rewrite parseFlags_bad; [reflexivity|].
    destruct Hb as [Hb|[Hb|[t' Hb]]].
    + now rewrite Hb.
    + discriminate.
    + injection Hb as -> _. apply andb_false_r.
Qed.

Lemma parseCliArgs_Ret argv w args w' :
  parseCliArgs argv w = (Ret args, w') ->
  exists dir flags,
    argv = dir :: flags /\ accepted flags = true /\ w' = w /\
    args = stored flags (mkCliArgs dir [] None "$RESERVED$").
Proof.
  destruct argv as [|dir flags]; [discriminate|]. cbn [parseCliArgs].
  destruct (accepted flags) eqn:E.
  - rewrite parseFlags_accepted by exact E. intros [= <- <-].
    exists dir, flags. auto.
  - destruct (rejected_split _ E) as (good & bad & tail & -> & Hg & Hb).
    rewrite parseFlags_rejected by assumption. discriminate.
Qed.

(** A property of the parsed options that the defaults have and every
    accepted option keeps holds of the result. *)
Lemma stored_invariant (P : CliArgs -> Prop) args : forall st,
  (forall arg next st0,
      isFlag arg = true -> next <> "" -> P st0 -> P (store arg next st0)) ->
  accepted args = true -> P st -> P (stored args st).
Proof.
  induction args as [| a | a b l IH] using pairs_ind; intros st Hstep Hacc Hst.
  - exact Hst.
  - discriminate.
  - cbn [accepted] in Hacc. apply andb_true_iff in Hacc as [H Hl].
    apply andb_true_iff in H as [Ha Hb]. cbn [stored].
    apply IH; [exact Hstep | exact Hl |].
    apply Hstep; [exact Ha | now apply truthy_true | exact Hst].
Qed.

Lemma trim_occurs c s : occurs c (trim s) -> occurs c s.
Proof.
  intros H. destruct (trim_spec s) as (l & r & Hs & _).
  rewrite Hs. apply occurs_append. right. apply occurs_append. now left.
Qed.

(** An override path that was parsed is not empty. *)
Lemma override_not_empty argv w w' args p :
  parseCliArgs argv w = (Ret args, w') -> pkgPathArg args = Some p -> p <> "".
Proof.
  intros H.
  apply parseCliArgs_Ret in H as (dir & flags & -> & Hacc & -> & ->).
  revert p.
  apply (stored_invariant (fun st => forall p, pkgPathArg st = Some p -> p <> ""));
    [|exact Hacc|discriminate].
  intros arg next st Hf Hn Ho. unfold store.
  destruct ((arg =? "-i") || (arg =? "--exclude")); [exact Ho|].
  destruct ((arg =? "-p") || (arg =? "--pkg")); [|exact Ho].
  cbn [pkgPathArg]. intros p [= <-]. exact Hn.
Qed.

(** ** The upward search *)

Lemma findNearestLoop_spec (R : Runtime) root : forall fuel dir w out w',
  findNearestLoop R fuel dir root w = (out, w') ->
  w' = w /\
  exists k,
    k <= fuel
    /\ (forall j, j < k ->
          existsSync (w_fs w) (candidate (path R) j dir) = false
          /\ above (path R) j dir <> root
          /\ above (path R) (S j) dir <> above (path R) j dir)
    /\ match out with
       | Ret (Some c) =>
           c = candidate (path R) k dir /\ existsSync (w_fs w) c = true
       | Ret None =>
           existsSync (w_fs w) (candidate (path R) k dir) = false
           /\ (above (path R) k dir = root
               \/ above (path R) (S k) dir = above (path R) k dir)
       | Diverge => k = fuel
       | _ => False
       end.
Proof.
  induction fuel as [|fuel IH]; intros dir w out w' H.
  - injection H as <- <-. split; [reflexivity|]. exists 0.
    split; [lia|]. split; [intros j Hj; lia | reflexivity].
  - cbn [findNearestLoop] in H. unfold bind, fs_existsSync in H.
    destruct (existsSync (w_fs w) (join (path R) dir "package.json")) eqn:Ex.
    + injection H as <- <-. split; [reflexivity|]. exists 0.
      split; [lia|]. split; [intros j Hj; lia|]. split; [reflexivity | exact Ex].
    + destruct ((dir =? root) || (dirname (path R) dir =? dir)) eqn:Estop.
      * injection H as <- <-. split; [reflexivity|]. exists 0.
        split; [lia|]. split; [intros j Hj; lia|]. split; [exact Ex|].
        apply orb_true_iff in Estop as [E|E]; apply String.eqb_eq in E; auto.
      * apply orb_false_iff in Estop as [E1 E2].
        apply String.eqb_neq in E1, E2.
        apply IH in H as (-> & k & Hk & Hbelow & Hout).
        split; [reflexivity|]. exists (S k). split; [lia|]. split.
        -- intros [|j] Hj.
           ++ auto.
           ++ apply (Hbelow j). lia.
        -- destruct out as [[c|]| | |]; try exact Hout.
           now subst k.
Qed.

(** ** The paths *)

(** Running a stage of which the file system tests are known. *)
Ltac known E :=
  repeat progress (rewrite ?E; cbn [negb orb andb]; cbv beta iota).

Section Paths.
Variable R : Runtime.

Lemma resolvePaths_no_build_dir buildDirArg pkgPathArg w :
  lookup (w_fs w) (resolve (path R) [cwd R; buildDirArg]) <> Some Dir ->
  resolvePaths R buildDirArg pkgPathArg w =
  (Exit 1,
   addLine w (Err ("Error: build directory not found or not a directory: "
                   ++ resolve (path R) [cwd R; buildDirArg]))).
Proof.
  intros H.
  destruct (lookup (w_fs w) (resolve (path R) [cwd R; buildDirArg]))
    as [[c|]|] eqn:E; [|now contradiction H|];
    unfold resolvePaths, bind, fs_existsSync, existsSync,
      fs_statSync_isDirectory; repeat (rewrite E; cbv beta iota); reflexivity.
Qed.

Lemma resolvePaths_override buildDirArg arg w :
  arg <> "" ->
  lookup (w_fs w) (resolve (path R) [cwd R; buildDirArg]) = Some Dir ->
  resolvePaths R buildDirArg (Some arg) w =
  if existsSync (w_fs w) (resolve (path R) [cwd R; arg])
  then (Ret (mkPaths (resolve (path R) [cwd R; arg])
                     (dirname (path R) (resolve (path R) [cwd R; arg]))
                     (resolve (path R) [cwd R; buildDirArg])), w)
  else (Exit 1,
        addLine w (Err ("Error: package.json not found at override path: "
                        ++ resolve (path R) [cwd R; arg]))).
Proof.
  intros Harg Hdir. destruct arg as [|c arg]; [congruence|].
  destruct (lookup (w_fs w) (resolve (path R) [cwd R; String c arg])) eqn:Ep;
    unfold resolvePaths, bind, fs_existsSync, existsSync,
      fs_statSync_isDirectory; known Hdir; known Ep; reflexivity.
Qed.

(** Without an override: the nearest manifest, or the one of the
    working directory. *)
Lemma resolvePaths_search buildDirArg pkgPathArg w nearest :
  pkgPathArg = None \/ pkgPathArg = Some "" ->
  lookup (w_fs w) (resolve (path R) [cwd R; buildDirArg]) = Some Dir ->
  findNearestPackageJson R (resolve (path R) [cwd R; buildDirArg]) (cwd R) w
    = (Ret nearest, w) ->
  let buildPath := resolve (path R) [cwd R; buildDirArg] in
  let pkgPath :=
    match nearest with
    | Some p => p
    | None => join (path R) (cwd R) "package.json"
    end in
  resolvePaths R buildDirArg pkgPathArg w =
  if existsSync (w_fs w) pkgPath
  then (Ret (mkPaths pkgPath (dirname (path R) pkgPath) buildPath), w)
  else (Exit 1,
        addLine w (Err ("Error: could not locate any package.json (tried "
                        ++ buildPath ++ " → " ++ cwd R ++ ")"))).
Proof.
  intros Hnone Hdir Hnear. cbv zeta.
  destruct (lookup (w_fs w)
              match nearest with
              | Some p => p
              | None => join (path R) (cwd R) "package.json"
              end) eqn:Ep;
    unfold resolvePaths, bind, fs_existsSync, existsSync,
      fs_statSync_isDirectory; known Hdir;
    destruct Hnone as [-> | ->]; known Hnear; known Ep; reflexivity.
Qed.

Lemma resolvePaths_Ret buildDirArg pkgPathArg w paths w' :
  resolvePaths R buildDirArg pkgPathArg w = (Ret paths, w') ->
  w' = w
  /\ distDir paths = resolve (path R) [cwd R; buildDirArg]
  /\ lookup (w_fs w) (distDir paths) = Some Dir
  /\ existsSync (w_fs w) (pkgPath paths) = true
  /\ pkgDir paths = dirname (path R) (pkgPath paths)
  /\ (forall arg, pkgPathArg = Some arg -> arg <> "" ->
        pkgPath paths = resolve (path R) [cwd R; arg])
  /\ (pkgPathArg = None \/ pkgPathArg = Some "" ->
        exists nearest,
          findNearestPackageJson R (distDir paths) (cwd R) w = (Ret nearest, w)
          /\ pkgPath paths =
             match nearest with
             | Some p => p
             | None => join (path R) (cwd R) "package.json"
             end).
Proof.
  intros H.
  destruct (lookup (w_fs w) (resolve (path R) [cwd R; buildDirArg]))
    as [[c|]|] eqn:Hdir.
  1,3: rewrite resolvePaths_no_build_dir in H by congruence; discriminate.
  assert (Hcases : (exists arg, pkgPathArg = Some arg /\ arg <> "")
                   \/ pkgPathArg = None \/ pkgPathArg = Some "").
  { destruct pkgPathArg as [[|a s]|]; auto. left. eexists. split; [reflexivity|].
    discriminate. }
  destruct Hcases as [(arg & -> & Harg) | Hnone].
  - rewrite resolvePaths_override in H by assumption.
    destruct (existsSync (w_fs w) (resolve (path R) [cwd R; arg])) eqn:Ex;
      [|discriminate].
    injection H as <- <-. cbn [distDir pkgPath pkgDir].
    repeat split; auto.
    + now intros arg' [= <-] _.
    + intros [Hn|Hn]; [discriminate | congruence].
  - destruct (findNearestPackageJson R (resolve (path R) [cwd R; buildDirArg])
                (cwd R) w) as [out w1] eqn:Hnear.
    pose proof Hnear as Hspec. unfold findNearestPackageJson in Hspec.
    apply findNearestLoop_spec in Hspec as (-> & _).
    destruct out as [nearest|c|e|].
    + rewrite (resolvePaths_search _ _ _ nearest Hnone Hdir Hnear) in H.
      cbv zeta in H.
      destruct (existsSync (w_fs w) _) eqn:Ex; [|discriminate].
      injection H as <- <-. cbn [distDir pkgPath pkgDir].
      repeat split; auto.
      * intros arg -> Harg. destruct Hnone as [Hn|Hn]; congruence.
      * intros _. now exists nearest.
    + exfalso. revert H.
      unfold resolvePaths, bind, fs_existsSync, existsSync, fs_statSync_isDirectory.
      known Hdir. destruct Hnone as [-> | ->]; known Hnear; discriminate.
    + exfalso. revert H.
      unfold resolvePaths, bind, fs_existsSync, existsSync, fs_statSync_isDirectory.
      known Hdir. destruct Hnone as [-> | ->]; known Hnear; discriminate.
    + exfalso. revert H.
      unfold resolvePaths, bind, fs_existsSync, existsSync, fs_statSync_isDirectory.
      known Hdir. destruct Hnone as [-> | ->]; known Hnear; discriminate.
Qed.

(** [resolvePaths] returns, or exits with code 1 after one line of
    error, unless the search does not end. *)
Lemma resolvePaths_outcome buildDirArg pkgPathArg w out w' :
  resolvePaths R buildDirArg pkgPathArg w = (out, w') ->
  (exists paths, out = Ret paths)
  \/ (out = Exit 1 /\ exists message, w' = addLine w (Err message))
  \/ out = Diverge.
Proof.
  intros H.
  destruct (lookup (w_fs w) (resolve (path R) [cwd R; buildDirArg]))
    as [[c|]|] eqn:Hdir.
  1,3: rewrite resolvePaths_no_build_dir in H by congruence;
       injection H as <- <-; right; left; eauto.
  assert (Hcases : (exists arg, pkgPathArg = Some arg /\ arg <> "")
                   \/ pkgPathArg = None \/ pkgPathArg = Some "").
  { destruct pkgPathArg as [[|a s]|]; auto. left. eexists. split; [reflexivity|].
    discriminate. }
  destruct Hcases as [(arg & -> & Harg) | Hnone].
  - rewrite resolvePaths_override in H by assumption.
    destruct (existsSync (w_fs w) (resolve (path R) [cwd R; arg]));
      injection H as <- <-; [left | right; left]; eauto.
  - destruct (findNearestPackageJson R (resolve (path R) [cwd R; buildDirArg])
                (cwd R) w) as [near w1] eqn:Hnear.
    pose proof Hnear as Hspec. unfold findNearestPackageJson in Hspec.
    apply findNearestLoop_spec in Hspec as (-> & k & _ & _ & Hout).
    destruct near as [nearest|c|e|]; [| contradiction | contradiction |].
    + rewrite (resolvePaths_search _ _ _ nearest Hnone Hdir Hnear) in H.
      cbv zeta in H.
      destruct (existsSync (w_fs w) _);
        injection H as <- <-; [left | right; left]; eauto.
    + right. right. revert H.
      unfold resolvePaths, bind, fs_existsSync, existsSync, fs_statSync_isDirectory.
      known Hdir. destruct Hnone as [-> | ->]; known Hnear; now intros [= <- _].
Qed.

(** A run in which [resolvePaths] exits. *)
Lemma run_paths_exit argv w args c w1 :
  parseCliArgs argv w = (Ret args, w) ->
  resolvePaths R (buildDirArg args) (pkgPathArg args) w = (Exit c, w1) ->
  run R argv w = (Some c, w1).
Proof.
  intros Hp Hr. unfold run, main. unfold bind at 1. rewrite Hp.
  unfold bind at 1. now rewrite Hr.
Qed.

End Paths.

(** ** The order of enumeration *)

Lemma NoDup_app_intro {A} (l1 l2 : list A) :
  NoDup l1 -> NoDup l2 -> (forall x, In x l1 -> ~ In x l2) -> NoDup (l1 ++ l2).
Proof.
  intros H1 H2 Hd. induction H1 as [|x l1 Hx H1 IH]; [exact H2|].
  simpl. constructor.
  - rewrite in_app_iff. intros [H|H]; [contradiction|].
    apply (Hd x); [now left | exact H].
  - apply IH. intros y Hy. apply Hd. now right.
Qed.

Lemma NoDup_insertIndex x l :
  NoDup (map snd (insertIndex x l)) <-> NoDup (snd x :: map snd l).
Proof.
  induction l as [|y l IH]; simpl; [tauto|].
  destruct (fst x <=? fst y)%N; simpl; [tauto|].
  split.
  - intros H. inversion H as [|? ? Hy Hl]; subst.
    apply IH in Hl. inversion Hl as [|? ? Hx Hl']; subst.
    constructor.
    + intros [E|Hin]; [|contradiction].
      apply Hy. rewrite E.
      apply in_map_iff. exists x. split; [reflexivity|].
      apply In_insertIndex. now left.
    + constructor; [|exact Hl'].
      intros Hin. apply Hy. apply in_map_iff in Hin as (z & Hz & Hin).
      apply in_map_iff. exists z. split; [exact Hz|].
      apply In_insertIndex. now right.
  - intros H. inversion H as [|? ? Hx Hl]; subst.
    inversion Hl as [|? ? Hy Hl']; subst.
    constructor.
    + intros Hin. apply in_map_iff in Hin as (z & Hz & Hin).
      apply In_insertIndex in Hin as [->|Hin].
      * apply Hx. now left.
      * apply Hy. apply in_map_iff. now exists z.
    + apply IH. constructor; [|exact Hl'].
      intros Hin. apply Hx. now right.
Qed.

Lemma map_snd_sortIndex_In k l :
  In k (map snd (sortIndex l)) <-> In k (map snd l).
Proof.
  rewrite !in_map_iff. split; intros (z & Hz & Hin); exists z;
    (split; [exact Hz|]); now apply In_sortIndex.
Qed.

Lemma NoDup_sortIndex l : NoDup (map snd l) -> NoDup (map snd (sortIndex l)).
Proof.
  induction l as [|x l IH]; simpl; [auto|].
  intros H. inversion H as [|? ? Hx Hl]; subst.
  apply NoDup_insertIndex. constructor; [|now apply IH].
  now rewrite map_snd_sortIndex_In.
Qed.

Lemma In_map_snd_indexKeys k ks :
  In k (map snd (indexKeys ks)) <-> In k ks /\ arrayIndex k <> None.
Proof.
  rewrite in_map_iff. split.
  - intros ([n k'] & <- & Hin). apply In_indexKeys in Hin as [Hin Hn].
    simpl. split; [exact Hin | congruence].
  - intros [Hin Hn]. destruct (arrayIndex k) as [n|] eqn:E; [|congruence].
    exists (n, k). split; [reflexivity|]. now apply In_indexKeys.
Qed.

Lemma NoDup_indexKeys ks : NoDup ks -> NoDup (map snd (indexKeys ks)).
Proof.
  induction 1 as [|k ks Hk Hnd IH]; simpl; [constructor|].
  destruct (arrayIndex k) as [n|]; [|exact IH].
  simpl. constructor; [|exact IH].
  intros Hin. apply In_map_snd_indexKeys in Hin as [Hin _]. contradiction.
Qed.

Lemma NoDup_nameKeys ks : NoDup ks -> NoDup (nameKeys ks).
Proof.
  induction 1 as [|k ks Hk Hnd IH]; simpl; [constructor|].
  destruct (arrayIndex k) as [n|]; [exact IH|].
  constructor; [|exact IH].
  intros Hin. apply In_nameKeys in Hin as [Hin _]. contradiction.
Qed.

Lemma NoDup_enumOrder ks : NoDup ks -> NoDup (enumOrder ks).
Proof.
  intros H. unfold enumOrder. apply NoDup_app_intro.
  - now apply NoDup_sortIndex, NoDup_indexKeys.
  - now apply NoDup_nameKeys.
  - intros k Hi Hn. apply map_snd_sortIndex_In, In_map_snd_indexKeys in Hi as [_ Hi].
    apply In_nameKeys in Hn as [_ Hn]. contradiction.
Qed.

Lemma NoDup_ownKeys {A} (o : Obj A) : NoDup (keys o) -> NoDup (ownKeys o).
Proof. apply NoDup_enumOrder. Qed.

(** ** The module paths in the order of the listing *)

Lemma In_distinct x l : In x (distinct l) <-> In x l.
Proof.
  induction l as [|y l IH]; simpl; [tauto|].
  rewrite filter_In, IH. split.
  - intros [->|[H _]]; auto.
  - intros [->|H]; [now left|].
    destruct (String.eqb_spec x y) as [->|Hne]; [now left | right; auto].
Qed.

Lemma NoDup_filter {A} (f : A -> bool) l : NoDup l -> NoDup (filter f l).
Proof.
  induction 1 as [|x l Hx Hnd IH]; simpl; [constructor|].
  destruct (f x); [|exact IH]. constructor; [|exact IH].
  rewrite filter_In. tauto.
Qed.

Lemma NoDup_distinct l : NoDup (distinct l).
Proof.
  induction l as [|x l IH]; simpl; constructor.
  - rewrite filter_In, String.eqb_refl. intros [_ H]. discriminate.
  - now apply NoDup_filter.
Qed.

Lemma filter_filter {A} (f g : A -> bool) l :
  filter f (filter g l) = filter (fun x => g x && f x) l.
Proof.
  induction l as [|x l IH]; simpl; [reflexivity|].
  destruct (g x); simpl; [destruct (f x); now rewrite IH | exact IH].
Qed.

Lemma includesName_app ks b y :
  includesName (ks ++ [b]) y = includesName ks y || (y =? b).
Proof.
  unfold includesName. rewrite existsb_app. simpl. now rewrite orb_false_r.
Qed.

Lemma fold_seen l : forall ks,
  fold_left seen l ks =
  (ks ++ filter (fun y => negb (includesName ks y)) (distinct l))%list.
Proof.
  induction l as [|x l IH]; intros ks; simpl.
  - now rewrite app_nil_r.
  - rewrite IH. unfold seen. destruct (includesName ks x) eqn:Ex; simpl.
    + f_equal. rewrite filter_filter. apply filter_ext_in. intros y _.
      destruct (String.eqb_spec y x) as [->|Hne]; [now rewrite Ex | reflexivity].
    + rewrite <- app_assoc. simpl. f_equal. f_equal.
      rewrite filter_filter. apply filter_ext. intros y.
      rewrite includesName_app, negb_orb. apply andb_comm.
Qed.

Lemma keys_groupStep (G : Grouping) file :
  keys (groupStep G file) =
  match classify file with
  | Some (b, _) => if b =? "__proto__" then keys G else seen (keys G) b
  | None => keys G
  end.
Proof.
  unfold groupStep. destruct (classify file) as [[b e]|]; [|reflexivity].
  destruct (b =? "__proto__"); [reflexivity|]. cbn [own].
  rewrite keys_set. unfold seen.
  destruct (get b G) as [g|] eqn:Eg.
  - apply get_In_keys in Eg. apply includesName_spec in Eg. now rewrite Eg.
  - apply get_None_notin in Eg.
    destruct (includesName (keys G) b) eqn:Ei; [|reflexivity].
    now apply includesName_spec in Ei.
Qed.

Lemma keys_fold_groupStep files : forall G : Grouping,
  keys (fold_left groupStep files G) = fold_left seen (ownBases files) (keys G).
Proof.
  induction files as [|f files IH]; intros G; [reflexivity|].
  unfold ownBases in *. cbn [fold_left bases flat_map].
  rewrite IH, keys_groupStep, filter_app.
  destruct (classify f) as [[b e]|]; [|reflexivity].
  cbn [filter app]. destruct (b =? "__proto__"); reflexivity.
Qed.

(** The groups are created in the order in which their module paths
    first occur in the listing; the module path [__proto__] gets no
    group. *)
Lemma keys_groupFiles_any files :
  keys (groupFiles files) = distinct (ownBases files).
Proof.
  unfold groupFiles. rewrite keys_fold_groupStep, fold_seen. simpl.
  induction (distinct (ownBases files)) as [|x l IH]; simpl; [reflexivity|].
  now rewrite IH.
Qed.

Lemma In_bases b files :
  In b (bases files) <-> exists e, In (artifact b e) files.
Proof.
  unfold bases. rewrite in_flat_map. split.
  - intros (f & Hin & Hb). destruct (classify f) as [[b' e]|] eqn:Ec; [|destruct Hb].
    destruct Hb as [->|[]]. apply classify_inv in Ec. subst f. now exists e.
  - intros [e Hin]. exists (artifact b e). split; [exact Hin|].
    rewrite classify_artifact. now left.
Qed.

Lemma ownBases_ordinary files : ordinary files -> ownBases files = bases files.
Proof.
  intros Hord. unfold ownBases. apply forallb_filter_id, forallb_forall.
  intros b [e Hin]%In_bases. apply negb_true_iff, String.eqb_neq.
  exact (ordinary_artifact files b e Hord Hin).
Qed.

Lemma keys_groupFiles files :
  ordinary files -> keys (groupFiles files) = distinct (bases files).
Proof.
  intros Hord. now rewrite keys_groupFiles_any, (ownBases_ordinary files Hord).
Qed.

(** ** The loop over the groups, in order *)

Section Order.
Variable R : Runtime.
Variable opts : Options.
Variable G : Grouping.

Let step (w : World) := stepResult R (w_fs w) opts G.

Lemma loop_order ks : forall m w m' w',
  NoDup ks ->
  (forall k, In k ks -> get ("./" ++ k) m = None) ->
  forEachM (exportStep R opts G) ks m w = (Ret m', w') ->
  keys m' =
    (keys m ++ map (append "./") (filter (fun k => isKept (step w k)) ks))%list
  /\ w' = addLines w
            (flat_map (fun k => warningOf (o_placeholder opts) (step w k)) ks).
Proof.
  induction ks as [|k ks IH]; intros m w m' w' Hnd Hfresh H.
  - injection H as <- <-. simpl. now rewrite app_nil_r, addLines_nil.
  - inversion Hnd as [|? ? Hk Hnd']; subst.
    cbn [forEachM] in H. unfold bind in H. rewrite exportStep_eq in H.
    fold (step w k) in H. cbn [filter flat_map].
    destruct (step w k) as [|f|e0|entry] eqn:Ek; [| |discriminate|].
    + apply IH in H as [Hm Hw]; [|exact Hnd'|intros; apply Hfresh; now right].
      cbn [isKept warningOf]. now rewrite Hm, Hw.
    + apply IH in H as [Hm Hw]; [|exact Hnd'|intros; apply Hfresh; now right].
      cbn [isKept warningOf]. unfold step in *. cbn [w_fs addLine] in *.
      rewrite Hm, Hw, addLine_addLines, addLines_app. auto.
    + apply IH in H as [Hm Hw]; [|exact Hnd'|].
      * cbn [isKept warningOf map]. split; [|exact Hw].
        rewrite Hm, keys_set, (Hfresh k (or_introl eq_refl)), <- app_assoc.
        reflexivity.
      * intros k' Hin. rewrite get_set_other.
        -- apply Hfresh. now right.
        -- intros E. apply append_inv_head in E. now subst k'.
Qed.

(** A turn of the loop returns or throws, and leaves the files alone. *)
Lemma loop_outcome ks : forall m w out w',
  forEachM (exportStep R opts G) ks m w = (out, w') ->
  w_fs w' = w_fs w /\ w_writes w' = w_writes w
  /\ ((exists m', out = Ret m')
      \/ exists k e, In k ks /\ step w k = Failed e /\ out = Throw e).
Proof.
  induction ks as [|k ks IH]; intros m w out w' H.
  - injection H as <- <-. split; [reflexivity|]. split; [reflexivity|].
    left. now exists m.
  - cbn [forEachM] in H. unfold bind in H. rewrite exportStep_eq in H.
    fold (step w k) in H.
    destruct (step w k) as [|f|e0|entry] eqn:Ek.
    + apply IH in H as (Hfs & Hwr & [Hr|(k' & e & Hin & Hs & Ho)]).
      * auto.
      * split; [exact Hfs|]. split; [exact Hwr|]. right. exists k', e. simpl. auto.
    + apply IH in H as (Hfs & Hwr & [Hr|(k' & e & Hin & Hs & Ho)]).
      * auto.
      * split; [exact Hfs|]. split; [exact Hwr|]. right. exists k', e.
        unfold step in *. simpl in *. auto.
    + injection H as <- <-. split; [reflexivity|]. split; [reflexivity|].
      right. exists k, e0. simpl. auto.
    + apply IH in H as (Hfs & Hwr & [Hr|(k' & e & Hin & Hs & Ho)]).
      * auto.
      * split; [exact Hfs|]. split; [exact Hwr|]. right. exists k', e. simpl. auto.
Qed.

End Order.

(** ** The groups depend on the set of files only *)

Lemma option_ext {A} (a b : option A) :
  (forall x, a = Some x <-> b = Some x) -> a = b.
Proof.
  intros H. destruct a as [x|].
  - symmetry. now apply H.
  - destruct b as [y|]; [|reflexivity]. now apply H.
Qed.

Lemma ordinary_ext files files' :
  (forall f, In f files <-> In f files') -> ordinary files -> ordinary files'.
Proof. intros Hsame [H1 H2]. split; now rewrite <- Hsame. Qed.

Lemma groupFiles_ext files files' :
  ordinary files ->
  (forall f, In f files <-> In f files') ->
  forall b, get b (groupFiles files) = get b (groupFiles files').
Proof.
  intros Hord Hsame b.
  pose proof (ordinary_ext files files' Hsame Hord) as Hord'.
  pose proof (proj2 (proj2 (groupFiles_Grouped files Hord)) b) as H.
  pose proof (proj2 (proj2 (groupFiles_Grouped files' Hord')) b) as H'.
  destruct (get b (groupFiles files)) as [[g|s]|],
           (get b (groupFiles files')) as [[g'|s']|];
    try contradiction.
  - destruct H as [_ H], H' as [_ H']. do 2 f_equal.
    assert (Hjs : g_js g = g_js g').
    { apply option_ext. intros f. rewrite (H ExtJs f), (H' ExtJs f), Hsame. tauto. }
    assert (Hdts : g_dts g = g_dts g').
    { apply option_ext. intros f. rewrite (H ExtDts f), (H' ExtDts f), Hsame. tauto. }
    destruct g, g'. simpl in *. now subst.
  - exfalso. destruct H as [[e He] _]. apply (H' e). now apply Hsame.
  - exfalso. destruct H' as [[e He] _]. apply (H e). now apply Hsame.
  - reflexivity.
Qed.

Lemma fieldsOf_ext files files' :
  ordinary files ->
  (forall f, In f files <-> In f files') ->
  forall b, fieldsOf (groupFiles files) b = fieldsOf (groupFiles files') b.
Proof.
  intros Hord Hsame b.
  pose proof (ordinary_ext files files' Hsame Hord) as Hord'.
  unfold fieldsOf, valueOf, readExt.
  rewrite (groupFiles_proto files Hord), (groupFiles_proto files' Hord').
  now rewrite (groupFiles_ext files files' Hord Hsame b).
Qed.

Lemma stepResult_ext (R : Runtime) fs opts (G G' : Grouping) b :
  fieldsOf G b = fieldsOf G' b ->
  stepResult R fs opts G b = stepResult R fs opts G' b.
Proof. intros H. unfold stepResult. now rewrite H. Qed.

Lemma keys_groupFiles_ext files files' :
  ordinary files ->
  (forall f, In f files <-> In f files') ->
  forall b, In b (keys (groupFiles files)) <-> In b (keys (groupFiles files')).
Proof.
  intros Hord Hsame b.
  rewrite !In_keys_groupFiles;
    [|exact (ordinary_ext files files' Hsame Hord) | exact Hord].
  split; intros [e He]; exists e; now apply Hsame.
Qed.

(** ** What a turn of the loop does, in terms of the files *)

Section Turn.
Variable R : Runtime.
Variable opts : Options.
Variable files : list string.
Hypothesis Hord : ordinary files.
Variable fs : FS.

Let G := groupFiles files.

Lemma probe_field b g e :
  get b G = Some (SObj g) ->
  probe R fs opts (getExt e g) =
  match getExt e g with
  | Some _ => probe R fs opts (Some (artifact b e))
  | None => Clean
  end
  /\ (getExt e g <> None <-> In (artifact b e) files).
Proof.
  intros Hg. pose proof (proj2 (proj2 (groupFiles_Grouped files Hord)) b) as H.
  fold G in H. rewrite Hg in H. destruct H as [_ H].
  destruct (getExt e g) as [f|] eqn:Ef.
  - apply H in Ef as [-> Hin]. split; [reflexivity|]. split; [auto | discriminate].
  - split; [reflexivity|]. split; [congruence|].
    intros Hin. assert (E : getExt e g = Some (artifact b e)) by now apply H.
    congruence.
Qed.

Lemma probe_artifact_cases f :
  match probe R fs opts (Some f) with
  | Clean => readable R opts fs f /\ ~ marked R opts fs f
  | Marked f' => f' = f /\ readable R opts fs f /\ marked R opts fs f
  | Unreadable _ => ~ readable R opts fs f
  end.
Proof.
  unfold probe, readable, marked, readFile.
  destruct (lookup fs (join (path R) (o_distDir opts) f)) as [[c|]|].
  - destruct (includes c (o_placeholder opts)) eqn:Ei.
    + split; [reflexivity|]. split; exists c; auto.
    + split; [now exists c|]. intros (c' & [= <-] & H). congruence.
  - intros [c H]. discriminate.
  - intros [c H]. discriminate.
Qed.

(** A turn fails exactly on a module that is not excluded by name and
    of which an artifact that has to be read cannot be read. *)
Lemma step_Failed_iff b :
  In b (keys G) ->
  (exists e, stepResult R fs opts G b = Failed e) <->
  includesName (o_excludeNames opts) (basename (path R) b) = false
  /\ ((In (b ++ ".js") files /\ ~ readable R opts fs (b ++ ".js"))
      \/ (In (b ++ ".d.ts") files /\ ~ readable R opts fs (b ++ ".d.ts")
          /\ (In (b ++ ".js") files -> ~ marked R opts fs (b ++ ".js")))).
Proof.
  intros [g Hg]%(groupFiles_slot files b Hord). fold G in Hg.
  pose proof (groupFiles_fieldsOf files b g Hord Hg) as Hfields.
  fold G in Hfields.
  destruct (probe_field b g ExtJs Hg) as [Pjs Ijs].
  destruct (probe_field b g ExtDts Hg) as [Pdts Idts].
  unfold artifact in Pjs, Pdts, Ijs, Idts. cbn [getExt extSuffix] in *.
  pose proof (probe_artifact_cases (b ++ ".js")) as Cjs.
  pose proof (probe_artifact_cases (b ++ ".d.ts")) as Cdts.
  unfold stepResult. rewrite Hfields, Pjs, Pdts.
  destruct (includesName _ _).
  { split; [intros [e H]; discriminate | intros [H _]; discriminate]. }
  destruct (g_js g) as [fj|].
  - assert (Hj : In (b ++ ".js") files) by (apply Ijs; discriminate).
    destruct (probe R fs opts (Some (b ++ ".js"))) as [|f1|e1].
    + destruct Cjs as [Rj Mj].
      destruct (g_dts g) as [fd|].
      * assert (Hd : In (b ++ ".d.ts") files) by (apply Idts; discriminate).
        destruct (probe R fs opts (Some (b ++ ".d.ts"))) as [|f2|e2].
        -- destruct Cdts as [Rd _]. split; [intros [e H]; discriminate|].
           intros [_ [[_ H]|[_ [H _]]]]; contradiction.
        -- destruct Cdts as (_ & Rd & _). split; [intros [e H]; discriminate|].
           intros [_ [[_ H]|[_ [H _]]]]; contradiction.
        -- split; [|intros _; now exists e2]. intros _. split; [reflexivity|].
           right. auto.
      * split; [intros [e H]; discriminate|].
        intros [_ [[_ H]|[H _]]]; [contradiction|].
        apply Idts in H. congruence.
    + destruct Cjs as (_ & Rj & Mj). split; [intros [e H]; discriminate|].
      intros [_ [[_ H]|[_ [_ H]]]]; [contradiction | exfalso; now apply H].
    + split; [|intros _; now exists e1]. intros _. split; [reflexivity|].
      left. auto.
  - assert (Hj : ~ In (b ++ ".js") files) by (intros H; apply Ijs in H; congruence).
    destruct (g_dts g) as [fd|].
    + assert (Hd : In (b ++ ".d.ts") files) by (apply Idts; discriminate).
      destruct (probe R fs opts (Some (b ++ ".d.ts"))) as [|f2|e2].
      * destruct Cdts as [Rd _]. split; [intros [e H]; discriminate|].
        intros [_ [[H _]|[_ [H _]]]]; contradiction.
      * destruct Cdts as (_ & Rd & _). split; [intros [e H]; discriminate|].
        intros [_ [[H _]|[_ [H _]]]]; contradiction.
      * split; [|intros _; now exists e2]. intros _. split; [reflexivity|].
        right. split; [exact Hd|]. split; [exact Cdts|]. intros H. contradiction.
    + split; [intros [e H]; discriminate|].
      intros [_ [[H _]|[H _]]]; [contradiction|].
      apply Idts in H. congruence.
Qed.

(** A turn warns about the runtime artifact when it is marked, and
    about the declaration when the runtime artifact is absent or clean
    and the declaration is marked. *)
Lemma step_Skipped_iff b f :
  In b (keys G) ->
  (forall e, stepResult R fs opts G b <> Failed e) ->
  stepResult R fs opts G b = SkippedFor f <->
  includesName (o_excludeNames opts) (basename (path R) b) = false
  /\ ((f = b ++ ".js" /\ In f files /\ marked R opts fs f)
      \/ (f = b ++ ".d.ts" /\ In f files /\ marked R opts fs f
          /\ (In (b ++ ".js") files -> ~ marked R opts fs (b ++ ".js")))).
Proof.
  intros [g Hg]%(groupFiles_slot files b Hord). fold G in Hg.
  pose proof (groupFiles_fieldsOf files b g Hord Hg) as Hfields.
  fold G in Hfields.
  destruct (probe_field b g ExtJs Hg) as [Pjs Ijs].
  destruct (probe_field b g ExtDts Hg) as [Pdts Idts].
  unfold artifact in Pjs, Pdts, Ijs, Idts. cbn [getExt extSuffix] in *.
  pose proof (probe_artifact_cases (b ++ ".js")) as Cjs.
  pose proof (probe_artifact_cases (b ++ ".d.ts")) as Cdts.
  assert (Hne : b ++ ".d.ts" <> b ++ ".js").
  { intros E. apply (artifact_inj b ExtDts b ExtJs) in E as [_ E]. discriminate. }
  unfold stepResult. rewrite Hfields, Pjs, Pdts.
  destruct (includesName _ _).
  { intros _. split; [discriminate | intros [H _]; discriminate]. }
  destruct (g_js g) as [fj|].
  - assert (Hj : In (b ++ ".js") files) by (apply Ijs; discriminate).
    destruct (probe R fs opts (Some (b ++ ".js"))) as [|f1|e1].
    + destruct Cjs as [Rj Mj].
      destruct (g_dts g) as [fd|].
      * assert (Hd : In (b ++ ".d.ts") files) by (apply Idts; discriminate).
        destruct (probe R fs opts (Some (b ++ ".d.ts"))) as [|f2|e2].
        -- destruct Cdts as [Rd Md]. intros _. split; [discriminate|].
           intros [_ [(-> & _ & H)|(-> & _ & H & _)]]; contradiction.
        -- destruct Cdts as (-> & Rd & Md). intros _. split.
           ++ intros [= <-]. split; [reflexivity|]. right. auto.
           ++ intros [_ [(-> & _ & H)|(-> & _)]]; [contradiction | reflexivity].
        -- intros H. exfalso. now apply (H e2).
      * intros _. split; [discriminate|].
        intros [_ [(-> & _ & H)|(-> & H & _)]]; [contradiction|].
        apply Idts in H. congruence.
    + destruct Cjs as (-> & Rj & Mj). intros _. split.
      * intros [= <-]. split; [reflexivity|]. left. auto.
      * intros [_ [(-> & _)|(-> & _ & _ & H)]]; [reflexivity|].
        exfalso. now apply H.
    + intros H. exfalso. now apply (H e1).
  - assert (Hj : ~ In (b ++ ".js") files) by (intros H; apply Ijs in H; congruence).
    destruct (g_dts g) as [fd|].
    + assert (Hd : In (b ++ ".d.ts") files) by (apply Idts; discriminate).
      destruct (probe R fs opts (Some (b ++ ".d.ts"))) as [|f2|e2].
      * destruct Cdts as [Rd Md]. intros _. split; [discriminate|].
        intros [_ [(-> & H & _)|(-> & _ & H & _)]]; contradiction.
      * destruct Cdts as (-> & Rd & Md). intros _. split.
        -- intros [= <-]. split; [reflexivity|]. right.
           split; [reflexivity|]. split; [exact Hd|]. split; [exact Md|].
           intros H. contradiction.
        -- intros [_ [(-> & H & _)|(-> & _)]]; [contradiction | reflexivity].
      * intros H. exfalso. now apply (H e2).
    + intros _. split; [discriminate|].
      intros [_ [(-> & H & _)|(-> & H & _)]]; [contradiction|].
      apply Idts in H. congruence.
Qed.

End Turn.

(** [buildExportsMap] returns or throws, and leaves the files alone. *)
Lemma build_outcome (R : Runtime) files opts w out w' :
  buildExportsMap R files opts w = (out, w') ->
  w_fs w' = w_fs w /\ w_writes w' = w_writes w
  /\ ((exists m, out = Ret m)
      \/ exists b e, In b (forIn (groupFiles files))
                     /\ stepResult R (w_fs w) opts (groupFiles files) b = Failed e
                     /\ out = Throw e).
Proof.
  intros H. apply loop_outcome in H as (Hfs & Hwr & [Hr|(k & e & Hin & Hs & Ho)]).
  - auto.
  - split; [exact Hfs|]. split; [exact Hwr|]. right. exists k, e. auto.
Qed.

Lemma NoDup_keys_proto files : NoDup (keys (proto (groupFiles files))).
Proof.
  unfold groupFiles.
  assert (H : forall G : Grouping, NoDup (keys (proto G)) ->
                NoDup (keys (proto (fold_left groupStep files G)))).
  { induction files as [|f files IH]; intros G HG; [exact HG|].
    cbn [fold_left]. apply IH. unfold groupStep.
    destruct (classify f) as [[b e]|]; [|exact HG].
    destruct (b =? "__proto__"); [|exact HG].
    cbn [proto]. now apply NoDup_keys_set. }
  apply H. constructor.
Qed.

(** The loop visits no key twice. *)
Lemma NoDup_forIn files : NoDup (forIn (groupFiles files)).
Proof.
  unfold forIn. apply NoDup_app_intro.
  - apply NoDup_ownKeys. rewrite keys_groupFiles_any. apply NoDup_distinct.
  - apply NoDup_filter, NoDup_ownKeys, NoDup_keys_proto.
  - intros k Hown [_ Hk]%filter_In.
    apply In_ownKeys, includesName_spec in Hown.
    fold (keys (own (groupFiles files))) in Hk. rewrite Hown in Hk.
    discriminate.
Qed.

Lemma build_order (R : Runtime) files opts w m w' :
  buildExportsMap R files opts w = (Ret m, w') ->
  let G := groupFiles files in
  keys m = map (append "./")
             (filter (fun b => isKept (stepResult R (w_fs w) opts G b)) (forIn G))
  /\ w' = addLines w
            (flat_map (fun b => warningOf (o_placeholder opts)
                                  (stepResult R (w_fs w) opts G b)) (forIn G)).
Proof.
  intros H G. apply loop_order in H; [exact H | | reflexivity].
  apply NoDup_forIn.
Qed.

(** A warning names a file of the listing. *)
Lemma step_Skipped_In (R : Runtime) opts files fs b f :
  stepResult R fs opts (groupFiles files) b = SkippedFor f -> In f files.
Proof.
  unfold stepResult. destruct (includesName _ _); [discriminate|].
  destruct (probe R fs opts (g_js _)) as [|f1|e1] eqn:Pjs; try discriminate.
  - destruct (probe R fs opts (g_dts _)) as [|f2|e2] eqn:Pdts; try discriminate.
    intros [= <-]. apply probe_Marked in Pdts as [Hf _].
    exact (fieldsOf_In files b ExtDts f2 Hf).
  - intros [= <-]. apply probe_Marked in Pjs as [Hf _].
    exact (fieldsOf_In files b ExtJs f1 Hf).
Qed.

(** One warning for each turn that finds the marker. *)
Lemma length_warnings (step : string -> StepResult) placeholder ks :
  List.length (flat_map (fun b => warningOf placeholder (step b)) ks)
  = List.length (filter (fun b => isSkipped (step b)) ks).
Proof.
  induction ks as [|k ks IH]; [reflexivity|].
  cbn [flat_map filter]. rewrite length_app, IH.
  now destruct (step k).
Qed.

Lemma NoDup_map_append pre l : NoDup l -> NoDup (map (append pre) l).
Proof.
  induction 1 as [|x l Hx Hnd IH]; simpl; constructor; [|exact IH].
  intros (y & E & Hy)%in_map_iff. apply append_inv_head in E. now subst.
Qed.

Lemma skipping_inj f f' placeholder :
  skipping f placeholder = skipping f' placeholder -> f = f'.
Proof.
  unfold skipping. intros E. apply append_inv_head in E.
  now apply append_inv_tail in E.
Qed.

Lemma includes_empty s : includes s "" = true.
Proof. destruct s; reflexivity. Qed.


(** ** What reaches [Object.prototype] *)

Lemma proto_groupStep (G : Grouping) file e :
  get (extName e) (proto G) = Some (artifact "__proto__" e)
  \/ file = artifact "__proto__" e ->
  get (extName e) (proto (groupStep G file)) = Some (artifact "__proto__" e).
Proof.
  intros H. unfold groupStep.
  destruct (classify file) as [[b e']|] eqn:Ec.
  - apply classify_inv in Ec as Hf.
    destruct (String.eqb_spec b "__proto__") as [->|Hb]; cbn [proto].
    + destruct (String.eqb_spec (extName e') (extName e)) as [E|E].
      * apply extName_inj in E. subst e'. rewrite get_set_same. now subst file.
      * rewrite get_set_other by congruence.
        destruct H as [H|H]; [exact H|]. exfalso. rewrite H in Hf.
        apply artifact_inj in Hf as [_ <-]. now apply E.
    + destruct H as [H|H]; [exact H|]. exfalso. rewrite H in Hf.
      apply artifact_inj in Hf as [<- _]. now apply Hb.
  - destruct H as [H|H]; [exact H|]. subst file.
    rewrite classify_artifact in Ec. discriminate.
Qed.

Lemma proto_fold files e : forall G : Grouping,
  get (extName e) (proto G) = Some (artifact "__proto__" e)
  \/ In (artifact "__proto__" e) files ->
  get (extName e) (proto (fold_left groupStep files G))
  = Some (artifact "__proto__" e).
Proof.
  induction files as [|f files IH]; intros G H; cbn [fold_left].
  - destruct H as [H|[]]. exact H.
  - apply IH. destruct H as [H|[H|H]].
    + left. apply proto_groupStep. now left.
    + left. apply proto_groupStep. now right.
    + now right.
Qed.

(** [Object.prototype] holds the artifacts of the module path
    [__proto__] that are among the files, and nothing else. *)
Lemma proto_groupFiles files e f :
  get (extName e) (proto (groupFiles files)) = Some f
  <-> f = artifact "__proto__" e /\ In f files.
Proof.
  split.
  - apply (proj1 (proj2 (groupFiles_Stored files))).
  - intros [-> Hin]. apply proto_fold. now right.
Qed.
(** ** The run, stage by stage *)

Section Run.
Variable R : Runtime.

Lemma arrayIndex_dot_slash b : arrayIndex ("./" ++ b) = None.
Proof. reflexivity. Qed.

(** The keys of an export map are visited in the order of creation. *)
Lemma ownKeys_exports files opts w m w' :
  buildExportsMap R files opts w = (Ret m, w') -> ownKeys m = keys m.
Proof.
  intros H. apply enumOrder_names. intros k Hk.
  apply In_keys_get in Hk as [e He].
  destruct (build_loop_forIn H) as (_ & _ & _ & _ & Hfrom & _).
  apply Hfrom in He as (b & _ & -> & _). apply arrayIndex_dot_slash.
Qed.

(** What the stages before the write have done when they come to their
    end. *)
Lemma plan_stages argv w pl wp :
  plan R argv w = (Ret pl, wp) ->
  exists args,
    parseCliArgs argv w = (Ret args, w)
    /\ resolvePaths R (buildDirArg args) (pkgPathArg args) w
       = (Ret (p_paths pl), w)
    /\ (exists text,
          lookup (w_fs w) (pkgPath (p_paths pl)) = Some (File text)
          /\ JSON_parse R text = Some (p_pkg pl))
    /\ fg R (w_fs w) ["**/*.js"; "**/*.d.ts"] (distDir (p_paths pl))
       = Some (p_files pl)
    /\ buildExportsMap R (p_files pl)
         (mkOptions (distDir (p_paths pl)) (pkgDir (p_paths pl))
                    (excludeNames args) (placeholder args)) w
       = (Ret (p_exports pl), wp)
    /\ p_pkg pl <> JNull
    /\ p_updated pl =
       match p_pkg pl with
       | JObj props => JObj (set "exports" (exportsJson (p_exports pl)) props)
       | _ => p_pkg pl
       end.
Proof.
  intros H.
  destruct (plan_inv R argv w pl wp H)
    as (args & w1 & w2 & Hp & _ & Hr & _ & (text & Ht & Hj) & Hfg & Hb & Hn & Hu).
  pose proof Hp as Hp'. apply parseCliArgs_Ret in Hp' as (_ & _ & _ & _ & -> & _).
  pose proof Hr as Hr'. apply resolvePaths_Ret in Hr' as (-> & _).
  exists args. split; [exact Hp|]. split; [exact Hr|]. split.
  { exists text. split; [|exact Hj]. unfold readFile in Ht.
    destruct (lookup (w_fs w) _) as [[c|]|]; congruence. }
  auto.
Qed.

(** The run after the stages before the write came to their end. *)
Lemma run_after_plan argv w pl wp :
  plan R argv w = (Ret pl, wp) ->
  let written :=
    writeFile (w_fs w) (pkgPath (p_paths pl))
              (JSON_stringify2 R (p_updated pl) ++ newline) in
  run R argv w =
  if match p_updated pl with JObj _ | JArr _ => true | _ => false end
  then (Some 0,
        mkWorld written
          (w_console wp
           ++ [Log (confirmation (pkgPath (p_paths pl)) (keys (p_exports pl)))])
          (S (w_writes w)))
  else (Some 1,
        mkWorld written (w_console wp ++ [Err "Unexpected error:"])
                (S (w_writes w))).
Proof.
  intros H. cbv zeta.
  destruct (plan_stages argv w pl wp H)
    as (args & _ & _ & (text & Ht & _) & _ & Hb & _).
  destruct (plan_keeps R argv w _ _ H) as [Hfs Hwr].
  rewrite <- (ownKeys_exports _ _ _ _ _ Hb).
  unfold run. rewrite main_plan. unfold bind at 1. rewrite H.
  unfold commit, writeJson, bind, fs_writeFileSync. rewrite Hfs, Ht, Hwr.
  destruct (p_updated pl); reflexivity.
Qed.



End Run.

(** ** The listings of the samples *)

Lemma ordinary_decide files :
  existsb (String.eqb "__proto__.js") files
  || existsb (String.eqb "__proto__.d.ts") files = false ->
  ordinary files.
Proof.
  intros H. apply orb_false_iff in H as [H1 H2].
  split; intros Hin.
  - assert (E : existsb (String.eqb "__proto__.js") files = true).
    { apply existsb_exists. eexists. split; [exact Hin | apply String.eqb_refl]. }
    congruence.
  - assert (E : existsb (String.eqb "__proto__.d.ts") files = true).
    { apply existsb_exists. eexists. split; [exact Hin | apply String.eqb_refl]. }
    congruence.
Qed.


End MoreFacts.
(* ================================================================== *)
(** * More facts about POSIX paths *)

Module PosixMoreFacts.
Import JsString JsStringFacts Posix PosixFacts.

Lemma joinSegments_snoc l s :
  l <> [] -> joinSegments (l ++ [s]) = joinSegments l ++ "/" ++ s.
Proof.
  induction l as [|x l IH]; [contradiction|]. intros _.
  destruct l as [|y r]; [reflexivity|].
  change (joinSegments ((x :: y :: r) ++ [s]))
    with (x ++ "/" ++ joinSegments ((y :: r) ++ [s])).
  rewrite IH by discriminate.
  change (joinSegments (x :: y :: r)) with (x ++ "/" ++ joinSegments (y :: r)).
  now rewrite !append_assoc.
Qed.

Lemma dropSegment_app l r :
  Forall (fun c => isSlash c = false) l ->
  dropSegment (l ++ slash :: r)%list = slash :: r.
Proof.
  induction 1 as [|c l Hc Hl IH]; simpl; [reflexivity | now rewrite Hc].
Qed.

Lemma dropSegment_all l :
  Forall (fun c => isSlash c = false) l -> dropSegment l = [].
Proof.
  induction 1 as [|c l Hc Hl IH]; simpl; [reflexivity | now rewrite Hc].
Qed.

Lemma rev_string_nonempty s :
  s <> "" -> exists c l, rev (list_ascii_of_string s) = c :: l.
Proof.
  intros Hne. destruct (rev (list_ascii_of_string s)) as [|c l] eqn:E.
  - exfalso. apply Hne. apply (f_equal (@rev ascii)) in E.
    rewrite rev_involutive in E. simpl in E.
    now rewrite <- (string_of_list_ascii_of_string s), E.
  - now exists c, l.
Qed.

(** The parent of an absolute normalized path. *)
Lemma dirname_absPath_snoc segs s :
  Forall clean segs -> clean s ->
  dirname (absPath (segs ++ [s])) = absPath segs.
Proof.
  intros Hsegs Hs. pose proof (clean_plain s Hs) as [Hne Hns].
  apply Forall_noSlash, Forall_rev in Hns.
  destruct (rev_string_nonempty s Hne) as (c & l & Erev).
  rewrite Erev in Hns. inversion Hns as [|? ? Hc Hl]; subst.
  unfold absPath. change ("/" ++ joinSegments (segs ++ [s]))
    with (String slash (joinSegments (segs ++ [s]))).
  cbn [dirname]. change (isSlash slash) with true. cbv iota.
  destruct segs as [|x segs].
  - change (joinSegments ([] ++ [s])) with s. rewrite Erev.
    rewrite dropSlashes_head by exact Hc.
    rewrite dropSegment_all by exact Hns. reflexivity.
  - rewrite joinSegments_snoc by discriminate.
    rewrite !list_ascii_append.
    change (list_ascii_of_string "/") with [slash].
    rewrite !rev_app_distr, Erev. simpl rev. rewrite <- app_assoc. simpl app.
    rewrite dropSlashes_head by exact Hc.
    change (c :: (l ++ slash :: rev (list_ascii_of_string (joinSegments (x :: segs))))%list)
      with ((c :: l) ++ slash :: rev (list_ascii_of_string (joinSegments (x :: segs))))%list.
    rewrite dropSegment_app by exact Hns.
    assert (Hj : joinSegments (x :: segs) <> "").
    { apply joinSegments_nonempty; [discriminate|].
      eapply Forall_impl; [|exact Hsegs]. apply clean_plain. }
    destruct (rev_string_nonempty _ Hj) as (d & k & Ej). rewrite Ej.
    rewrite <- Ej, rev_involutive, string_of_list_ascii_of_string. reflexivity.
Qed.

Lemma startsWithSlash_join b :
  Forall clean b -> startsWithSlash (joinSegments b) = false.
Proof.
  intros Hb. destruct b as [|x r]; [reflexivity|].
  inversion Hb as [|? ? Hx _]; subst.
  destruct (clean_plain x Hx) as [Hne Hns].
  destruct x as [|c x]; [contradiction|].
  assert (Hc : isSlash c = false).
  { unfold isSlash. destruct (Ascii.eqb_spec c slash); [|reflexivity].
    exfalso. apply Hns. now left. }
  destruct r; exact Hc.
Qed.

(** A relative normalized path resolved against the working
    directory. *)
Lemma resolve_below host c b :
  Forall clean c -> Forall clean b ->
  resolve host [absPath c; joinSegments b] = absPath (c ++ b).
Proof.
  intros Hc Hb. unfold resolve. simpl rev. simpl app. cbn [resolveLoop].
  destruct b as [|x r].
  - change (joinSegments [] =? "") with true. cbv iota.
    change (absPath c =? "") with false. cbv iota.
    change (startsWithSlash (absPath c)) with true. cbv beta iota.
    rewrite app_nil_r.
    unfold normalizeString, normSegments.
    change (absPath c ++ "/" ++ "") with (absPath c ++ String slash "").
    rewrite split_app_sep.
    destruct (split_absPath c Hc) as (segs & -> & Hfold).
    simpl app. cbn [fold_left split]. rewrite normStep_empty.
    rewrite fold_left_app, Hfold. cbn [fold_left]. rewrite normStep_empty.
    rewrite app_nil_r, rev_involutive. reflexivity.
  - assert (Hplain : Forall plain (x :: r))
      by (eapply Forall_impl; [|exact Hb]; apply clean_plain).
    assert (Hj : joinSegments (x :: r) <> "")
      by (apply joinSegments_nonempty; [discriminate | exact Hplain]).
    apply String.eqb_neq in Hj. rewrite Hj. cbv iota.
    rewrite (startsWithSlash_join (x :: r) Hb). cbv iota.
    change (absPath c =? "") with false. cbv iota.
    change (startsWithSlash (absPath c)) with true. cbv beta iota.
    unfold normalizeString, normSegments.
    change (absPath c ++ "/" ++ joinSegments (x :: r) ++ "/" ++ "")
      with (absPath c ++ String slash (joinSegments (x :: r) ++ String slash "")).
    rewrite !split_app_sep.
    destruct (split_absPath c Hc) as (segs & -> & Hfold).
    rewrite split_joinSegments;
      [|discriminate | now apply clean_noSlash].
    simpl app. cbn [fold_left split]. rewrite normStep_empty.
    change (x :: (r ++ [""])%list) with ((x :: r) ++ [""])%list.
    rewrite !fold_left_app, Hfold, (fold_clean _ (x :: r)) by exact Hb.
    cbn [fold_left]. rewrite normStep_empty.
    rewrite app_nil_r, rev_app_distr, !rev_involutive. reflexivity.
Qed.

Lemma clean_package_json : clean "package.json".
Proof.
  split; [discriminate|]. split; [discriminate|]. split; [discriminate|].
  simpl. intuition discriminate.
Qed.

Lemma join_manifest d :
  Forall clean d -> join (absPath d) "package.json" = absPath (d ++ ["package.json"]).
Proof.
  intros Hd.
  apply (join_absPath d ["package.json"] Hd); [|discriminate].
  constructor; [apply clean_package_json | constructor].
Qed.


Lemma length_joinSegments l :
  Forall plain l -> List.length l <= String.length (joinSegments l).
Proof.
  induction 1 as [|x l [Hx _] Hl IH]; [simpl; lia|].
  destruct l as [|y r].
  - destruct x; [contradiction | simpl; lia].
  - change (joinSegments (x :: y :: r)) with (x ++ "/" ++ joinSegments (y :: r)).
    rewrite !length_append. simpl in *. lia.
Qed.

End PosixMoreFacts.
(* ================================================================== *)
(** * The upward search and the references on a POSIX host *)

Module SearchFacts.
Import JsString JsObject Node GenExports Notions.
Import JsStringFacts JsObjectFacts GenExportsFacts RunFacts MoreFacts.

Section Host.
Variable R : Runtime.
Variable host : string.
Hypothesis Hposix : path R = Posix.posix host.

Lemma absPath_snoc_neq d s root :
  Forall Posix.clean (d ++ [s]) ->
  (exists k, d = (root ++ k)%list) -> Forall Posix.clean root ->
  Posix.absPath (d ++ [s]) <> Posix.absPath root.
Proof.
  intros Hd [k ->] Hr E. apply PosixFacts.absPath_inj in E; [|exact Hd|exact Hr].
  apply (f_equal (@List.length string)) in E. rewrite !length_app in E.
  simpl in E. lia.
Qed.

Lemma search_step d s root fuel w :
  Forall Posix.clean d -> Posix.clean s ->
  Posix.absPath (d ++ [s]) <> root ->
  existsSync (w_fs w) (Posix.absPath (d ++ [s] ++ ["package.json"])) = false ->
  findNearestLoop R (S fuel) (Posix.absPath (d ++ [s])) root w
  = findNearestLoop R fuel (Posix.absPath d) root w.
Proof.
  intros Hd Hs Hroot Hmiss.
  assert (Hds : Forall Posix.clean (d ++ [s])).
  { apply Forall_app. split; [exact Hd | now constructor]. }
  cbn [findNearestLoop]. unfold bind, fs_existsSync. rewrite Hposix.
  cbn [join dirname Posix.posix].
  rewrite PosixMoreFacts.join_manifest by exact Hds.
  rewrite <- app_assoc, Hmiss.
  rewrite PosixMoreFacts.dirname_absPath_snoc by assumption.
  apply String.eqb_neq in Hroot. rewrite Hroot. simpl orb.
  assert (Hne : Posix.absPath d <> Posix.absPath (d ++ [s])).
  { intros E. apply PosixFacts.absPath_inj in E; [|exact Hd|exact Hds].
    apply (f_equal (@List.length string)) in E. rewrite length_app in E.
    simpl in E. lia. }
  apply String.eqb_neq in Hne. now rewrite Hne.
Qed.

Lemma search_found d root fuel w :
  Forall Posix.clean d ->
  existsSync (w_fs w) (Posix.absPath (d ++ ["package.json"])) = true ->
  findNearestLoop R (S fuel) (Posix.absPath d) root w
  = (Ret (Some (Posix.absPath (d ++ ["package.json"]))), w).
Proof.
  intros Hd Hex. cbn [findNearestLoop]. unfold bind, fs_existsSync.
  rewrite Hposix. cbn [join dirname Posix.posix].
  rewrite PosixMoreFacts.join_manifest by exact Hd. now rewrite Hex.
Qed.

Lemma search_root d fuel w :
  Forall Posix.clean d ->
  existsSync (w_fs w) (Posix.absPath (d ++ ["package.json"])) = false ->
  findNearestLoop R (S fuel) (Posix.absPath d) (Posix.absPath d) w
  = (Ret None, w).
Proof.
  intros Hd Hex. cbn [findNearestLoop]. unfold bind, fs_existsSync.
  rewrite Hposix. cbn [join dirname Posix.posix].
  rewrite PosixMoreFacts.join_manifest by exact Hd.
  now rewrite Hex, String.eqb_refl.
Qed.

(** From [c/keep/drop] the search climbs to [c/keep] when it finds no
    manifest on the way. *)
Lemma search_between c keep w : forall drop fuel,
  Forall Posix.clean (c ++ keep ++ drop) ->
  List.length drop < fuel ->
  (forall keep' drop',
      (keep ++ drop)%list = (keep' ++ drop')%list ->
      List.length keep < List.length keep' ->
      existsSync (w_fs w) (Posix.absPath (c ++ keep' ++ ["package.json"])) = false) ->
  findNearestLoop R fuel (Posix.absPath (c ++ keep ++ drop)) (Posix.absPath c) w
  = findNearestLoop R (fuel - List.length drop) (Posix.absPath (c ++ keep))
      (Posix.absPath c) w.
Proof.
  induction drop as [|s drop IH] using rev_ind; intros fuel Hclean Hfuel Hmiss.
  - now rewrite app_nil_r, Nat.sub_0_r.
  - rewrite length_app in Hfuel. simpl in Hfuel.
    destruct fuel as [|fuel]; [lia|].
    assert (Hall : Forall Posix.clean ((c ++ keep ++ drop) ++ [s])).
    { now rewrite <- !app_assoc. }
    pose proof Hall as Hall'. apply Forall_app in Hall' as [Hd Hs].
    inversion Hs as [|? ? Hs' _]; subst.
    assert (Hc : Forall Posix.clean c) by now apply Forall_app in Hd.
    replace (c ++ keep ++ drop ++ [s])%list with ((c ++ keep ++ drop) ++ [s])%list
      by now rewrite <- !app_assoc.
    rewrite search_step; [| exact Hd | exact Hs' | |].
    + rewrite IH; [| exact Hd | lia |].
      * replace (S fuel - List.length (drop ++ [s]))
          with (fuel - List.length drop)
          by (rewrite length_app; cbn [List.length]; lia).
        reflexivity.
      * intros keep' drop' E Hlen. apply (Hmiss keep' (drop' ++ [s])%list).
        -- now rewrite !app_assoc, E.
        -- exact Hlen.
    + apply absPath_snoc_neq; [exact Hall | | exact Hc].
      exists (keep ++ drop)%list. reflexivity.
    + replace ((c ++ keep ++ drop) ++ [s] ++ ["package.json"])%list
        with (c ++ (keep ++ drop ++ [s]) ++ ["package.json"])%list
        by now rewrite <- !app_assoc.
      apply (Hmiss (keep ++ drop ++ [s])%list []).
      * now rewrite app_nil_r.
      * rewrite !length_app. simpl. lia.
Qed.

Lemma fuel_enough c b :
  Forall Posix.clean (c ++ b) ->
  List.length b < String.length (Posix.absPath (c ++ b)) + 2.
Proof.
  intros H. unfold Posix.absPath. simpl String.length.
  assert (Hp : Forall PosixFacts.plain (c ++ b)).
  { eapply Forall_impl; [|exact H]. apply PosixFacts.clean_plain. }
  apply PosixMoreFacts.length_joinSegments in Hp.
  rewrite length_app in Hp. lia.
Qed.

(** The search from a build directory below the root directory. *)
Lemma nearest_posix c b w :
  Forall Posix.clean c -> Forall Posix.clean b ->
  let manifestIn :=
    fun keep => Posix.absPath (c ++ keep ++ ["package.json"]) in
  (forall keep drop,
      b = (keep ++ drop)%list ->
      existsSync (w_fs w) (manifestIn keep) = true ->
      (forall keep' drop',
          b = (keep' ++ drop')%list -> List.length keep < List.length keep' ->
          existsSync (w_fs w) (manifestIn keep') = false) ->
      findNearestPackageJson R (Posix.absPath (c ++ b)) (Posix.absPath c) w
      = (Ret (Some (manifestIn keep)), w))
  /\ ((forall keep drop,
         b = (keep ++ drop)%list -> existsSync (w_fs w) (manifestIn keep) = false) ->
      findNearestPackageJson R (Posix.absPath (c ++ b)) (Posix.absPath c) w
      = (Ret None, w)).
Proof.
  intros Hc Hb manifestIn.
  assert (Hcb : Forall Posix.clean (c ++ b)) by (apply Forall_app; auto).
  pose proof (fuel_enough c b Hcb) as Hfuel.
  unfold findNearestPackageJson. split.
  - intros keep drop -> Hex Hmiss.
    rewrite search_between; [| exact Hcb | rewrite length_app in Hfuel; lia
                             | intros keep' drop' E; exact (Hmiss keep' drop' E)].
    rewrite length_app in Hfuel.
    destruct (String.length (Posix.absPath (c ++ keep ++ drop)) + 2
              - List.length drop) as [|fuel] eqn:Ef; [lia|].
    rewrite search_found.
    + unfold manifestIn. now rewrite app_assoc.
    + apply Forall_app in Hb as [Hk _]. apply Forall_app. auto.
    + unfold manifestIn in Hex. now rewrite app_assoc in Hex.
  - intros Hmiss.
    pose proof (search_between c [] w b
                  (String.length (Posix.absPath (c ++ b)) + 2)) as H.
    simpl app in H. rewrite H; [| exact Hcb | exact Hfuel |].
    + destruct (String.length (Posix.absPath (c ++ b)) + 2 - List.length b)
        as [|fuel] eqn:Ef; [lia|].
      rewrite app_nil_r. apply search_root; [exact Hc|].
      apply (Hmiss [] b eq_refl).
    + intros keep' drop' E _. now apply (Hmiss keep' drop').
Qed.

End Host.

End SearchFacts.
(* ================================================================== *)
(** * Facts about the versions that list the [.js] files only *)

Module JsOnlyFacts.
Import JsString JsObject Node GenExports Notions JsOnly.
Import JsStringFacts JsObjectFacts GenExportsFacts RunFacts MoreFacts.

Lemma replaceJsSuffix_js b repl : replaceJsSuffix (b ++ ".js") repl = b ++ repl.
Proof.
  unfold replaceJsSuffix. rewrite endsWith_append.
  change 3 with (String.length ".js"). now rewrite sliceEnd_append.
Qed.

Lemma endsWith_js f : endsWith f ".js" = true -> f = replaceJsSuffix f "" ++ ".js".
Proof.
  intros H. unfold replaceJsSuffix. rewrite H, append_nil_r.
  now apply endsWith_sliceEnd in H.
Qed.

Section Versions.
Variable R : Runtime.

(** ** The version without marker *)

Section Plain.
Variables distDir pkgDir : string.
Variable excludeNames : list string.

Let keyOf (f : string) := "./" ++ replaceJsSuffix f "".
Let keeps (f : string) :=
  negb (includesName excludeNames (basename (path R) (replaceJsSuffix f ""))).

(** One turn of the [reduce], without the monad. *)
Definition plainStep (fs : FS) (out : Obj Entry) (f : string) : Obj Entry :=
  if keeps f then set (keyOf f) (entryFor R fs distDir pkgDir f) out else out.

Lemma exportStepPlain_eq out f w :
  exportStepPlain R distDir pkgDir excludeNames out f w
  = (Ret (plainStep (w_fs w) out f), w).
Proof.
  unfold exportStepPlain, plainStep, keeps, keyOf, entryFor, typesOf, bind,
    fs_existsSync, ret.
  destruct (includesName excludeNames _); reflexivity.
Qed.

Lemma plain_loop files : forall out w,
  forEachM (exportStepPlain R distDir pkgDir excludeNames) files out w
  = (Ret (fold_left (plainStep (w_fs w)) files out), w).
Proof.
  induction files as [|f files IH]; intros out w; [reflexivity|].
  cbn [forEachM fold_left]. unfold bind. rewrite exportStepPlain_eq. apply IH.
Qed.

Lemma plain_fold_from fs files : forall out key e,
  get key (fold_left (plainStep fs) files out) = Some e ->
  get key out = Some e
  \/ exists f, In f files /\ key = keyOf f /\ keeps f = true
               /\ e = entryFor R fs distDir pkgDir f.
Proof.
  induction files as [|f files IH]; intros out key e H; [now left|].
  cbn [fold_left] in H. apply IH in H as [H|(f' & Hin & Hk & Hkeep & He)].
  - unfold plainStep in H. destruct (keeps f) eqn:Ek; [|now left].
    destruct (String.eqb_spec key (keyOf f)) as [->|Hne].
    + rewrite get_set_same in H. injection H as <-.
      right. exists f. simpl. auto.
    + rewrite get_set_other in H by exact Hne. now left.
  - right. exists f'. simpl. auto.
Qed.

Lemma plain_fold_keeps fs files : forall out key,
  (exists e, get key out = Some e) ->
  exists e, get key (fold_left (plainStep fs) files out) = Some e.
Proof.
  induction files as [|f files IH]; intros out key H; [exact H|].
  cbn [fold_left]. apply IH. unfold plainStep.
  destruct (keeps f); [|exact H].
  destruct (String.eqb_spec key (keyOf f)) as [->|Hne].
  - rewrite get_set_same. eauto.
  - now rewrite get_set_other by exact Hne.
Qed.

Lemma plain_fold_kept fs files : forall out f,
  In f files -> keeps f = true ->
  exists e, get (keyOf f) (fold_left (plainStep fs) files out) = Some e.
Proof.
  induction files as [|f0 files IH]; intros out f Hin Hk; [destruct Hin|].
  destruct Hin as [->|Hin].
  - cbn [fold_left]. apply plain_fold_keeps. unfold plainStep. rewrite Hk.
    rewrite get_set_same. eauto.
  - cbn [fold_left]. now apply IH.
Qed.

End Plain.

(** ** The version with the marker *)

Section Marker.
Variable opts : Options.

Let keyOf (f : string) := "./" ++ replaceJsSuffix f "".
Let excluded (f : string) :=
  includesName (o_excludeNames opts) (basename (path R) (replaceJsSuffix f "")).

(** What one turn of the [reduce] does. *)
Definition markerStep (fs : FS) (f : string) : StepResult :=
  if excluded f then ExcludedByName
  else
    match probe R fs opts (Some f) with
    | Marked f' => SkippedFor f'
    | Unreadable e => Failed e
    | Clean => Kept (entryFor R fs (o_distDir opts) (o_pkgDir opts) f)
    end.

Lemma exportStepMarker_eq out f w :
  exportStepMarker R opts out f w =
  match markerStep (w_fs w) f with
  | ExcludedByName => (Ret out, w)
  | SkippedFor f' =>
      (Ret out, addLine w (Warn (skipping f' (o_placeholder opts))))
  | Failed e => (Throw e, w)
  | Kept entry => (Ret (set (keyOf f) entry out), w)
  end.
Proof.
  unfold exportStepMarker, markerStep, excluded, keyOf, probe, entryFor, typesOf,
    bind, fs_readFileSync, fs_existsSync, console_warn, console, ret.
  destruct (includesName _ _); [reflexivity|].
  destruct (lookup (w_fs w) _) as [[c|]|]; try reflexivity.
  destruct (includes c (o_placeholder opts)); reflexivity.
Qed.

Lemma marker_loop files : forall out w m w',
  forEachM (exportStepMarker R opts) files out w = (Ret m, w') ->
  w_fs w' = w_fs w
  /\ (forall f e, In f files -> markerStep (w_fs w) f <> Failed e)
  /\ (forall key e, get key m = Some e ->
        get key out = Some e
        \/ exists f, In f files /\ key = keyOf f /\ markerStep (w_fs w) f = Kept e)
  /\ (forall key, (exists e, get key out = Some e) -> exists e, get key m = Some e)
  /\ (forall f e, In f files -> markerStep (w_fs w) f = Kept e ->
        exists e', get (keyOf f) m = Some e').
Proof.
  induction files as [|f files IH]; intros out w m w' H.
  - injection H as <- <-. split; [reflexivity|].
    split; [intros f e []|]. split; [auto|]. split; [auto | intros f e []].
  - cbn [forEachM] in H. unfold bind in H. rewrite exportStepMarker_eq in H.
    destruct (markerStep (w_fs w) f) as [|f1|e1|entry] eqn:Es; [| |discriminate|].
    + apply IH in H as (Hfs & Hfail & Hfrom & Hkeep & Hkept).
      split; [exact Hfs|]. split; [|split; [|split]].
      * intros f' e [<-|Hin]; [congruence | now apply Hfail].
      * intros key e He. apply Hfrom in He as [He|(f' & Hin & Hk & Hs)]; auto.
        right. exists f'. simpl. auto.
      * exact Hkeep.
      * intros f' e [<-|Hin] Hs; [congruence | now apply (Hkept f' e)].
    + apply IH in H as (Hfs & Hfail & Hfrom & Hkeep & Hkept).
      cbn [w_fs addLine] in *.
      split; [exact Hfs|]. split; [|split; [|split]].
      * intros f' e [<-|Hin]; [congruence | now apply Hfail].
      * intros key e He. apply Hfrom in He as [He|(f' & Hin & Hk & Hs)]; auto.
        right. exists f'. simpl. auto.
      * exact Hkeep.
      * intros f' e [<-|Hin] Hs; [congruence | now apply (Hkept f' e)].
    + apply IH in H as (Hfs & Hfail & Hfrom & Hkeep & Hkept).
      split; [exact Hfs|]. split; [|split; [|split]].
      * intros f' e [<-|Hin]; [congruence | now apply Hfail].
      * intros key e He. apply Hfrom in He as [He|(f' & Hin & Hk & Hs)].
        -- destruct (String.eqb_spec key (keyOf f)) as [->|Hne].
           ++ rewrite get_set_same in He. injection He as <-.
              right. exists f. simpl. auto.
           ++ rewrite get_set_other in He by exact Hne. now left.
        -- right. exists f'. simpl. auto.
      * intros key Hk. apply Hkeep.
        destruct (String.eqb_spec key (keyOf f)) as [->|Hne].
        -- rewrite get_set_same. eauto.
        -- now rewrite get_set_other by exact Hne.
      * intros f' e [<-|Hin] Hs; [|now apply (Hkept f' e)].
        apply Hkeep. rewrite get_set_same. eauto.
Qed.

End Marker.

End Versions.

End JsOnlyFacts.

(* ================================================================== *)
(** * The properties of the specification *)

Import JsString JsObject Node GenExports.
Import JsStringFacts JsObjectFacts GenExportsFacts.



(** C8, at a failing input.  The build directory holds [__proto__.js],
    [b.d.ts], [js.js] and [js.d.ts].  Grouping [__proto__.js] sets the
    property [js] of [Object.prototype] and creates no group; after
    that the key [js] of the groups holds the string it inherits, and
    the assignments of [js.js] and [js.d.ts] to it are dropped: the two
    artifacts have the same stripped path and lie in no group, and the
    group of [b] yields the runtime artifact of another module path. *)
Theorem C8_artifacts_outside_their_group :
  groupFiles Demo.filesProto
  = mkGrouping [("b", SObj (mkGroup None (Some "b.d.ts")));
                ("js", SStr "__proto__.js")]
               [("js", "__proto__.js")]
  /\ classify "js.js" = Some ("js", ExtJs)
  /\ classify "js.d.ts" = Some ("js", ExtDts)
  /\ (forall b g e,
        get b (groupFiles Demo.filesProto) = Some (SObj g) ->
        getExt e g <> Some "js.js" /\ getExt e g <> Some "js.d.ts")
  /\ classify "__proto__.js" = Some ("__proto__", ExtJs)
  /\ get "__proto__" (groupFiles Demo.filesProto) = None
  /\ fieldsOf (groupFiles Demo.filesProto) "b"
     = mkGroup (Some "__proto__.js") (Some "b.d.ts").
Proof.
  split; [reflexivity|]. split; [reflexivity|]. split; [reflexivity|].
  split; [|repeat split].
  intros b g e. change (groupFiles Demo.filesProto)
    with (mkGrouping [("b", SObj (mkGroup None (Some "b.d.ts")));
                      ("js", SStr "__proto__.js")]
                     [("js", "__proto__.js")]).
  cbn [own get]. destruct (String.eqb "b" b).
  - intros [= <-]. destruct e; split; discriminate.
  - destruct (String.eqb "js" b); discriminate.
Qed.

(** C1, at a failing input.  In the build directory with
    [__proto__.js], [b.d.ts], [js.js] and [js.d.ts] the module [b] has
    a declaration and no runtime artifact, and is kept; its descriptor
    has, beside the type reference, an import and a require reference,
    those of [__proto__.js]: the group of [b] inherits the property
    [js] that grouping [__proto__.js] has set on [Object.prototype]. *)
Theorem C1_declaration_only_gets_runtime :
  fg Demo.node Demo.fsProto ["**/*.js"; "**/*.d.ts"] "/w/dist"
    = Some Demo.filesProto
  /\ ~ In "b.js" Demo.filesProto
  /\ In "b.d.ts" Demo.filesProto
  /\ buildExportsMap Demo.node Demo.filesProto Demo.opts0 Demo.worldProto
     = (Ret Demo.mapProto, Demo.worldProto)
  /\ get "./b" Demo.mapProto
     = Some (mkEntry (Some (reference Demo.node Demo.opts0 "__proto__.js"))
                     (Some (reference Demo.node Demo.opts0 "__proto__.js"))
                     (Some (reference Demo.node Demo.opts0 "b.d.ts")))
  /\ entryJson (mkEntry (Some (reference Demo.node Demo.opts0 "__proto__.js"))
                        (Some (reference Demo.node Demo.opts0 "__proto__.js"))
                        (Some (reference Demo.node Demo.opts0 "b.d.ts")))
     = JObj [("import", JStr "./dist/__proto__.js");
             ("require", JStr "./dist/__proto__.js");
             ("types", JStr "./dist/b.d.ts")].
Proof.
  split; [reflexivity|].
  split; [intros H; simpl in H; intuition discriminate|].
  split; [simpl; auto|]. repeat split.
Qed.

(** C2, at a failing input.  In the same build directory the
    declaration [js.d.ts] contains the marker, and the module [js] is
    kept all the same, without any warning: the key [js] of the groups
    holds a string, the loop finds for it the runtime artifact that
    [Object.prototype] holds and no declaration, and [js.d.ts] is
    never read. *)
Theorem C2_marked_declaration_kept :
  In "js.d.ts" Demo.filesProto
  /\ marked Demo.node Demo.opts0 Demo.fsProto "js.d.ts"
  /\ buildExportsMap Demo.node Demo.filesProto Demo.opts0 Demo.worldProto
     = (Ret Demo.mapProto, Demo.worldProto)
  /\ w_console Demo.worldProto = []
  /\ get "./js" Demo.mapProto
     = Some (mkEntry (Some "./dist/__proto__.js") (Some "./dist/__proto__.js")
                     None)
  /\ fst (run Demo.node ["dist"] Demo.worldProto) = Some 0.
Proof.
  split; [simpl; auto|]. split; [|repeat split].
  eexists. split; reflexivity.
Qed.


(** C9, at a failing input.  The run [gen-exports.js dist], without
    [-e], in the package whose build directory holds [__proto__.js],
    [b.d.ts], [js.js] and [js.d.ts]: the marker is ["$RESERVED$"], the
    declaration [js.d.ts] contains it, and the manifest that the run
    writes has the key of the module [js]. *)
Theorem C9_default_marker_not_applied :
  parseCliArgs ["dist"] Demo.worldProto
    = (Ret (mkCliArgs "dist" [] None "$RESERVED$"), Demo.worldProto)
  /\ readFile Demo.fsProto "/w/dist/js.d.ts"
     = Some "// $RESERVED$ not part of the API"
  /\ includes "// $RESERVED$ not part of the API" "$RESERVED$" = true
  /\ fst (run Demo.node ["dist"] Demo.worldProto) = Some 0
  /\ readFile (w_fs (snd (run Demo.node ["dist"] Demo.worldProto)))
       "/w/package.json"
     = Some (Demo.manifestText
               (JObj [("name", JStr "demo");
                      ("exports", exportsJson Demo.mapProto)]))
  /\ get "./js" Demo.mapProto
     = Some (mkEntry (Some "./dist/__proto__.js") (Some "./dist/__proto__.js")
                     None).
Proof. repeat split. Qed.

Import RunFacts.

(** C7.  Whatever the run does, the part of [main] that comes before
    [writeJson] leaves every file as it is; a run of which that part
    does not come to its end (the arguments, the paths, the manifest,
    the collection of the artifacts or the construction of the export
    map fails) fails and leaves the file system unchanged, and so does
    every run that wrote nothing; a run that changed the file system
    made one write, of the whole updated manifest, after the export map
    was computed. *)
Theorem C7_manifest_written_last :
  forall (R : Runtime) (argv : list string) (w w' : World) (code : option nat),
    run R argv w = (code, w') ->
    (forall out wp, plan R argv w = (out, wp) ->
                    w_fs wp = w_fs w /\ w_writes wp = w_writes w)
    /\ ((forall pl wp, plan R argv w <> (Ret pl, wp)) ->
        w_fs w' = w_fs w /\ w_writes w' = w_writes w /\ code <> Some 0)
    /\ (w_writes w' = w_writes w -> w_fs w' = w_fs w /\ code <> Some 0)
    /\ (w_fs w' <> w_fs w ->
        exists pl wp,
          plan R argv w = (Ret pl, wp)
          /\ w_fs w' = writeFile (w_fs w) (pkgPath (p_paths pl))
                         (JSON_stringify2 R (p_updated pl) ++ newline)
          /\ w_writes w' = S (w_writes w)).
Proof.
  intros R argv w w' code Hrun.
  split; [intros out wp; apply plan_keeps|].
  destruct (run_cases R argv w code w' Hrun)
    as [(Hno & Hfs & Hwr & Hc)|(pl & wp & Hplan & Hfs & Hwr & Hc)].
  - repeat split; auto. intros Hne. contradiction.
  - split; [|split].
    + intros Hno. exfalso. exact (Hno pl wp Hplan).
    + intros Heq. rewrite Hwr in Heq. exfalso. lia.
    + intros _. now exists pl, wp.
Qed.

(** A run with [dist/index.js] given as manifest: reading it as JSON
    fails. *)
Lemma C7_manifest_written_last_witness :
  exists w',
    run Demo.node ["dist"; "-p"; "dist/index.js"] Demo.world0 = (Some 1, w')
    /\ w_fs w' = Demo.fs0.
Proof.
  eexists. split; [vm_compute; reflexivity|].
  refine (proj1 (proj1 (proj2 (proj2
           (C7_manifest_written_last Demo.node ["dist"; "-p"; "dist/index.js"]
              Demo.world0 _ (Some 1) _))) _)).
  - vm_compute. reflexivity.
  - reflexivity.
Defined.

(** C4, as the code has it.  After a run that succeeded, the manifest
    file holds the serialization of the updated manifest and no other
    path of the file system has changed.  The export map is the one
    that [buildExportsMap] builds in this run from the files that
    [fast-glob] finds in this run.  When the manifest that [JSON.parse]
    read is an object, the updated manifest is that object with its
    property [exports] set to the export map: every other property has
    the value that [JSON.parse] gave it, and the properties other than
    [exports] are the same in the same order, whatever the old
    [exports] held.  So the fields are kept as [JSON.parse] reads them
    and [JSON.stringify] writes them, not as their text was. *)
Theorem C4_only_exports_replaced :
  forall (R : Runtime) (argv : list string) (w w' : World),
    run R argv w = (Some 0, w') ->
    exists pl wp text args,
      plan R argv w = (Ret pl, wp)
      /\ readFile (w_fs w) (pkgPath (p_paths pl)) = Some text
      /\ JSON_parse R text = Some (p_pkg pl)
      /\ readFile (w_fs w') (pkgPath (p_paths pl))
         = Some (JSON_stringify2 R (p_updated pl) ++ newline)
      /\ (forall q, q <> pkgPath (p_paths pl) ->
                    lookup (w_fs w') q = lookup (w_fs w) q)
      /\ parseCliArgs argv w = (Ret args, w)
      /\ fg R (w_fs w) ["**/*.js"; "**/*.d.ts"] (distDir (p_paths pl))
         = Some (p_files pl)
      /\ buildExportsMap R (p_files pl)
           (mkOptions (distDir (p_paths pl)) (pkgDir (p_paths pl))
                      (excludeNames args) (placeholder args)) w
         = (Ret (p_exports pl), wp)
      /\ forall props,
           p_pkg pl = JObj props ->
           exists props',
             p_updated pl = JObj props'
             /\ props' = set "exports" (exportsJson (p_exports pl)) props
             /\ get "exports" props' = Some (exportsJson (p_exports pl))
             /\ (forall k, k <> "exports" -> get k props' = get k props)
             /\ others "exports" props' = others "exports" props.
Proof.
  intros R argv w w' Hrun.
  destruct (run_cases R argv w _ _ Hrun)
    as [(_ & _ & _ & Hc)|(pl & wp & Hplan & Hfs & _ & _)]; [congruence|].
  destruct (MoreFacts.plan_stages R argv w pl wp Hplan)
    as (args & Hparse & _ & (text & Ht & Hp) & Hfg & Hbuild & _ & Hupd).
  exists pl, wp, text, args. split; [exact Hplan|].
  split; [unfold readFile; now rewrite Ht|].
  split; [exact Hp|]. split; [|split; [|split; [|split; [|split]]]]; auto.
  - unfold readFile. now rewrite Hfs, lookup_writeFile_same.
  - intros q Hq. rewrite Hfs. now apply lookup_writeFile_other.
  - intros props Hobj. rewrite Hobj in Hupd.
    exists (set "exports" (exportsJson (p_exports pl)) props).
    split; [exact Hupd|]. split; [reflexivity|].
    split; [apply get_set_same|].
    split; [intros k Hk; now apply get_set_other | apply others_set].
Qed.

(** The run [gen-exports.js dist] on [/w]: the old entry [./old] is
    gone, [name] and [version] are as they were. *)
Lemma C4_only_exports_replaced_witness :
  exists w',
    run Demo.node ["dist"] Demo.world0 = (Some 0, w')
    /\ readFile (w_fs w') "/w/package.json"
       = Some (Demo.manifestText
                 (JObj [("name", JStr "demo");
                        ("exports",
                         JObj [("./index",
                                JObj [("import", JStr "./dist/index.js");
                                      ("require", JStr "./dist/index.js");
                                      ("types", JStr "./dist/index.d.ts")]);
                               ("./lib/types",
                                JObj [("types", JStr "./dist/lib/types.d.ts")])]);
                        ("version", JStr "1.0.0")])).
Proof.
  eexists. split; [vm_compute; reflexivity|].
  destruct (C4_only_exports_replaced Demo.node ["dist"] Demo.world0 _ eq_refl)
    as (pl & wp & text & args & Hplan & _ & _ & Hafter & _).
  vm_compute in Hplan. injection Hplan as <- _.
  exact Hafter.
Defined.

(** C4, as the claim has it, fails for a manifest with a number that
    no double holds.  The manifest is
    [{ name: demo, limit: 1e400 }] on one line; [JSON.parse] reads the
    limit as an infinity, [JSON.stringify] writes an infinity as
    [null], and after the run [gen-exports.js dist] the field [limit]
    of the manifest is [null]. *)
Lemma C4_counterexample :
  readFile Demo.fsLimit "/w/package.json" = Some Demo.manifestLimitText
  /\ JSON_parse Demo.node Demo.manifestLimitText
     = Some (JObj [("name", JStr "demo"); ("limit", JNum "Infinity")])
  /\ fst (run Demo.node ["dist"] Demo.worldLimit) = Some 0
  /\ readFile (w_fs (snd (run Demo.node ["dist"] Demo.worldLimit)))
       "/w/package.json"
     = Some (Demo.manifestText
               (JObj [("name", JStr "demo");
                      ("limit", JNull);
                      ("exports",
                       JObj [("./index",
                              JObj [("import", JStr "./dist/index.js");
                                    ("require", JStr "./dist/index.js")])])]))
  /\ JSON_parse Demo.node
       (Demo.manifestText
          (JObj [("name", JStr "demo");
                 ("limit", JNull);
                 ("exports",
                  JObj [("./index",
                         JObj [("import", JStr "./dist/index.js");
                               ("require", JStr "./dist/index.js")])])]))
     = Some (JObj [("name", JStr "demo");
                   ("limit", JNull);
                   ("exports",
                    JObj [("./index",
                           JObj [("import", JStr "./dist/index.js");
                                 ("require", JStr "./dist/index.js")])])]).
Proof. repeat split; vm_compute; reflexivity. Qed.






(* ================================================================== *)
(** * Further properties of the script *)

Import Notions MoreFacts.

(** X1.  [parseCliArgs] accepts a command line exactly when the words
    after the build directory are options ([-i], [--exclude], [-p],
    [--pkg], [-e], [--exclude-placeholder]), each followed by a word
    that is not empty; it then returns without printing anything, with
    the first word as build directory.  Any word can be a value, also
    one that is the name of an option.  A command line that is not
    accepted has a first word that is out of place: a word at the place
    of an option that is not an option, or an option that is the last
    word or is followed by the empty word; [parseCliArgs] then prints
    [Unknown argument:] with that word, prints the usage line and exits
    with code 1.  Without any word it prints the usage line alone and
    exits with code 1. *)
Theorem X1_command_line_shape :
  forall (dir : string) (flags : list string) (w : World),
    (accepted flags = true ->
       exists args,
         parseCliArgs (dir :: flags) w = (Ret args, w) /\ buildDirArg args = dir)
    /\ (accepted flags = false ->
          exists good bad tail,
            flags = (good ++ bad :: tail)%list /\ accepted good = true /\
            (isFlag bad = false \/ tail = [] \/ exists t, tail = "" :: t))
    /\ (forall good bad tail,
          flags = (good ++ bad :: tail)%list -> accepted good = true ->
          (isFlag bad = false \/ tail = [] \/ exists t, tail = "" :: t) ->
          parseCliArgs (dir :: flags) w =
          (Exit 1, addLines w [Err ("Unknown argument: " ++ bad); Err usage]))
    /\ parseCliArgs [] w = (Exit 1, addLines w [Err usage]).
Proof.
  intros dir flags w. split; [|split; [|split]].
  - intros H. eexists. cbn [parseCliArgs].
    rewrite parseFlags_accepted by exact H. split; [reflexivity|].
    apply stored_buildDirArg.
  - apply rejected_split.
  - intros good bad tail -> Hg Hb. cbn [parseCliArgs].
    now apply parseFlags_rejected.
  - reflexivity.
Qed.

(** The command line [dist -i a -p]: the option [-p] has no value. *)
Lemma X1_command_line_shape_witness :
  parseCliArgs ["dist"; "-i"; "a"; "-p"] Demo.world0 =
  (Exit 1, addLines Demo.world0 [Err "Unknown argument: -p"; Err usage])
  /\ exists args,
       parseCliArgs ["dist"; "-i"; "-p"] Demo.world0 = (Ret args, Demo.world0)
       /\ buildDirArg args = "dist".
Proof.
  split.
  - apply (proj1 (proj2 (proj2
             (X1_command_line_shape "dist" ["-i"; "a"; "-p"] Demo.world0)))
             ["-i"; "a"] "-p" []);
      [reflexivity | reflexivity | right; left; reflexivity].
  - apply (proj1 (X1_command_line_shape "dist" ["-i"; "-p"] Demo.world0)).
    reflexivity.
Defined.

(** X2.  The options are read from left to right, two words at a time:
    after an even number of words the loop of [parseCliArgs] goes on
    with the rest as if it started there, with what the first words
    stored.  So an option given after accepted options is accepted and
    replaces what an earlier occurrence of it stored and nothing else:
    a second [-i] replaces the whole exclusion list, it does not add to
    it. *)
Theorem X2_options_compose :
  (forall (a b : list string) (st : CliArgs) (w : World),
      Nat.even (length a) = true ->
      parseFlags (a ++ b) st w = bind (parseFlags a st) (parseFlags b) w)
  /\ (forall (dir : string) (a : list string) (flag v : string) (w : World),
        accepted a = true -> isFlag flag = true -> v <> "" ->
        exists before after,
          parseCliArgs (dir :: a) w = (Ret before, w)
          /\ parseCliArgs (dir :: a ++ [flag; v]) w = (Ret after, w)
          /\ after = store flag v before
          /\ buildDirArg after = dir
          /\ (flag = "-i" \/ flag = "--exclude" ->
              excludeNames after = parseExcludeNames v
              /\ pkgPathArg after = pkgPathArg before
              /\ placeholder after = placeholder before)
          /\ (flag = "-p" \/ flag = "--pkg" ->
              pkgPathArg after = Some v
              /\ excludeNames after = excludeNames before
              /\ placeholder after = placeholder before)
          /\ (flag = "-e" \/ flag = "--exclude-placeholder" ->
              placeholder after = v
              /\ excludeNames after = excludeNames before
              /\ pkgPathArg after = pkgPathArg before)).
Proof.
  split.
  - intros a b st w H. now apply parseFlags_app.
  - intros dir a flag v w Ha Hf Hv.
    set (st := mkCliArgs dir [] None "$RESERVED$").
    exists (stored a st), (store flag v (stored a st)).
    split; [cbn [parseCliArgs]; now apply parseFlags_accepted|].
    split.
    { cbn [parseCliArgs]. fold st.
      rewrite parseFlags_app by now apply accepted_even.
      unfold bind. rewrite parseFlags_accepted by exact Ha.
      rewrite parseFlags_good; [reflexivity | exact Hf | now apply truthy_true]. }
    split; [reflexivity|].
    split.
    { transitivity (buildDirArg (stored a st)); [|apply stored_buildDirArg].
      unfold store. destruct ((flag =? "-i") || (flag =? "--exclude")); [reflexivity|].
      destruct ((flag =? "-p") || (flag =? "--pkg")); reflexivity. }
    split; [|split].
    + intros [-> | ->]; auto.
    + intros [-> | ->]; auto.
    + intros [-> | ->]; auto.
Qed.

(** The command line [dist -i a,b -p x.json -i c]. *)
Lemma X2_options_compose_witness :
  parseCliArgs ["dist"; "-i"; "a,b"; "-p"; "x.json"; "-i"; "c"] Demo.world0 =
  (Ret (mkCliArgs "dist" ["c"] (Some "x.json") "$RESERVED$"), Demo.world0).
Proof.
  destruct (proj2 X2_options_compose "dist" ["-i"; "a,b"; "-p"; "x.json"]
              "-i" "c" Demo.world0 eq_refl eq_refl)
    as (before & after & Hb & Ha & -> & _); [discriminate|].
  cbn [parseCliArgs] in Hb. injection Hb as <-. exact Ha.
Defined.

(** X3.  What [parseCliArgs] returns: it prints nothing; the build
    directory is the first word, whatever it is, also the empty word;
    the marker is never empty, so that the test [content.includes] is
    never trivially true; an override path is never empty; each name of
    the exclusion list is not empty, has no comma and neither starts
    nor ends with white space. *)
Theorem X3_parsed_options :
  forall (argv : list string) (w w' : World) (args : CliArgs),
    parseCliArgs argv w = (Ret args, w') ->
    w' = w
    /\ hd_error argv = Some (buildDirArg args)
    /\ placeholder args <> ""
    /\ (forall p, pkgPathArg args = Some p -> p <> "")
    /\ (forall n, In n (excludeNames args) ->
          n <> "" /\ ~ occurs ","%char n
          /\ (forall a, firstChar n = Some a -> isWhiteSpace a = false)
          /\ (forall a, lastChar n = Some a -> isWhiteSpace a = false)).
Proof.
  intros argv w w' args H.
  apply parseCliArgs_Ret in H as (dir & flags & -> & Hacc & -> & ->).
  split; [reflexivity|].
  split; [simpl; now rewrite stored_buildDirArg|].
  apply (stored_invariant
           (fun st =>
              placeholder st <> ""
              /\ (forall p, pkgPathArg st = Some p -> p <> "")
              /\ (forall n, In n (excludeNames st) ->
                    n <> "" /\ ~ occurs ","%char n
                    /\ (forall a, firstChar n = Some a -> isWhiteSpace a = false)
                    /\ (forall a, lastChar n = Some a -> isWhiteSpace a = false))));
    [|exact Hacc|].
  - intros arg next st Hf Hn (Hp & Ho & He). unfold store.
    destruct ((arg =? "-i") || (arg =? "--exclude")).
    + split; [exact Hp|]. split; [exact Ho|]. cbn [excludeNames].
      intros n (Hne & piece & Hin & ->)%In_parseExcludeNames.
      split; [exact Hne|]. split.
      * intros Hc%trim_occurs. exact (split_no_sep _ _ _ Hin Hc).
      * destruct (trim_spec piece) as (l & r & _ & _ & _ & Hfirst & Hlast). auto.
    + destruct ((arg =? "-p") || (arg =? "--pkg")).
      * split; [exact Hp|]. split; [|exact He]. cbn [pkgPathArg].
        intros p [= <-]. exact Hn.
      * split; [exact Hn|]. split; [exact Ho | exact He].
  - split; [discriminate|]. split; [discriminate | intros n []].
Qed.

(** The command line with the empty word as build directory. *)
Lemma X3_parsed_options_witness :
  parseCliArgs [""; "-e"; "x"; "-i"; " a ,"] Demo.world0 =
    (Ret (mkCliArgs "" ["a"] None "x"), Demo.world0)
  /\ placeholder (mkCliArgs "" ["a"] None "x") <> "".
Proof.
  split; [reflexivity|].
  exact (proj1 (proj2 (proj2
           (X3_parsed_options [""; "-e"; "x"; "-i"; " a ,"] Demo.world0
              Demo.world0 (mkCliArgs "" ["a"] None "x") eq_refl)))).
Defined.

(** X4.  [findNearestPackageJson] changes nothing, prints nothing and
    neither exits nor throws.  It looks at [package.json] in the start
    directory, then in its parent and so on, and returns the first one
    that exists: above every directory it passed without finding the
    file, it went on only because that directory was not the root
    directory given and was not its own parent.  It returns [null] at
    the first directory without the file that is the root directory
    given or its own parent (the root of the file system); when the
    start directory is not below the root directory given, the search
    therefore passes it by and goes up to the root of the file system.
    With the [path] module of a POSIX host the loop always ends. *)
Theorem X4_nearest_manifest :
  forall (R : Runtime) (startDir rootDir : string) (w w' : World)
         (out : Outcome (option string)),
    findNearestPackageJson R startDir rootDir w = (out, w') ->
    w' = w
    /\ (exists k,
          (forall j, j < k ->
             existsSync (w_fs w) (candidate (path R) j startDir) = false
             /\ above (path R) j startDir <> rootDir
             /\ above (path R) (S j) startDir <> above (path R) j startDir)
          /\ match out with
             | Ret (Some found) =>
                 found = candidate (path R) k startDir
                 /\ existsSync (w_fs w) found = true
             | Ret None =>
                 existsSync (w_fs w) (candidate (path R) k startDir) = false
                 /\ (above (path R) k startDir = rootDir
                     \/ above (path R) (S k) startDir
                        = above (path R) k startDir)
             | Diverge => k = String.length startDir + 2
             | Exit _ | Throw _ => False
             end)
    /\ (forall host, path R = Posix.posix host -> out <> Diverge).
Proof.
  intros R startDir rootDir w w' out H.
  pose proof H as Hspec. unfold findNearestPackageJson in Hspec.
  apply findNearestLoop_spec in Hspec as (-> & k & _ & Hbelow & Hout).
  split; [reflexivity|]. split; [now exists k|].
  intros host Hposix ->. unfold findNearestPackageJson in H.
  exact (halts_findNearestLoop R host Hposix _ startDir rootDir
           (Nat.le_refl _) w w H).
Qed.

(** The search from [/w/dist/lib] with [/w] as root. *)
Lemma X4_nearest_manifest_witness :
  exists k, "/w/package.json" = candidate (path Demo.node) k "/w/dist/lib".
Proof.
  destruct (X4_nearest_manifest Demo.node "/w/dist/lib" "/w" Demo.world0
              Demo.world0 (Ret (Some "/w/package.json")) eq_refl)
    as (_ & (k & _ & Hk & _) & _).
  now exists k.
Defined.

(** X5.  [resolvePaths] never throws: it returns, or it prints one
    line of error and exits with code 1 (on a host that is not POSIX
    the model also allows that the upward search does not end).  When
    it returns it has changed and printed nothing; the build directory
    is the first argument resolved against the working directory, and
    it exists and is a directory; the manifest path exists (it is not
    checked to be a file) and the manifest directory is its
    [path.dirname]; with an override that is not empty the manifest
    path is the override resolved against the working directory;
    without one (or with the empty string) it is what the upward search
    from the build directory returned, or [package.json] in the working
    directory when the search found nothing. *)
Theorem X5_resolved_paths :
  forall (R : Runtime) (buildDirArg : string) (pkgPathArg : option string)
         (w w' : World) (out : Outcome Paths),
    resolvePaths R buildDirArg pkgPathArg w = (out, w') ->
    match out with
    | Ret paths =>
        w' = w
        /\ distDir paths = resolve (path R) [cwd R; buildDirArg]
        /\ lookup (w_fs w) (distDir paths) = Some Dir
        /\ existsSync (w_fs w) (pkgPath paths) = true
        /\ pkgDir paths = dirname (path R) (pkgPath paths)
        /\ (forall arg, pkgPathArg = Some arg -> arg <> "" ->
              pkgPath paths = resolve (path R) [cwd R; arg])
        /\ (pkgPathArg = None \/ pkgPathArg = Some "" ->
              exists nearest,
                findNearestPackageJson R (distDir paths) (cwd R) w
                  = (Ret nearest, w)
                /\ pkgPath paths =
                   match nearest with
                   | Some p => p
                   | None => join (path R) (cwd R) "package.json"
                   end)
    | Exit code =>
        code = 1 /\ exists message, w' = addLine w (Err message)
    | Throw _ => False
    | Diverge => forall host, path R <> Posix.posix host
    end.
Proof.
  intros R buildDirArg pkgPathArg w w' out H.
  destruct out as [paths|code|e|].
  - now apply resolvePaths_Ret in H.
  - apply resolvePaths_outcome in H as [[paths E]|[[E Hm]|E]];
      [discriminate | | discriminate].
    injection E as ->. auto.
  - apply resolvePaths_outcome in H as [[paths E]|[[E _]|E]]; discriminate.
  - intros host Hposix. exact (halts_resolvePaths R host Hposix _ _ w w' H).
Qed.

(** [gen-exports.js dist] in [/w]. *)
Lemma X5_resolved_paths_witness :
  resolvePaths Demo.node "dist" None Demo.world0
    = (Ret (mkPaths "/w/package.json" "/w" "/w/dist"), Demo.world0)
  /\ lookup Demo.fs0 "/w/dist" = Some Dir.
Proof.
  split; [reflexivity|].
  exact (proj1 (proj2 (proj2
           (X5_resolved_paths Demo.node "dist" None Demo.world0 Demo.world0
              (Ret (mkPaths "/w/package.json" "/w" "/w/dist")) eq_refl)))).
Defined.

(** X6.  The build directory is checked before anything is done about
    the manifest: when the first argument, resolved against the working
    directory, does not exist or is a file, the run of an accepted
    command line prints the one line
    [Error: build directory not found or not a directory: ...] with
    the resolved path and exits with code 1, whatever the options say
    and whatever manifest exists; nothing is written. *)
Theorem X6_build_directory_first :
  forall (R : Runtime) (dir : string) (flags : list string) (w : World),
    accepted flags = true ->
    lookup (w_fs w) (resolve (path R) [cwd R; dir]) <> Some Dir ->
    run R (dir :: flags) w =
    (Some 1,
     addLine w (Err ("Error: build directory not found or not a directory: "
                     ++ resolve (path R) [cwd R; dir]))).
Proof.
  intros R dir flags w Hacc Hdir.
  apply (run_paths_exit R _ _ (stored flags (mkCliArgs dir [] None "$RESERVED$"))).
  - cbn [parseCliArgs]. now apply parseFlags_accepted.
  - rewrite stored_buildDirArg. now apply resolvePaths_no_build_dir.
Qed.

(** [gen-exports.js package.json -p package.json] in [/w]: the build
    directory is a file. *)
Lemma X6_build_directory_first_witness :
  run Demo.node ["package.json"; "-p"; "package.json"] Demo.world0 =
  (Some 1,
   addLine Demo.world0
     (Err "Error: build directory not found or not a directory: /w/package.json")).
Proof.
  apply (X6_build_directory_first Demo.node "package.json"
           ["-p"; "package.json"] Demo.world0); [reflexivity | discriminate].
Defined.

(** X7.  An explicit override is final.  When the command line gives a
    manifest path with [-p] or [--pkg] and that path, resolved against
    the working directory, does not exist, the run prints the one line
    [Error: package.json not found at override path: ...] and exits
    with code 1 without writing anything: it does not fall back to the
    upward search, whatever manifests exist above the build directory
    or in the working directory. *)
Theorem X7_override_is_final :
  forall (R : Runtime) (argv : list string) (w : World) (args : CliArgs)
         (arg : string),
    parseCliArgs argv w = (Ret args, w) ->
    pkgPathArg args = Some arg ->
    lookup (w_fs w) (resolve (path R) [cwd R; buildDirArg args]) = Some Dir ->
    existsSync (w_fs w) (resolve (path R) [cwd R; arg]) = false ->
    run R argv w =
    (Some 1,
     addLine w (Err ("Error: package.json not found at override path: "
                     ++ resolve (path R) [cwd R; arg]))).
Proof.
  intros R argv w args arg Hp Harg Hdir Hmiss.
  apply (run_paths_exit R _ _ args); [exact Hp|].
  rewrite Harg, resolvePaths_override; [now rewrite Hmiss | | exact Hdir].
  exact (override_not_empty _ _ _ _ _ Hp Harg).
Qed.

(** [gen-exports.js dist -p missing.json] in [/w], where
    [/w/package.json] exists. *)
Lemma X7_override_is_final_witness :
  run Demo.node ["dist"; "-p"; "missing.json"] Demo.world0 =
  (Some 1,
   addLine Demo.world0
     (Err "Error: package.json not found at override path: /w/missing.json"))
  /\ existsSync Demo.fs0 "/w/package.json" = true.
Proof.
  split; [|reflexivity].
  apply (X7_override_is_final Demo.node ["dist"; "-p"; "missing.json"]
           Demo.world0 (mkCliArgs "dist" [] (Some "missing.json") "$RESERVED$")
           "missing.json"); reflexivity.
Defined.

(** X8.  The keys of the export map, in their order, for files
    without an artifact of the module path [__proto__].  The groups
    are created in the order in which their module paths first occur
    in the listing; the loop [for (const base in grouped)] visits the
    module paths that are array indices first, in ascending order, and
    then the others in the order of creation; the export map gets one
    key for each module that is kept, in the order of the visit, and
    no key twice.  So when no module path is an array index, the keys
    of the export map follow the listing of the files. *)
Theorem X8_export_keys_in_order :
  forall (R : Runtime) (files : list string) (opts : Options)
         (w w' : World) (exportsMap : Obj Entry),
    ordinary files ->
    buildExportsMap R files opts w = (Ret exportsMap, w') ->
    let G := groupFiles files in
    let kept := fun b => isKept (stepResult R (w_fs w) opts G b) in
    keys G = distinct (bases files)
    /\ forIn G = enumOrder (distinct (bases files))
    /\ keys exportsMap = map (append "./") (filter kept (forIn G))
    /\ NoDup (keys exportsMap)
    /\ (forall b, In b (keys G) ->
          (kept b = true <-> exists entry, get ("./" ++ b) exportsMap = Some entry))
    /\ ((forall b, In b (bases files) -> arrayIndex b = None) ->
        keys exportsMap
        = map (append "./") (filter kept (distinct (bases files)))).
Proof.
  intros R files opts w w' exportsMap Hord H G kept.
  assert (HG : keys G = distinct (bases files)) by now apply keys_groupFiles.
  assert (Hin : forIn G = enumOrder (distinct (bases files))).
  { unfold G. rewrite (forIn_plain _ (groupFiles_proto files Hord)).
    unfold ownKeys. fold G. now rewrite HG. }
  destruct (build_order R files opts w exportsMap w' H) as [Hkeys _].
  fold G in Hkeys. fold kept in Hkeys.
  split; [exact HG|]. split; [exact Hin|].
  split; [exact Hkeys|]. split; [|split].
  - rewrite Hkeys. apply NoDup_map_append, NoDup_filter, NoDup_forIn.
  - intros b Hb. destruct (build_loop Hord H) as (_ & _ & _ & _ & Hfrom & Hkept).
    fold G in Hfrom, Hkept. unfold kept. split.
    + destruct (stepResult R (w_fs w) opts G b) as [| | |entry] eqn:Es;
        try discriminate.
      intros _. exists entry. now apply Hkept.
    + intros [entry (k & _ & E & Hs)%Hfrom].
      apply append_inv_head in E. subst k. now rewrite Hs.
  - intros Hnames. rewrite Hkeys, Hin.
    rewrite enumOrder_names; [reflexivity|].
    intros k Hk. apply Hnames. now apply In_distinct.
Qed.

(** The listing [b.js], [10.d.ts], [a.js], [b.d.ts], [2.js]. *)
Lemma X8_export_keys_in_order_witness :
  buildExportsMap Demo.node Samples.filesOrder Demo.opts0 Samples.worldOrder
    = (Ret Samples.mapOrder, Samples.worldOrder)
  /\ keys Samples.mapOrder = ["./2"; "./10"; "./b"; "./a"].
Proof.
  split; [reflexivity|].
  exact (proj1 (proj2 (proj2
           (X8_export_keys_in_order Demo.node Samples.filesOrder Demo.opts0
              Samples.worldOrder Samples.worldOrder Samples.mapOrder
              (ordinary_decide Samples.filesOrder eq_refl) eq_refl)))).
Defined.

(** X9.  For files without an artifact of the module path
    [__proto__], the export map depends on the set of the files only:
    for two listings with the same members, in any order and with any
    repetitions, [buildExportsMap] returns for the one when it returns
    for the other, the two maps have the same entry under every key and
    the same warnings are printed.  (The order of the keys and of the
    warnings follows the listing.) *)
Theorem X9_map_of_file_set :
  forall (R : Runtime) (files files' : list string) (opts : Options)
         (w w1 : World) (exportsMap : Obj Entry),
    ordinary files ->
    (forall f, In f files <-> In f files') ->
    buildExportsMap R files opts w = (Ret exportsMap, w1) ->
    exists exportsMap' w1',
      buildExportsMap R files' opts w = (Ret exportsMap', w1')
      /\ (forall key, get key exportsMap' = get key exportsMap)
      /\ (forall line, In line (w_console w1') <-> In line (w_console w1)).
Proof.
  intros R files files' opts w w1 m Hord Hsame H.
  pose proof (ordinary_ext files files' Hsame Hord) as Hord'.
  pose proof (fieldsOf_ext _ _ Hord Hsame) as Hget.
  pose proof (keys_groupFiles_ext _ _ Hord Hsame) as Hkeys.
  assert (Hstep : forall b,
             stepResult R (w_fs w) opts (groupFiles files') b
             = stepResult R (w_fs w) opts (groupFiles files) b).
  { intros b. apply stepResult_ext. symmetry. apply Hget. }
  destruct (build_loop Hord H) as (_ & _ & Hcon & Hfail & Hfrom & Hkept).
  destruct (loop_total R opts (groupFiles files') (forIn (groupFiles files'))
              [] w) as (m' & w1' & H').
  { intros k e Hin. rewrite Hstep. apply Hfail.
    apply (In_forIn_groupFiles files' k Hord') in Hin. now apply Hkeys. }
  exists m', w1'. split; [exact H'|].
  destruct (build_loop Hord' H') as (_ & _ & Hcon' & _ & Hfrom' & Hkept').
  split.
  - intros key. apply option_ext. intros e. split.
    + intros (k & Hin & -> & Hs)%Hfrom'. apply Hkept.
      * now apply Hkeys.
      * now rewrite <- Hstep.
    + intros (k & Hin & -> & Hs)%Hfrom. apply Hkept'.
      * now apply Hkeys.
      * now rewrite Hstep.
  - intros line. rewrite Hcon, Hcon'.
    split; (intros [Hl|(k & f & Hin & Hs & ->)]; [now left|]); right; exists k, f.
    + split; [now apply Hkeys|]. now rewrite <- Hstep.
    + split; [now apply Hkeys|]. now rewrite Hstep.
Qed.

(** The files of [/w/dist] in another order, one of them twice. *)
Lemma X9_map_of_file_set_witness :
  exists exportsMap' w1',
    buildExportsMap Demo.node Samples.files0' Demo.opts0 Demo.world0
    = (Ret exportsMap', w1')
    /\ get "./index" exportsMap' =
       Some (mkEntry (Some "./dist/index.js") (Some "./dist/index.js")
                     (Some "./dist/index.d.ts")).
Proof.
  destruct (X9_map_of_file_set Demo.node Demo.files0 Samples.files0'
              Demo.opts0 Demo.world0
              (snd (buildExportsMap Demo.node Demo.files0 Demo.opts0 Demo.world0))
              Samples.map0)
    as (m' & w1' & H' & Hget & _).
  - exact (ordinary_decide Demo.files0 eq_refl).
  - intros f. simpl. tauto.
  - reflexivity.
  - exists m', w1'. split; [exact H'|]. now rewrite Hget.
Defined.

(** X10.  [buildExportsMap] either returns or throws the error of a
    read that failed; it never exits, and either way it leaves every
    file as it is.  For files without an artifact of the module path
    [__proto__] it returns exactly when every artifact that it has to
    read can be read: for each module whose name is not excluded, the
    runtime artifact if it is listed, and the declaration if it is
    listed, unless the runtime artifact is listed and contains the
    marker.  So an artifact that cannot be read does no harm when its
    module is excluded by name, or when it is the declaration of a
    module whose runtime artifact is marked: the name is tested before
    any file is read, and the declaration is read only after the
    runtime artifact was found clean. *)
Theorem X10_reads_that_matter :
  forall (R : Runtime) (files : list string) (opts : Options) (w : World),
    let fs := w_fs w in
    (forall out w', buildExportsMap R files opts w = (out, w') ->
        w_fs w' = w_fs w /\ w_writes w' = w_writes w
        /\ ((exists exportsMap, out = Ret exportsMap) \/ exists e, out = Throw e))
    /\ (ordinary files ->
        ((exists exportsMap w', buildExportsMap R files opts w = (Ret exportsMap, w'))
         <->
         forall b,
           includesName (o_excludeNames opts) (basename (path R) b) = false ->
           (In (b ++ ".js") files -> readable R opts fs (b ++ ".js"))
           /\ (In (b ++ ".d.ts") files ->
               (In (b ++ ".js") files -> ~ marked R opts fs (b ++ ".js")) ->
               readable R opts fs (b ++ ".d.ts")))).
Proof.
  intros R files opts w fs. split.
  - intros out w' H.
    apply build_outcome in H as (Hfs & Hwr & [Hr|(b & e & _ & _ & Ho)]).
    + auto.
    + split; [exact Hfs|]. split; [exact Hwr|]. right. now exists e.
  - intros Hord. split.
    + intros (m & w' & H) b Hex.
      destruct (build_loop Hord H) as (_ & _ & _ & Hfail & _).
      assert (Hno : In b (keys (groupFiles files)) ->
                    ~ exists e, stepResult R (w_fs w) opts (groupFiles files) b
                                = Failed e).
      { intros Hin [e He]. exact (Hfail b e Hin He). }
      split.
      * intros Hjs.
        assert (Hin : In b (keys (groupFiles files))).
        { apply (In_keys_groupFiles files b Hord). now exists ExtJs. }
        pose proof (probe_artifact_cases R opts fs (b ++ ".js")) as C.
        destruct (probe R fs opts (Some (b ++ ".js"))) eqn:Ep.
        -- apply C.
        -- apply C.
        -- exfalso. apply (Hno Hin).
           apply (step_Failed_iff R opts files Hord (w_fs w) b Hin).
           split; [exact Hex|]. left. auto.
      * intros Hdts Hclean.
        assert (Hin : In b (keys (groupFiles files))).
        { apply (In_keys_groupFiles files b Hord). now exists ExtDts. }
        pose proof (probe_artifact_cases R opts fs (b ++ ".d.ts")) as C.
        destruct (probe R fs opts (Some (b ++ ".d.ts"))) eqn:Ep.
        -- apply C.
        -- apply C.
        -- exfalso. apply (Hno Hin).
           apply (step_Failed_iff R opts files Hord (w_fs w) b Hin).
           split; [exact Hex|]. right. auto.
    + intros Hread. apply loop_total. intros k e Hin Hs.
      apply (In_forIn_groupFiles files k Hord) in Hin.
      assert (Hf : exists e, stepResult R (w_fs w) opts (groupFiles files) k
                             = Failed e) by now exists e.
      apply (step_Failed_iff R opts files Hord (w_fs w) k Hin) in Hf
        as (Hex & [[Hjs Hn]|(Hdts & Hn & Hclean)]).
      * apply Hn. now apply (Hread k Hex).
      * apply Hn. now apply (Hread k Hex).
Qed.

(** The files of [/w/dist] can all be read. *)
Lemma X10_reads_that_matter_witness :
  readable Demo.node Demo.opts0 Demo.fs0 "index.js".
Proof.
  assert (H : exists exportsMap w',
             buildExportsMap Demo.node Demo.files0 Demo.opts0 Demo.world0
             = (Ret exportsMap, w')) by (eexists; eexists; reflexivity).
  apply (proj1 (proj2 (X10_reads_that_matter Demo.node Demo.files0 Demo.opts0
                         Demo.world0) (ordinary_decide Demo.files0 eq_refl))
           H "index" eq_refl).
  simpl. auto.
Defined.

(** X11.  The warnings.  [buildExportsMap] prints one line for each
    key for which its loop finds a file with the marker and nothing
    else, in the order in which the loop visits the keys.  For files
    without an artifact of the module path [__proto__] these are the
    modules dropped for the marker: the line names the runtime
    artifact when that one contains the marker; it names the
    declaration when the declaration contains the marker and the
    runtime artifact is absent or clean.  When both artifacts of a
    module contain the marker there is one warning, for the runtime
    artifact: the declaration is not read. *)
Theorem X11_one_warning_per_module :
  forall (R : Runtime) (files : list string) (opts : Options)
         (w w' : World) (exportsMap : Obj Entry),
    buildExportsMap R files opts w = (Ret exportsMap, w') ->
    let G := groupFiles files in
    let fs := w_fs w in
    let warning := fun b => warningOf (o_placeholder opts)
                              (stepResult R fs opts G b) in
    w' = addLines w (flat_map warning (forIn G))
    /\ List.length (flat_map warning (forIn G))
       = List.length
           (filter (fun b => isSkipped (stepResult R fs opts G b)) (forIn G))
    /\ (forall b,
          warning b = []
          \/ exists f, In f files
                       /\ warning b = [Warn (skipping f (o_placeholder opts))])
    /\ (ordinary files ->
        forIn G = ownKeys G
        /\ forall b f,
             In b (forIn G) ->
             (warning b = [Warn (skipping f (o_placeholder opts))]
              <->
              includesName (o_excludeNames opts) (basename (path R) b) = false
              /\ ((f = b ++ ".js" /\ In f files /\ marked R opts fs f)
                  \/ (f = b ++ ".d.ts" /\ In f files /\ marked R opts fs f
                      /\ (In (b ++ ".js") files ->
                          ~ marked R opts fs (b ++ ".js")))))).
Proof.
  intros R files opts w w' exportsMap H G fs warning.
  destruct (build_order R files opts w exportsMap w' H) as [_ Hw].
  split; [exact Hw|]. split; [apply length_warnings|]. split.
  - intros b. unfold warning.
    destruct (stepResult R fs opts G b) as [|f0| |] eqn:Es; cbn [warningOf];
      auto.
    right. exists f0. split; [|reflexivity].
    exact (step_Skipped_In R opts files fs b f0 Es).
  - intros Hord. split; [exact (forIn_plain _ (groupFiles_proto files Hord))|].
    intros b f Hin. apply (In_forIn_groupFiles files b Hord) in Hin.
    destruct (build_loop Hord H) as (_ & _ & _ & Hfail & _).
    rewrite <- (step_Skipped_iff R opts files Hord fs b f Hin
                  (fun e => Hfail b e Hin)).
    unfold warning. fold G.
    destruct (stepResult R fs opts G b) as [|f0| |]; cbn [warningOf].
    + split; discriminate.
    + split; [|now intros [= ->]]. intros E. f_equal.
      assert (E' : skipping f0 (o_placeholder opts)
                   = skipping f (o_placeholder opts)) by congruence.
      now apply skipping_inj in E'.
    + split; discriminate.
    + split; discriminate.
Qed.

(** The run of [buildExportsMap] on the files of [/w/dist]. *)
Lemma X11_one_warning_per_module_witness :
  snd (buildExportsMap Demo.node Demo.files0 Demo.opts0 Demo.world0)
  = addLines Demo.world0 [Warn (skipping "internal/helper.js" "$RESERVED$")].
Proof.
  exact (proj1 (X11_one_warning_per_module Demo.node Demo.files0 Demo.opts0
                  Demo.world0
                  (snd (buildExportsMap Demo.node Demo.files0 Demo.opts0
                          Demo.world0))
                  Samples.map0 eq_refl)).
Defined.

(** X12.  The empty marker.  Every string includes the empty string,
    so [buildExportsMap] called with the empty string as marker drops
    every module that it reads: the export map it returns is empty.
    ([parseCliArgs] never yields the empty marker.) *)
Theorem X12_empty_marker_drops_all :
  forall (R : Runtime) (files : list string) (opts : Options)
         (w w' : World) (exportsMap : Obj Entry),
    o_placeholder opts = "" ->
    buildExportsMap R files opts w = (Ret exportsMap, w') ->
    exportsMap = [].
Proof.
  intros R files opts w w' exportsMap Hph H.
  destruct exportsMap as [|[key entry] rest]; [reflexivity|]. exfalso.
  assert (Hget : get key ((key, entry) :: rest) = Some entry).
  { simpl. now rewrite String.eqb_refl. }
  destruct (build_loop_forIn H) as (_ & _ & _ & _ & Hfrom & _).
  apply Hfrom in Hget as (b & Hin & -> & Hs).
  destruct (forIn_field files b Hin) as (e & f & Hf).
  unfold stepResult in Hs.
  destruct (includesName _ _); [discriminate|].
  destruct (probe R (w_fs w) opts (g_js _)) eqn:Pjs; try discriminate.
  destruct (probe R (w_fs w) opts (g_dts _)) eqn:Pdts; try discriminate.
  assert (Hp : probe R (w_fs w) opts (getExt e (fieldsOf (groupFiles files) b))
               = Clean) by now destruct e.
  rewrite Hf in Hp. apply probe_Clean in Hp as (c & _ & Hc).
  rewrite Hph, includes_empty in Hc. discriminate.
Qed.

(** The files of [/w/dist] with the empty marker: one warning for each
    of the three modules and no entry. *)
Lemma X12_empty_marker_drops_all_witness :
  buildExportsMap Demo.node Demo.files0 Samples.optsEmptyMarker Demo.world0
    = (Ret Samples.mapEmptyMarker, Samples.worldEmptyMarker)
  /\ Samples.mapEmptyMarker = []
  /\ List.length (w_console Samples.worldEmptyMarker) = 3.
Proof.
  split; [reflexivity|]. split; [|reflexivity].
  exact (X12_empty_marker_drops_all Demo.node Demo.files0
           Samples.optsEmptyMarker Demo.world0 Samples.worldEmptyMarker
           Samples.mapEmptyMarker eq_refl eq_refl).
Defined.



(** X14.  What a run that succeeds prints: nothing while it reads the
    command line, the paths and the manifest; then the warnings of the
    loop over the groups, one for each key that is dropped for the
    marker, in the order of the loop, each naming a file of the
    listing; then, after the manifest is written, the confirmation
    with the path of the manifest and, after [Keys: ], the keys of the
    export map, all of them, in the order in which the written
    manifest lists them, separated by a comma and a space. *)
Theorem X14_confirmation :
  forall (R : Runtime) (argv : list string) (w w' : World),
    run R argv w = (Some 0, w') ->
    exists pl wp args,
      plan R argv w = (Ret pl, wp)
      /\ parseCliArgs argv w = (Ret args, w)
      /\ let opts := mkOptions (distDir (p_paths pl)) (pkgDir (p_paths pl))
                               (excludeNames args) (placeholder args) in
         let G := groupFiles (p_files pl) in
         let step := stepResult R (w_fs w) opts G in
         let warnings :=
           flat_map (fun b => warningOf (placeholder args) (step b)) (forIn G) in
         w_console wp = (w_console w ++ warnings)%list
         /\ warnings
            = flat_map (fun b => match step b with
                                 | SkippedFor f =>
                                     [Warn (skipping f (placeholder args))]
                                 | _ => []
                                 end) (forIn G)
         /\ List.length warnings
            = List.length (filter (fun b => isSkipped (step b)) (forIn G))
         /\ (forall b f, step b = SkippedFor f ->
               In f (p_files pl)
               /\ get ("./" ++ b) (p_exports pl) = None)
         /\ w_console w' =
            (w_console w ++ warnings
             ++ [Log (confirmation (pkgPath (p_paths pl))
                        (keys (p_exports pl)))])%list
         /\ ownKeys (p_exports pl) = keys (p_exports pl)
         /\ exportsJson (p_exports pl)
            = JObj (map (fun kv => (fst kv, entryJson (snd kv)))
                      (p_exports pl)).
Proof.
  intros R argv w w' Hrun.
  destruct (run_cases R argv w _ _ Hrun)
    as [(_ & _ & _ & Hne)|(pl & wp & Hplan & _ & _ & Hcode)];
    [now contradiction Hne|].
  destruct (plan_stages R argv w pl wp Hplan)
    as (args & Hp & _ & _ & _ & Hb & _ & _).
  pose proof (build_order R _ _ _ _ _ Hb) as [_ Hw]. cbv zeta in Hw.
  exists pl, wp, args.
  split; [exact Hplan|]. split; [exact Hp|]. cbv zeta.
  set (opts := mkOptions (distDir (p_paths pl)) (pkgDir (p_paths pl))
                         (excludeNames args) (placeholder args)) in *.
  set (G := groupFiles (p_files pl)) in *.
  change (o_placeholder opts) with (placeholder args) in Hw.
  split; [now rewrite Hw|]. split; [reflexivity|].
  split; [apply length_warnings|]. split; [|split; [|split; [|reflexivity]]].
  - intros b f Hs. split; [exact (step_Skipped_In R opts _ _ b f Hs)|].
    destruct (get ("./" ++ b) (p_exports pl)) as [entry|] eqn:He; [|reflexivity].
    destruct (build_loop_forIn Hb) as (_ & _ & _ & _ & Hfrom & _).
    apply Hfrom in He as (k & _ & E & Hk). apply append_inv_head in E.
    subst k. fold opts in Hk. fold G in Hk. congruence.
  - rewrite (run_after_plan R argv w pl wp Hplan) in Hrun. cbv zeta in Hrun.
    destruct (match p_updated pl with JObj _ | JArr _ => true | _ => false end);
      [|discriminate].
    injection Hrun as <-. simpl. rewrite Hw. simpl. now rewrite <- app_assoc.
  - exact (ownKeys_exports R _ _ _ _ _ Hb).
Qed.

(** [gen-exports.js dist] in [/w]: one warning, for
    [internal/helper.js]. *)
Lemma X14_confirmation_witness :
  exists w',
    run Demo.node ["dist"] Demo.world0 = (Some 0, w')
    /\ exists pl,
         w_console w' =
         (w_console Demo.world0
          ++ [Warn (skipping "internal/helper.js" "$RESERVED$")]
          ++ [Log (confirmation (pkgPath (p_paths pl)) (keys (p_exports pl)))])%list.
Proof.
  exists (snd (run Demo.node ["dist"] Demo.world0)).
  split; [reflexivity|].
  destruct (X14_confirmation Demo.node ["dist"] Demo.world0
              (snd (run Demo.node ["dist"] Demo.world0)) eq_refl)
    as (pl & wp & args & Hplan & Hp & _ & _ & _ & _ & H & _).
  vm_compute in Hplan. injection Hplan as <- _.
  vm_compute in Hp. injection Hp as <-.
  exists (mkPlan (mkPaths "/w/package.json" "/w" "/w/dist") Demo.manifest0
            Demo.files0 Samples.map0
            (JObj [("name", JStr "demo");
                   ("exports", exportsJson Samples.map0);
                   ("version", JStr "1.0.0")])).
  exact H.
Defined.



(** X16.  The manifest that is chosen without an override, on a POSIX
    host, for a build directory inside the working directory: the
    upward search looks at [package.json] in the build directory and in
    each directory between it and the working directory, this one
    included, and at no other place; [resolvePaths] returns the nearest
    one that exists, with the directory that holds it as manifest
    directory.  When none of them exists it prints
    [Error: could not locate any package.json ...] and exits with code
    1: the fallback to [package.json] in the working directory is of no
    use there, the search has looked at it already. *)
Theorem X16_manifest_nearest_to_build_directory :
  forall (R : Runtime) (host : string) (c b : list string)
         (pkgPathArg : option string) (w : World),
    path R = Posix.posix host -> cwd R = Posix.absPath c ->
    Forall Posix.clean c -> Forall Posix.clean b ->
    pkgPathArg = None \/ pkgPathArg = Some "" ->
    lookup (w_fs w) (Posix.absPath (c ++ b)) = Some Dir ->
    let manifestIn :=
      fun keep => Posix.absPath (c ++ keep ++ ["package.json"]) in
    (forall keep drop,
        b = (keep ++ drop)%list ->
        existsSync (w_fs w) (manifestIn keep) = true ->
        (forall keep' drop',
            b = (keep' ++ drop')%list -> List.length keep < List.length keep' ->
            existsSync (w_fs w) (manifestIn keep') = false) ->
        resolvePaths R (Posix.joinSegments b) pkgPathArg w
        = (Ret (mkPaths (manifestIn keep) (Posix.absPath (c ++ keep))
                        (Posix.absPath (c ++ b))), w))
    /\ ((forall keep drop,
           b = (keep ++ drop)%list ->
           existsSync (w_fs w) (manifestIn keep) = false) ->
        resolvePaths R (Posix.joinSegments b) pkgPathArg w
        = (Exit 1,
           addLine w
             (Err ("Error: could not locate any package.json (tried "
                   ++ Posix.absPath (c ++ b) ++ " → " ++ Posix.absPath c
                   ++ ")")))).
Proof.
  intros R host c b pkgPathArg w Hposix Hcwd Hc Hb Hnone Hdir manifestIn.
  assert (Hres : resolve (path R) [cwd R; Posix.joinSegments b]
                 = Posix.absPath (c ++ b)).
  { rewrite Hposix, Hcwd. cbn [resolve Posix.posix].
    now apply PosixMoreFacts.resolve_below. }
  assert (Hroot : join (path R) (cwd R) "package.json" = manifestIn []).
  { rewrite Hposix, Hcwd. cbn [join Posix.posix].
    now apply PosixMoreFacts.join_manifest. }
  destruct (SearchFacts.nearest_posix R host Hposix c b w Hc Hb)
    as [Hfound Hnot].
  split.
  - intros keep drop Hsplit Hex Hmiss.
    pose proof (Hfound keep drop Hsplit Hex Hmiss) as Hnear.
    pose proof (resolvePaths_search R (Posix.joinSegments b) pkgPathArg w
                  (Some (manifestIn keep)) Hnone) as H.
    rewrite Hres, Hcwd in H. specialize (H Hdir Hnear). cbv zeta in H.
    rewrite Hex in H. rewrite H.
    rewrite Hposix. cbn [dirname Posix.posix]. unfold manifestIn.
    rewrite app_assoc, PosixMoreFacts.dirname_absPath_snoc; [reflexivity | |].
    + subst b. apply Forall_app in Hb as [Hk _]. apply Forall_app. auto.
    + apply PosixMoreFacts.clean_package_json.
  - intros Hmiss.
    pose proof (Hnot Hmiss) as Hnear.
    pose proof (resolvePaths_search R (Posix.joinSegments b) pkgPathArg w
                  None Hnone) as H.
    rewrite Hres, Hcwd in H. specialize (H Hdir Hnear). cbv zeta in H.
    rewrite <- Hcwd, Hroot in H at 1.
    rewrite (Hmiss [] b eq_refl) in H. exact H.
Qed.

(** [gen-exports.js dist/lib] in [/w]: no manifest in [/w/dist/lib] and
    [/w/dist], one in [/w]. *)
Lemma X16_manifest_nearest_to_build_directory_witness :
  resolvePaths Demo.node "dist/lib" None Demo.world0
  = (Ret (mkPaths "/w/package.json" "/w" "/w/dist/lib"), Demo.world0).
Proof.
  assert (Hw : Posix.clean "w").
  { split; [discriminate|]. split; [discriminate|]. split; [discriminate|].
    simpl. intuition discriminate. }
  assert (Hdist : Posix.clean "dist").
  { split; [discriminate|]. split; [discriminate|]. split; [discriminate|].
    simpl. intuition discriminate. }
  assert (Hlib : Posix.clean "lib").
  { split; [discriminate|]. split; [discriminate|]. split; [discriminate|].
    simpl. intuition discriminate. }
  apply (proj1 (X16_manifest_nearest_to_build_directory Demo.node "/w" ["w"]
                  ["dist"; "lib"] None Demo.world0 eq_refl eq_refl
                  (Forall_cons _ Hw (Forall_nil _))
                  (Forall_cons _ Hdist (Forall_cons _ Hlib (Forall_nil _)))
                  (or_introl eq_refl) eq_refl)
          [] ["dist"; "lib"] eq_refl eq_refl).
  intros [|k1 [|k2 [|k3 keep']]] drop' E Hlen; simpl in Hlen; try lia;
    injection E; intros; subst; try reflexivity.
  destruct keep'; discriminate.
Defined.



Import JsOnly JsOnlyFacts.

(** X18.  [buildExportsMap] in the version without marker.  It always
    returns: it neither throws nor exits, prints nothing and changes
    nothing.  It reads no file: its result is the same in every file
    system in which the same paths exist.  An entry of the map comes
    from a listed file whose name, with the ending [.js] removed, is
    not excluded; it has the reference of that file as import and as
    require reference, and a type reference exactly when the path of
    that file with [.js] replaced by [.d.ts] exists in the build
    directory, whether or not anything lists it.  Every listed file
    whose name is not excluded has an entry; a declaration without a
    [.js] file next to it has none. *)
Theorem X18_version_without_marker :
  forall (R : Runtime) (jsFiles : list string) (distDir pkgDir : string)
         (excludeNames : list string) (w : World),
    exists exportsMap,
      buildExportsMapPlain R jsFiles distDir pkgDir excludeNames w
        = (Ret exportsMap, w)
      /\ (forall v,
            (forall p, existsSync (w_fs v) p = existsSync (w_fs w) p) ->
            buildExportsMapPlain R jsFiles distDir pkgDir excludeNames v
            = (Ret exportsMap, v))
      /\ (forall key entry,
            get key exportsMap = Some entry ->
            exists f,
              In f jsFiles /\ key = "./" ++ replaceJsSuffix f ""
              /\ includesName excludeNames
                   (basename (path R) (replaceJsSuffix f "")) = false
              /\ entry = entryFor R (w_fs w) distDir pkgDir f
              /\ e_require entry = e_import entry
              /\ (e_types entry <> None <->
                  existsSync (w_fs w)
                    (join (path R) distDir (replaceJsSuffix f ".d.ts")) = true))
      /\ (forall f,
            In f jsFiles ->
            includesName excludeNames
              (basename (path R) (replaceJsSuffix f "")) = false ->
            exists entry, get ("./" ++ replaceJsSuffix f "") exportsMap = Some entry)
      /\ (forall b,
            (forall f, In f jsFiles -> endsWith f ".js" = true) ->
            ~ In (b ++ ".js") jsFiles ->
            get ("./" ++ b) exportsMap = None).
Proof.
  intros R jsFiles distDir pkgDir excludeNames w.
  exists (fold_left (plainStep R distDir pkgDir excludeNames (w_fs w)) jsFiles []).
  split; [apply plain_loop|]. split; [|split; [|split]].
  - intros v Hsame. unfold buildExportsMapPlain. rewrite plain_loop.
    f_equal. f_equal.
    assert (Hstep : forall out f,
               plainStep R distDir pkgDir excludeNames (w_fs v) out f
               = plainStep R distDir pkgDir excludeNames (w_fs w) out f).
    { intros out f. unfold plainStep, entryFor. now rewrite Hsame. }
    generalize (@nil (string * Entry)).
    induction jsFiles as [|f files IH]; intros out; [reflexivity|].
    cbn [fold_left]. now rewrite Hstep, IH.
  - intros key entry H.
    apply plain_fold_from in H as [H|(f & Hin & Hk & Hkeep & He)]; [discriminate|].
    exists f. split; [exact Hin|]. split; [exact Hk|].
    split; [now apply negb_true_iff in Hkeep|]. split; [exact He|].
    subst entry. unfold entryFor. cbn [e_require e_import e_types].
    split; [reflexivity|].
    destruct (existsSync (w_fs w) _); split; congruence.
  - intros f Hin Hex. apply plain_fold_kept; [exact Hin|].
    now apply negb_true_iff.
  - intros b Hjs Hnot.
    destruct (get ("./" ++ b) _) as [entry|] eqn:E; [|reflexivity]. exfalso.
    apply plain_fold_from in E as [E|(f & Hin & Hk & _)]; [discriminate|].
    apply append_inv_head in Hk. apply Hnot.
    rewrite Hk, <- endsWith_js; [exact Hin | now apply Hjs].
Qed.

(** The [.js] files of [/w/dist]. *)
Lemma X18_version_without_marker_witness :
  exists exportsMap,
    buildExportsMapPlain Demo.node ["index.js"; "internal/helper.js"]
      "/w/dist" "/w" [] Demo.world0 = (Ret exportsMap, Demo.world0)
    /\ get "./lib/types" exportsMap = None.
Proof.
  destruct (X18_version_without_marker Demo.node
              ["index.js"; "internal/helper.js"] "/w/dist" "/w" [] Demo.world0)
    as (m & Hrun & _ & _ & _ & Hnone).
  exists m. split; [exact Hrun|].
  apply (Hnone "lib/types").
  - intros f [<-|[<-|[]]]; reflexivity.
  - intros [H|[H|[]]]; discriminate.
Defined.

(** X19.  The version with the marker that lists the [.js] files only
    and the version that groups [.js] and [.d.ts] files build the same
    entries for the modules with a runtime artifact, when the two
    listings are taken from the same build directory (the [.js] files
    are the same, and the declaration of such a module is listed
    exactly when it exists), the directory has no artifact of the
    module path [__proto__], and no declaration of a module with a
    runtime artifact contains the marker: under every key the earlier
    version has, the later one has the same entry, and what the later
    version has besides are modules with a declaration and no runtime
    artifact. *)
Theorem X19_versions_agree :
  forall (R : Runtime) (files jsFiles : list string) (opts : Options)
         (w w2 w3 : World) (m2 m3 : Obj Entry),
    ordinary files ->
    (forall f, In f jsFiles <-> In f files /\ endsWith f ".js" = true) ->
    (forall b, In (b ++ ".js") files ->
       (existsSync (w_fs w) (join (path R) (o_distDir opts) (b ++ ".d.ts")) = true
        <-> In (b ++ ".d.ts") files)) ->
    (forall b, In (b ++ ".js") files -> In (b ++ ".d.ts") files ->
       ~ marked R opts (w_fs w) (b ++ ".d.ts")) ->
    buildExportsMapMarker R jsFiles opts w = (Ret m2, w2) ->
    buildExportsMap R files opts w = (Ret m3, w3) ->
    (forall key entry, get key m2 = Some entry -> get key m3 = Some entry)
    /\ (forall b, In (b ++ ".js") files ->
          get ("./" ++ b) m3 = get ("./" ++ b) m2)
    /\ (forall key entry,
          get key m3 = Some entry ->
          get key m2 = Some entry
          \/ exists b, key = "./" ++ b /\ ~ In (b ++ ".js") files
                       /\ In (b ++ ".d.ts") files).
Proof.
  intros R files jsFiles opts w w2 w3 m2 m3 Hord Hjs Hdts Hclean H2 H3.
  apply marker_loop in H2 as (_ & Hfail2 & Hfrom2 & _ & Hkept2).
  destruct (build_loop Hord H3) as (_ & _ & _ & Hfail3 & Hfrom3 & Hkept3).
  set (G := groupFiles files) in *.
  (* a module with a runtime artifact, in the two versions *)
  assert (Hsame : forall b,
             In (b ++ ".js") files ->
             forall e,
               markerStep R opts (w_fs w) (b ++ ".js") = Kept e
               <-> stepResult R (w_fs w) opts G b = Kept e).
  { intros b Hin e.
    assert (Hk : In b (keys G)).
    { apply (In_keys_groupFiles files b Hord). now exists ExtJs. }
    destruct (groupFiles_slot files b Hord Hk) as [g Hg].
    destruct (group_fields files b g Hord Hg) as (Gjs & _ & Gdts & Gno).
    pose proof (Hfail3 b) as Hf3.
    pose proof (groupFiles_fieldsOf files b g Hord Hg) as Hfields.
    fold G in Hfields.
    unfold markerStep, stepResult. rewrite replaceJsSuffix_js, append_nil_r.
    rewrite Hfields, (Gjs Hin).
    unfold stepResult in Hf3. rewrite Hfields, (Gjs Hin) in Hf3.
    destruct (includesName (o_excludeNames opts) (basename (path R) b)) eqn:Ex;
      [split; discriminate|].
    destruct (probe R (w_fs w) opts (Some (b ++ ".js"))) eqn:Pjs;
      [|split; discriminate|split; discriminate].
    assert (Hentry : forall types,
               g_dts g = types ->
               (types = None <-> ~ In (b ++ ".d.ts") files) ->
               probe R (w_fs w) opts types = Clean ->
               entryFor R (w_fs w) (o_distDir opts) (o_pkgDir opts) (b ++ ".js")
               = entryOf R opts g).
    { intros types Et Hty _.
      rewrite (entryOf_group R opts files b g Hord Hg), (Gjs Hin), Et.
      unfold entryFor. rewrite replaceJsSuffix_js. cbn [option_map].
      destruct (existsSync (w_fs w) _) eqn:Eex.
      - apply (Hdts b Hin) in Eex. rewrite (Gdts Eex) in Et. subst types.
        reflexivity.
      - destruct types as [t|]; [|reflexivity]. exfalso.
        assert (Hl : In (b ++ ".d.ts") files).
        { destruct (in_dec string_dec (b ++ ".d.ts") files) as [Hl|Hl];
            [exact Hl|]. apply Hty in Hl. discriminate. }
        apply (Hdts b Hin) in Hl. congruence. }
    assert (Hty : g_dts g = None <-> ~ In (b ++ ".d.ts") files).
    { split.
      - intros En Hl. rewrite (Gdts Hl) in En. discriminate.
      - apply Gno. }
    destruct (g_dts g) as [t|] eqn:Et.
    - assert (Hl : In (b ++ ".d.ts") files).
      { destruct (in_dec string_dec (b ++ ".d.ts") files) as [Hl|Hl];
          [exact Hl|]. apply Hty in Hl. discriminate. }
      pose proof (Gdts Hl) as Et'. injection Et' as ->.
      destruct (probe R (w_fs w) opts (Some (b ++ ".d.ts"))) as [|f1|e1] eqn:Pd.
      + rewrite (Hentry (Some (b ++ ".d.ts")) eq_refl Hty Pd). tauto.
      + exfalso. apply probe_Marked in Pd as [[= <-] Pd].
        exact (Hclean b Hin Hl Pd).
      + exfalso. apply (Hf3 e1 Hk). reflexivity.
    - cbn [probe]. rewrite (Hentry None eq_refl Hty eq_refl). tauto. }
  assert (Hto : forall key entry, get key m2 = Some entry -> get key m3 = Some entry).
  { intros key entry He.
    apply Hfrom2 in He as [He|(f & Hin & -> & Hs)]; [discriminate|].
    apply Hjs in Hin as [Hin Hend]. pose proof (endsWith_js f Hend) as Ef.
    set (b := replaceJsSuffix f "") in *. rewrite Ef in Hin, Hs.
    apply Hkept3.
    - apply (In_keys_groupFiles files b Hord). now exists ExtJs.
    - now apply Hsame. }
  assert (Hback : forall b entry,
             In (b ++ ".js") files ->
             get ("./" ++ b) m3 = Some entry -> get ("./" ++ b) m2 = Some entry).
  { intros b entry Hin He.
    apply Hfrom3 in He as (k & _ & Ek & Hs).
    apply append_inv_head in Ek. subst k.
    apply Hsame in Hs; [|exact Hin].
    assert (Hl : In (b ++ ".js") jsFiles).
    { apply Hjs. split; [exact Hin | apply endsWith_append]. }
    destruct (Hkept2 _ _ Hl Hs) as [e' He'].
    rewrite replaceJsSuffix_js, append_nil_r in He'.
    rewrite He'. f_equal. apply Hto in He'.
    pose proof (Hkept3 b entry) as Hk3.
    apply Hsame in Hs; [|exact Hin].
    rewrite Hk3 in He'; [congruence | | exact Hs].
    apply (In_keys_groupFiles files b Hord). now exists ExtJs. }
  split; [exact Hto|]. split.
  - intros b Hin. apply option_ext. intros e. split; [now apply Hback | apply Hto].
  - intros key entry He. pose proof He as He'.
    apply Hfrom3 in He' as (b & Hk & -> & Hs).
    destruct (in_dec string_dec (b ++ ".js") files) as [Hin|Hno].
    + left. now apply Hback.
    + right. exists b. split; [reflexivity|]. split; [exact Hno|].
      apply (In_keys_groupFiles files b Hord) in Hk as [[|] Hk];
        [contradiction | exact Hk].
Qed.

(** The two versions on [/w/dist]. *)
Lemma X19_versions_agree_witness :
  buildExportsMapMarker Demo.node Samples.jsFiles0 Demo.opts0 Demo.world0
    = (Ret Samples.mapMarker0, Samples.worldWarned0)
  /\ buildExportsMap Demo.node Demo.files0 Demo.opts0 Demo.world0
     = (Ret Samples.map0, Samples.worldWarned0)
  /\ get "./index" Samples.map0 = get "./index" Samples.mapMarker0.
Proof.
  split; [reflexivity|]. split; [reflexivity|].
  assert (Hb : forall b, In (b ++ ".js") Demo.files0 ->
                         b = "index" \/ b = "internal/helper").
  { intros b [E|[E|[E|[E|[E|[]]]]]].
    - left. now apply (artifact_inj "index" ExtJs b ExtJs) in E as [<- _].
    - now apply (artifact_inj "index" ExtDts b ExtJs) in E as [_ E].
    - now apply (artifact_inj "lib/types" ExtDts b ExtJs) in E as [_ E].
    - right. now apply (artifact_inj "internal/helper" ExtJs b ExtJs) in E as [<- _].
    - now apply (artifact_inj "internal/helper" ExtDts b ExtJs) in E as [_ E]. }
  apply (proj1 (proj2
           (X19_versions_agree Demo.node Demo.files0 Samples.jsFiles0 Demo.opts0
              Demo.world0 Samples.worldWarned0 Samples.worldWarned0
              Samples.mapMarker0 Samples.map0
              (ordinary_decide Demo.files0 eq_refl)
              ltac:(intros f; simpl; intuition (subst; try reflexivity; discriminate))
              ltac:(intros b [-> | ->]%Hb;
                    (split; [intros _; simpl; tauto | reflexivity]))
              ltac:(intros b [-> | ->]%Hb _ (c & [= <-] & Hc); discriminate)
              eq_refl eq_refl)) "index").
  simpl. auto.
Defined.

(** X20.  Files that are neither [.js] nor [.d.ts] files are no part
    of anything: [buildExportsMap] on a listing is [buildExportsMap] on
    the files of the listing that end in [.js] or in [.d.ts]; the
    others create no group, are not read and change neither the map
    nor its order nor what is printed. *)
Theorem X20_other_files_ignored :
  forall (R : Runtime) (files : list string) (opts : Options) (w : World),
    let recognised := fun f => endsWith f ".js" || endsWith f ".d.ts" in
    groupFiles files = groupFiles (filter recognised files)
    /\ buildExportsMap R files opts w
       = buildExportsMap R (filter recognised files) opts w
    /\ (forall b, In b (keys (groupFiles files)) ->
          exists f, In f files /\ recognised f = true).
Proof.
  intros R files opts w recognised.
  assert (HG : groupFiles files = groupFiles (filter recognised files)).
  { unfold groupFiles. generalize emptyGrouping.
    induction files as [|f files IH]; intros acc; [reflexivity|].
    cbn [fold_left filter]. unfold recognised at 1.
    destruct (endsWith f ".js") eqn:Ejs; simpl orb.
    - cbn [fold_left]. apply IH.
    - destruct (endsWith f ".d.ts") eqn:Edts.
      + cbn [fold_left]. apply IH.
      + rewrite <- IH. f_equal. unfold groupStep, classify.
        now rewrite Ejs, Edts. }
  split; [exact HG|]. split.
  - unfold buildExportsMap. now rewrite <- HG.
  - intros b Hb. destruct (groupFiles_Stored files) as (_ & _ & _ & _ & _ & Hf).
    destruct (Hf b Hb) as [e He]. exists (artifact b e).
    split; [exact He|]. unfold recognised, artifact.
    destruct e; simpl extSuffix; rewrite endsWith_append;
      [reflexivity | apply orb_true_r].
Qed.

(** A listing with a source map and a text file. *)
Lemma X20_other_files_ignored_witness :
  groupFiles ["index.js"; "index.js.map"; "README.md"; "index.d.ts"]
  = groupFiles ["index.js"; "index.d.ts"]
  /\ exists f,
       In f ["index.js"; "index.js.map"; "README.md"; "index.d.ts"]
       /\ endsWith f ".js" || endsWith f ".d.ts" = true.
Proof.
  destruct (X20_other_files_ignored Demo.node
              ["index.js"; "index.js.map"; "README.md"; "index.d.ts"]
              Demo.opts0 Demo.world0) as (HG & _ & Hkeys).
  split; [exact HG|].
  apply (Hkeys "index"). simpl. auto.
Defined.

(** X21.  [buildExportsMap] in the version with the marker that lists
    the [.js] files only (every listed name ends in [.js], as the
    pattern of the listing has it).  It leaves the files alone.  A
    module has an entry exactly when its [.js] file is listed, its name
    is not excluded and the content of the [.js] file, which it reads,
    does not contain the marker; the entry is the one the version
    without marker builds.  The declaration is looked for, not read:
    what it contains has no part in this, so a marker in a declaration
    drops nothing in this version. *)
Theorem X21_version_with_marker :
  forall (R : Runtime) (jsFiles : list string) (opts : Options)
         (w w' : World) (exportsMap : Obj Entry),
    (forall f, In f jsFiles -> endsWith f ".js" = true) ->
    buildExportsMapMarker R jsFiles opts w = (Ret exportsMap, w') ->
    w_fs w' = w_fs w
    /\ (forall key entry,
          get key exportsMap = Some entry -> exists b, key = "./" ++ b)
    /\ (forall b entry,
          get ("./" ++ b) exportsMap = Some entry <->
          In (b ++ ".js") jsFiles
          /\ includesName (o_excludeNames opts) (basename (path R) b) = false
          /\ readable R opts (w_fs w) (b ++ ".js")
          /\ ~ marked R opts (w_fs w) (b ++ ".js")
          /\ entry = entryFor R (w_fs w) (o_distDir opts) (o_pkgDir opts)
                       (b ++ ".js")).
Proof.
  intros R jsFiles opts w w' m Hjs H.
  apply marker_loop in H as (Hfs & _ & Hfrom & _ & Hkept).
  assert (Hstep : forall b e,
             markerStep R opts (w_fs w) (b ++ ".js") = Kept e <->
             includesName (o_excludeNames opts) (basename (path R) b) = false
             /\ readable R opts (w_fs w) (b ++ ".js")
             /\ ~ marked R opts (w_fs w) (b ++ ".js")
             /\ e = entryFor R (w_fs w) (o_distDir opts) (o_pkgDir opts)
                      (b ++ ".js")).
  { intros b e. unfold markerStep. rewrite replaceJsSuffix_js, append_nil_r.
    pose proof (probe_artifact_cases R opts (w_fs w) (b ++ ".js")) as C.
    destruct (includesName _ _); [split; [discriminate | intros [E _]; discriminate]|].
    destruct (probe R (w_fs w) opts (Some (b ++ ".js"))) as [|f1|e1].
    - destruct C as [Cr Cm]. split.
      + intros [= <-]. auto.
      + intros (_ & _ & _ & ->). reflexivity.
    - destruct C as (_ & _ & Cm). split; [discriminate|].
      intros (_ & _ & Hn & _). contradiction.
    - split; [discriminate|]. intros (_ & Hr & _). contradiction. }
  split; [exact Hfs|]. split.
  - intros key entry He. apply Hfrom in He as [He|(f & _ & -> & _)];
      [discriminate | eauto].
  - intros b entry. split.
    + intros He. apply Hfrom in He as [He|(f & Hin & Hk & Hs)]; [discriminate|].
      apply append_inv_head in Hk.
      pose proof (endsWith_js f (Hjs f Hin)) as Ef. rewrite <- Hk in Ef.
      rewrite Ef in Hin, Hs. split; [exact Hin|]. now apply Hstep.
    + intros (Hin & Hrest). apply Hstep in Hrest.
      destruct (Hkept _ _ Hin Hrest) as [e' He'].
      rewrite replaceJsSuffix_js, append_nil_r in He'. rewrite He'. f_equal.
      apply Hfrom in He' as [He'|(f & Hin' & Hk & Hs)]; [discriminate|].
      apply append_inv_head in Hk.
      pose proof (endsWith_js f (Hjs f Hin')) as Ef. rewrite <- Hk in Ef.
      rewrite Ef in Hs. congruence.
Qed.

(** The [.js] files of [/w/dist]: [internal/helper.js] contains the
    marker. *)
Lemma X21_version_with_marker_witness :
  In "index.js" Samples.jsFiles0
  /\ ~ marked Demo.node Demo.opts0 Demo.fs0 "index.js".
Proof.
  pose proof (proj1
    (proj2 (proj2
       (X21_version_with_marker Demo.node Samples.jsFiles0 Demo.opts0
          Demo.world0 Samples.worldWarned0 Samples.mapMarker0
          ltac:(intros f [<-|[<-|[]]]; reflexivity) eq_refl))
       "index"
       (mkEntry (Some "./dist/index.js") (Some "./dist/index.js")
                (Some "./dist/index.d.ts")))
    eq_refl) as (Hin & _ & _ & Hm & _).
  split; [exact Hin | exact Hm].
Defined.

(** X22.  A manifest that cannot be used.  When the command line and
    the paths are fine but the manifest path is a directory, or its
    text is not JSON, or the manifest is read and the listing of the
    build directory fails, the exception reaches the handler of
    [main]: the run prints the one line [Unexpected error:] (followed
    in the script by the error itself), exits with code 1 and has
    written nothing.  The manifest is read before the build directory
    is listed, so no artifact is read and no warning is printed in
    such a run. *)
Theorem X22_unusable_manifest :
  forall (R : Runtime) (argv : list string) (w : World) (args : CliArgs)
         (paths : Paths),
    parseCliArgs argv w = (Ret args, w) ->
    resolvePaths R (buildDirArg args) (pkgPathArg args) w = (Ret paths, w) ->
    readFile (w_fs w) (pkgPath paths) = None
    \/ (exists text,
          readFile (w_fs w) (pkgPath paths) = Some text
          /\ JSON_parse R text = None)
    \/ (exists text pkg,
          readFile (w_fs w) (pkgPath paths) = Some text
          /\ JSON_parse R text = Some pkg
          /\ fg R (w_fs w) ["**/*.js"; "**/*.d.ts"] (distDir paths) = None) ->
    run R argv w = (Some 1, addLine w (Err "Unexpected error:")).
Proof.
  intros R argv w args paths Hp Hr Hbad.
  unfold run, main. unfold bind at 1. rewrite Hp.
  unfold bind at 1. rewrite Hr.
  unfold bind at 1. unfold readJson, bind at 1.
  unfold fs_readFileSync, readFile in *.
  destruct Hbad as [Hnone|[(text & Ht & Hj)|(text & pkg & Ht & Hj & Hfg)]].
  - destruct (lookup (w_fs w) (pkgPath paths)) as [[c|]|];
      [discriminate | reflexivity | reflexivity].
  - destruct (lookup (w_fs w) (pkgPath paths)) as [[c|]|]; try discriminate.
    injection Ht as ->. now rewrite Hj.
  - destruct (lookup (w_fs w) (pkgPath paths)) as [[c|]|]; try discriminate.
    injection Ht as ->. rewrite Hj. cbv beta iota.
    unfold ret at 1. unfold bind at 1. unfold getDistFiles. now rewrite Hfg.
Qed.

(** [gen-exports.js dist -p dist/lib] in [/w]: the override is a
    directory. *)
Lemma X22_unusable_manifest_witness :
  run Demo.node ["dist"; "-p"; "dist/lib"] Demo.world0
  = (Some 1, addLine Demo.world0 (Err "Unexpected error:")).
Proof.
  apply (X22_unusable_manifest Demo.node ["dist"; "-p"; "dist/lib"] Demo.world0
           (mkCliArgs "dist" [] (Some "dist/lib") "$RESERVED$")
           (mkPaths "/w/dist/lib" "/w/dist" "/w/dist") eq_refl eq_refl).
  left. reflexivity.
Defined.


(** X23.  The descriptors, for files without an artifact of the module
    path [__proto__].  In an export map that [buildExportsMap] returns
    for such files, the descriptor found under the key of a module
    path has equal import and require references; when the files hold
    both the [.js] and the [.d.ts] artifact of the module it has the
    three references, when they hold the [.d.ts] artifact only it has
    the type reference and nothing else, and its JSON form lists the
    fields that are present, each with a string, never [null].  A
    module with a declaration only whose name is not excluded and whose
    declaration is not marked is in the map. *)
Theorem X23_descriptor_shape :
  forall (R : Runtime) (files : list string) (opts : Options)
         (w w' : World) (exportsMap : Obj Entry),
    ordinary files ->
    buildExportsMap R files opts w = (Ret exportsMap, w') ->
    (forall base entry,
        get ("./" ++ base) exportsMap = Some entry ->
        let js := base ++ ".js" in
        let dts := base ++ ".d.ts" in
        e_require entry = e_import entry
        /\ (In js files -> In dts files ->
            entry = mkEntry (Some (reference R opts js))
                            (Some (reference R opts js))
                            (Some (reference R opts dts))
            /\ entryJson entry =
               JObj [("import", JStr (reference R opts js));
                     ("require", JStr (reference R opts js));
                     ("types", JStr (reference R opts dts))])
        /\ (~ In js files -> In dts files ->
            entry = mkEntry None None (Some (reference R opts dts))
            /\ entryJson entry = JObj [("types", JStr (reference R opts dts))])
        /\ (In js files -> ~ In dts files ->
            entry = mkEntry (Some (reference R opts js))
                            (Some (reference R opts js)) None)
        /\ (forall props k v,
              entryJson entry = JObj props -> In (k, v) props ->
              exists s, v = JStr s))
    /\ (forall base,
          ~ In (base ++ ".js") files -> In (base ++ ".d.ts") files ->
          includesName (o_excludeNames opts) (basename (path R) base) = false ->
          ~ marked R opts (w_fs w) (base ++ ".d.ts") ->
          get ("./" ++ base) exportsMap =
          Some (mkEntry None None (Some (reference R opts (base ++ ".d.ts"))))).
Proof.
  intros R files opts w w' exportsMap Hord Hrun.
  assert (Hshape : forall base entry,
             get ("./" ++ base) exportsMap = Some entry ->
             exists g, get base (groupFiles files) = Some (SObj g) /\
               entry = mkEntry (option_map (reference R opts) (g_js g))
                               (option_map (reference R opts) (g_js g))
                               (option_map (reference R opts) (g_dts g))).
  { intros base entry He.
    destruct (export_entry_inv Hord Hrun _ He) as (g & Hg & _ & _ & _ & ->).
    exists g. split; [exact Hg | exact (entryOf_group R opts files base g Hord Hg)]. }
  split.
  - intros base entry He js dts.
    destruct (Hshape _ _ He) as (g & Hg & ->).
    destruct (group_fields _ _ _ Hord Hg) as (Hjs & Hnjs & Hdts & Hndts).
    fold js in Hjs, Hnjs. fold dts in Hdts, Hndts.
    split; [reflexivity|]. split; [|split; [|split]].
    + intros H1 H2. rewrite (Hjs H1), (Hdts H2). auto.
    + intros H1 H2. rewrite (Hnjs H1), (Hdts H2). auto.
    + intros H1 H2. rewrite (Hjs H1), (Hndts H2). auto.
    + intros props k v [= <-] Hin. simpl in Hin.
      destruct (g_js g), (g_dts g); simpl in Hin;
        repeat (destruct Hin as [[= <- <-]|Hin]; [eexists; reflexivity|]);
        destruct Hin.
  - intros base Hnjs Hdts Hex Hclean.
    destruct (proj2 (export_key_iff Hord Hrun base)) as [entry He].
    { split; [now exists ExtDts|]. split; [exact Hex|].
      intros [] Hin; [contradiction | exact Hclean]. }
    rewrite He. destruct (Hshape _ _ He) as (g & Hg & ->).
    destruct (group_fields _ _ _ Hord Hg) as (_ & Hn & Hd & _).
    now rewrite (Hn Hnjs), (Hd Hdts).
Qed.

(** The run of [buildExportsMap] on the files of [/w/dist]. *)
Lemma X23_descriptor_shape_witness :
  exists exportsMap w',
    buildExportsMap Demo.node Demo.files0 Demo.opts0 Demo.world0
      = (Ret exportsMap, w')
    /\ get "./index" exportsMap =
       Some (mkEntry (Some "./dist/index.js") (Some "./dist/index.js")
                     (Some "./dist/index.d.ts"))
    /\ get "./lib/types" exportsMap =
       Some (mkEntry None None (Some "./dist/lib/types.d.ts")).
Proof.
  eexists. eexists. split; [vm_compute; reflexivity|].
  split; [reflexivity|].
  refine (proj2 (X23_descriptor_shape Demo.node Demo.files0 Demo.opts0
                   Demo.world0 _ _ (ordinary_decide Demo.files0 eq_refl) _)
            "lib/types" _ _ _ _).
  - vm_compute. reflexivity.
  - vm_compute. intuition discriminate.
  - vm_compute. auto.
  - reflexivity.
  - intros (c & Hc & Hi). vm_compute in Hc. injection Hc as <-.
    vm_compute in Hi. discriminate.
Defined.

(** X24.  The marker.  When every artifact among the files can be
    read, [buildExportsMap] returns normally, whatever the marker and
    whatever files contain it, and leaves the file system as it was.
    For files without an artifact of the module path [__proto__], a
    module of which one artifact, runtime or declaration, contains the
    marker has no key in the map, whatever its other artifact contains;
    and unless its name is excluded anyway, the console then holds the
    warning [Skipping ...] for an artifact of the module that contains
    the marker. *)
Theorem X24_marker_drops_group :
  forall (R : Runtime) (files : list string) (opts : Options) (w : World),
    (forall f base e, In f files -> classify f = Some (base, e) ->
       exists content,
         readFile (w_fs w) (join (path R) (o_distDir opts) f) = Some content) ->
    exists exportsMap w',
      buildExportsMap R files opts w = (Ret exportsMap, w')
      /\ w_fs w' = w_fs w
      /\ (ordinary files ->
          forall base e,
            In (artifact base e) files ->
            marked R opts (w_fs w) (artifact base e) ->
            get ("./" ++ base) exportsMap = None
            /\ (includesName (o_excludeNames opts) (basename (path R) base)
                = false ->
                exists e',
                  In (artifact base e') files /\
                  marked R opts (w_fs w) (artifact base e') /\
                  In (Warn (skipping (artifact base e') (o_placeholder opts)))
                     (w_console w'))).
Proof.
  intros R files opts w Hread.
  destruct (build_total R opts files w Hread) as (exportsMap & w' & Hrun).
  exists exportsMap, w'. split; [exact Hrun|].
  split; [exact (proj1 (build_loop_forIn Hrun))|].
  intros Hord base e Hin Hm. split.
  - destruct (get ("./" ++ base) exportsMap) as [entry|] eqn:He; [|reflexivity].
    exfalso.
    destruct (proj1 (export_key_iff Hord Hrun base)) as (_ & _ & Hclean);
      [now exists entry|].
    exact (Hclean e Hin Hm).
  - intros Hex. exact (marked_warns Hord Hrun base e Hin Hm Hex).
Qed.

(** In [/w/dist] the runtime artifact of [internal/helper] contains the
    default marker and its declaration does not. *)
Lemma X24_marker_drops_group_witness :
  exists exportsMap w',
    buildExportsMap Demo.node Demo.files0 Demo.opts0 Demo.world0
      = (Ret exportsMap, w')
    /\ ~ marked Demo.node Demo.opts0 Demo.fs0 "internal/helper.d.ts"
    /\ get "./internal/helper" exportsMap = None
    /\ In (Warn (skipping "internal/helper.js" "$RESERVED$")) (w_console w').
Proof.
  destruct (X24_marker_drops_group Demo.node Demo.files0 Demo.opts0 Demo.world0)
    as (exportsMap & w' & Hrun & _ & H).
  { intros f base e Hin _. vm_compute in Hin.
    repeat (destruct Hin as [<-|Hin]; [eexists; vm_compute; reflexivity|]).
    destruct Hin. }
  exists exportsMap, w'. split; [exact Hrun|].
  split.
  { intros (c & Hc & Hi). vm_compute in Hc. injection Hc as <-.
    vm_compute in Hi. discriminate. }
  destruct (H (ordinary_decide Demo.files0 eq_refl) "internal/helper" ExtJs)
    as [Hnone Hwarn].
  { vm_compute. auto 10. }
  { eexists. split; vm_compute; reflexivity. }
  split; [exact Hnone|].
  destruct (Hwarn eq_refl) as (e' & _ & Hm & Hin).
  destruct e'; [exact Hin|].
  exfalso. destruct Hm as (c & Hc & Hi). vm_compute in Hc.
  injection Hc as <-. vm_compute in Hi. discriminate.
Defined.

(** X25.  Exclusion by name.  In an export map that [buildExportsMap]
    returns, a module whose basename is in the exclusion list has no
    key, whatever directory it is in; and for files without an
    artifact of the module path [__proto__] the exclusion by name
    drops no other module: a module with an artifact, a basename
    outside the list and no marked artifact has its key.  On a POSIX
    host the basename of [dir/name] and of [name] is [name], so with
    the list [foo] the modules [foo] and [bar/foo] are both dropped. *)
Theorem X25_exclusion_by_basename :
  forall (R : Runtime) (files : list string) (opts : Options)
         (w w' : World) (exportsMap : Obj Entry),
    buildExportsMap R files opts w = (Ret exportsMap, w') ->
    (forall base,
        In (basename (path R) base) (o_excludeNames opts) ->
        get ("./" ++ base) exportsMap = None)
    /\ (ordinary files ->
        forall base e,
          In (artifact base e) files ->
          ~ In (basename (path R) base) (o_excludeNames opts) ->
          (forall e', In (artifact base e') files ->
                      ~ marked R opts (w_fs w) (artifact base e')) ->
          exists entry, get ("./" ++ base) exportsMap = Some entry)
    /\ (forall dir name,
          name <> "" -> ~ occurs "/"%char name ->
          Posix.basename (dir ++ "/" ++ name) = name /\
          Posix.basename name = name)
    /\ (forall cwd distDir pkgDir marker w0,
          buildExportsMap (nodePosix cwd) ["foo.js"; "bar/foo.js"]
            (mkOptions distDir pkgDir ["foo"] marker) w0 = (Ret [], w0)).
Proof.
  intros R files opts w w' exportsMap Hrun.
  split; [|split; [|split]].
  - intros base Hin. apply includesName_spec in Hin.
    destruct (get ("./" ++ base) exportsMap) as [entry|] eqn:He; [|reflexivity].
    destruct (build_loop_forIn Hrun) as (_ & _ & _ & _ & Hfrom & _).
    apply Hfrom in He as (k & _ & E & Hs). apply append_inv_head in E.
    subst k. unfold stepResult in Hs. rewrite Hin in Hs. discriminate.
  - intros Hord base e Hin Hex Hclean. apply (export_key_iff Hord Hrun base).
    split; [now exists e|]. split; [|exact Hclean].
    destruct (includesName _ _) eqn:E; [|reflexivity].
    now apply includesName_spec in E.
  - intros dir name. apply PosixFacts.basename_last.
  - reflexivity.
Qed.

(** With [index] excluded, the map of [/w/dist] keeps [lib/types]. *)
Lemma X25_exclusion_by_basename_witness :
  exists exportsMap w',
    buildExportsMap Demo.node Demo.files0
      (mkOptions "/w/dist" "/w" ["index"] "$RESERVED$") Demo.world0
      = (Ret exportsMap, w')
    /\ get "./index" exportsMap = None
    /\ exists entry, get "./lib/types" exportsMap = Some entry.
Proof.
  eexists. eexists. split; [vm_compute; reflexivity|].
  pose proof (X25_exclusion_by_basename Demo.node Demo.files0
                (mkOptions "/w/dist" "/w" ["index"] "$RESERVED$")
                Demo.world0 _ _ eq_refl) as (Hdrop & Hkeep & _).
  split.
  - apply (Hdrop "index"). vm_compute. auto.
  - apply (Hkeep (ordinary_decide Demo.files0 eq_refl) "lib/types" ExtDts).
    + vm_compute. auto.
    + vm_compute. intuition discriminate.
    + intros e' _ (c & Hc & Hi).
      destruct e'; vm_compute in Hc; [discriminate|].
      injection Hc as <-. vm_compute in Hi. discriminate.
Defined.

(** X26.  Grouping by module path, for files without an artifact of
    the module path [__proto__]: nothing reaches [Object.prototype];
    the groups have distinct module paths and each is an object; every
    artifact among the files lies in the group of its stripped path,
    at the place of its kind, so two artifacts with the same stripped
    path lie in one group; a group holds only artifacts of the files,
    each under its own stripped path and kind, and the loop reads from
    a group what the group holds; two artifacts of one kind with the
    same stripped path are the same file, so a group has at most one
    runtime artifact and at most one declaration artifact; and no
    group is empty. *)
Theorem X26_grouping_invariant :
  forall files : list string,
    ordinary files ->
    let G := groupFiles files in
    proto G = []
    /\ NoDup (keys G)
    /\ (forall f1 f2 b e1 e2,
          In f1 files -> In f2 files ->
          classify f1 = Some (b, e1) -> classify f2 = Some (b, e2) ->
          exists g, get b G = Some (SObj g) /\
                    getExt e1 g = Some f1 /\ getExt e2 g = Some f2)
    /\ (forall b g e f,
          get b G = Some (SObj g) -> getExt e g = Some f ->
          In f files /\ classify f = Some (b, e))
    /\ (forall b, In b (keys G) ->
          exists g, get b G = Some (SObj g) /\ fieldsOf G b = g)
    /\ (forall f1 f2 b e,
          classify f1 = Some (b, e) -> classify f2 = Some (b, e) -> f1 = f2)
    /\ (forall b, In b (keys G) ->
          exists f e, In f files /\ classify f = Some (b, e)).
Proof.
  intros files Hord G. pose proof (groupFiles_Grouped files Hord) as (HP & Hnd & HG).
  fold G in HP, Hnd, HG. split; [exact HP|]. split; [exact Hnd|].
  split; [|split; [|split; [|split]]].
  - intros f1 f2 b e1 e2 H1 H2 C1 C2.
    apply classify_inv in C1, C2. subst f1 f2.
    destruct (groupFiles_In _ _ _ Hord H1) as (g & Hg & Hg1).
    destruct (groupFiles_In _ _ _ Hord H2) as (g' & Hg' & Hg2).
    fold G in Hg, Hg'. rewrite Hg in Hg'. injection Hg' as <-.
    now exists g.
  - intros b g e f Hg Hf. specialize (HG b). rewrite Hg in HG.
    apply HG in Hf as [-> Hin]. split; [exact Hin | apply classify_artifact].
  - intros b Hb. destruct (groupFiles_slot files b Hord Hb) as [g Hg].
    exists g. split; [exact Hg | exact (groupFiles_fieldsOf files b g Hord Hg)].
  - intros f1 f2 b e C1 C2. apply classify_inv in C1, C2. congruence.
  - intros b [e He]%(In_keys_groupFiles files b Hord).
    exists (artifact b e), e. split; [exact He | apply classify_artifact].
Qed.

(** The group of [index] in [/w/dist]. *)
Lemma X26_grouping_invariant_witness :
  exists g,
    get "index" (groupFiles Demo.files0) = Some (SObj g)
    /\ getExt ExtJs g = Some "index.js"
    /\ getExt ExtDts g = Some "index.d.ts".
Proof.
  apply (proj1 (proj2 (proj2
           (X26_grouping_invariant Demo.files0
              (ordinary_decide Demo.files0 eq_refl))))
           "index.js" "index.d.ts" "index" ExtJs ExtDts);
    solve [simpl; auto | reflexivity].
Defined.

(** X27.  The default marker.  A command line without [-e] and
    [--exclude-placeholder] that [parseCliArgs] accepts leaves the
    marker at ["$RESERVED$"], and the export map built with the options
    so parsed from files without an artifact of the module path
    [__proto__] has no key for a module of which an artifact contains
    ["$RESERVED$"]; [-e] or [--exclude-placeholder] followed by a
    non-empty value makes that value the marker, as it is written. *)
Theorem X27_default_marker :
  (forall dir flags args w w',
      ~ In "-e" flags -> ~ In "--exclude-placeholder" flags ->
      parseCliArgs (dir :: flags) w = (Ret args, w') ->
      placeholder args = "$RESERVED$"
      /\ forall (R : Runtime) files distDir pkgDir v v' exportsMap,
           ordinary files ->
           buildExportsMap R files
             (mkOptions distDir pkgDir (excludeNames args) (placeholder args)) v
             = (Ret exportsMap, v') ->
           forall base e content,
             In (artifact base e) files ->
             readFile (w_fs v) (join (path R) distDir (artifact base e))
               = Some content ->
             includes content "$RESERVED$" = true ->
             get ("./" ++ base) exportsMap = None)
  /\ (forall flag value rest st,
        flag = "-e" \/ flag = "--exclude-placeholder" -> value <> "" ->
        parseFlags (flag :: value :: rest) st =
        parseFlags rest
          (mkCliArgs (buildDirArg st) (excludeNames st) (pkgPathArg st) value))
  /\ (forall dir flag value w,
        flag = "-e" \/ flag = "--exclude-placeholder" -> value <> "" ->
        parseCliArgs [dir; flag; value] w =
        (Ret (mkCliArgs dir [] None value), w)).
Proof.
  split; [|split].
  - intros dir flags args w w' He Hl Hparse.
    assert (Hdef : placeholder args = "$RESERVED$").
    { exact (parseFlags_keeps_placeholder flags _ _ _ _ He Hl Hparse). }
    split; [exact Hdef|].
    intros R files distDir pkgDir v v' exportsMap Hord Hrun base e content
           Hin Hc Hi.
    destruct (get ("./" ++ base) exportsMap) as [entry|] eqn:Hg; [|reflexivity].
    exfalso.
    destruct (proj1 (export_key_iff Hord Hrun base)) as (_ & _ & Hclean);
      [now exists entry|].
    apply (Hclean e Hin). exists content. simpl. rewrite Hdef. auto.
  - intros flag value rest st Hflag Hv. now apply parseFlags_placeholder.
  - intros dir flag value w Hflag Hv. unfold parseCliArgs.
    now rewrite parseFlags_placeholder.
Qed.

(** The run [gen-exports.js dist] on [/w] and the command line
    [dist -e SECRET]. *)
Lemma X27_default_marker_witness :
  (exists exportsMap w',
      buildExportsMap Demo.node Demo.files0 Demo.opts0 Demo.world0
        = (Ret exportsMap, w')
      /\ get "./internal/helper" exportsMap = None)
  /\ forall w, parseCliArgs ["dist"; "-e"; "SECRET"] w =
               (Ret (mkCliArgs "dist" [] None "SECRET"), w).
Proof.
  destruct X27_default_marker as (Hdefault & _ & Hgiven).
  split.
  - eexists. eexists. split; [vm_compute; reflexivity|].
    destruct (Hdefault "dist" [] (mkCliArgs "dist" [] None "$RESERVED$")
                Demo.world0 Demo.world0) as [_ Hdrop];
      [intros [] | intros [] | reflexivity |].
    apply (Hdrop Demo.node Demo.files0 "/w/dist" "/w" Demo.world0 _ _
                 (ordinary_decide Demo.files0 eq_refl) eq_refl
                 "internal/helper" ExtJs "// $RESERVED$ not part of the API").
    + vm_compute. auto 10.
    + reflexivity.
    + reflexivity.
  - intros w. apply Hgiven; [now left | discriminate].
Defined.

(** X28.  An artifact of the module path [__proto__].  For any files,
    grouping creates a group for each module path other than
    [__proto__], in the order of the first occurrence, and no group for
    [__proto__]: the artifact [__proto__.js] or [__proto__.d.ts] among
    the files becomes the property [js] or [dts] of [Object.prototype].
    A group that is an object holds artifacts of its own module path
    only, and the loop finds for its key the artifact that the group
    holds and, where the group holds none, the one that
    [Object.prototype] holds.  So with [__proto__.js] among the files,
    every module that is kept and has no runtime artifact of its own
    gets the import and require references of [__proto__.js]. *)
Theorem X28_proto_artifact :
  forall files : list string,
    let G := groupFiles files in
    keys G = distinct (ownBases files)
    /\ get "__proto__" G = None
    /\ (forall e f,
          get (extName e) (proto G) = Some f
          <-> f = artifact "__proto__" e /\ In f files)
    /\ (forall b g e f,
          get b G = Some (SObj g) -> getExt e g = Some f ->
          f = artifact b e /\ In f files)
    /\ (forall b g e,
          get b G = Some (SObj g) ->
          getExt e (fieldsOf G b)
          = match getExt e g with
            | Some f => Some f
            | None => get (extName e) (proto G)
            end)
    /\ (forall (R : Runtime) (opts : Options) (w w' : World)
               (exportsMap : Obj Entry) b g entry,
          buildExportsMap R files opts w = (Ret exportsMap, w') ->
          In "__proto__.js" files ->
          get b G = Some (SObj g) -> g_js g = None ->
          get ("./" ++ b) exportsMap = Some entry ->
          e_import entry = Some (reference R opts "__proto__.js")
          /\ e_require entry = Some (reference R opts "__proto__.js")).
Proof.
  intros files G.
  assert (Hfields : forall b g e,
             get b G = Some (SObj g) ->
             getExt e (fieldsOf G b)
             = match getExt e g with
               | Some f => Some f
               | None => get (extName e) (proto G)
               end).
  { intros b g e Hg. unfold fieldsOf, valueOf. rewrite Hg. now destruct e. }
  split; [apply keys_groupFiles_any|]. split; [|split; [|split; [|split]]].
  - destruct (get "__proto__" G) as [v|] eqn:Ev; [|reflexivity]. exfalso.
    apply get_In_keys in Ev. unfold G in Ev. rewrite keys_groupFiles_any in Ev.
    apply (proj1 (In_distinct _ _)) in Ev. unfold ownBases in Ev.
    apply filter_In in Ev as [_ Ev]. discriminate.
  - intros e f. apply proto_groupFiles.
  - exact (proj1 (groupFiles_Stored files)).
  - exact Hfields.
  - intros R opts w w' exportsMap b g entry Hrun Hin Hg Hjs He.
    destruct (build_loop_forIn Hrun) as (_ & _ & _ & _ & Hfrom & _).
    apply Hfrom in He as (k & _ & E & Hs). apply append_inv_head in E. subst k.
    fold G in Hs.
    assert (Hf : g_js (fieldsOf G b) = Some "__proto__.js").
    { pose proof (Hfields b g ExtJs Hg) as Hf. cbn [getExt] in Hf.
      rewrite Hf, Hjs. apply (proto_groupFiles files ExtJs). auto. }
    unfold stepResult in Hs. destruct (includesName _ _); [discriminate|].
    destruct (probe R (w_fs w) opts (g_js _)); try discriminate.
    destruct (probe R (w_fs w) opts (g_dts _)); try discriminate.
    injection Hs as <-. unfold entryOf. rewrite Hf.
    unfold withRuntime, withTypes. cbn [truthy].
    destruct (g_dts (fieldsOf G b)) as [d|]; [destruct (truthy d)|]; auto.
Qed.

(** The build directory with [__proto__.js], [b.d.ts], [js.js] and
    [js.d.ts]. *)
Lemma X28_proto_artifact_witness :
  get "js" (proto (groupFiles Demo.filesProto)) = Some "__proto__.js"
  /\ keys (groupFiles Demo.filesProto) = ["b"; "js"].
Proof.
  pose proof (X28_proto_artifact Demo.filesProto) as (Hkeys & _ & Hproto & _).
  split.
  - apply (Hproto ExtJs "__proto__.js"). split; [reflexivity | simpl; auto].
  - exact Hkeys.
Defined.
